(** * Scheduler microservice: the scheduling engine of [SchedulerService]

    A shallow embedding of [src/scheduler/scheduler.service.ts] (the
    expression calculator, the due-time index, the execution guard, the
    dispatcher and the start-up reconciler) together with the [Job] entity of
    [src/jobs/entities/job.entity.ts], and the properties the specification
    states about them.

    Conventions of the embedding.
    - A JavaScript string is a [string]; its characters are code units in
      the range 0..255.
    - A [Date] is its time value, a [Z] number of milliseconds since the
      epoch, and numbers are exact integers.  The code computes with
      doubles and clips the time value of a [Date] to 8.64e15 in absolute
      value; its results are those of exact arithmetic as long as the time
      values involved stay within that range ([validTime]), and beyond it
      the code has an Invalid Date where the embedding has a number.  The
      properties of a next run that depend on the size of the schedule
      carry that bound.
    - The local time zone of the process is a [TimeZone]: the offset of
      local time from UTC at an instant, and the offset that resolves a
      local time to an instant, as ECMAScript defines them.  It may have
      daylight-saving transitions.  A number of minutes, where a zone is
      expected, stands for the zone at that fixed offset east of UTC.
    - [NaN] produced by [parseInt] is [None]. *)

From Stdlib Require Import ZArith Lia String Ascii List Bool.
From stdpp Require Import gmap strings list fin_maps.
From Stdlib Require Import DecimalString DecimalN DecimalPos.

Local Open Scope string_scope.
Local Open Scope Z_scope.

(** ** Characters and strings, as the JavaScript built-ins treat them *)

(** [\d] of a regular expression. *)
Definition isDigit (c : ascii) : bool :=
  let n := nat_of_ascii c in ((48 <=? n) && (n <=? 57))%nat.

Definition digitVal (c : ascii) : Z := Z.of_nat (nat_of_ascii c) - 48.

(** [\s] of a regular expression, also the white space that [trim] and
    [parseInt] strip: TAB, LF, VT, FF, CR, SPACE and NBSP. *)
Definition isSpace (c : ascii) : bool :=
  let n := nat_of_ascii c in
  (((9 <=? n) && (n <=? 13)) || (n =? 32) || (n =? 160))%nat.

Definition isEmpty (s : string) : bool :=
  match s with EmptyString => true | String _ _ => false end.

(** The longest prefix of digits, and what follows it: a greedy [\d*]. *)
Fixpoint takeDigits (s : string) : string * string :=
  match s with
  | EmptyString => (EmptyString, EmptyString)
  | String c r =>
      if isDigit c
      then let (d, r') := takeDigits r in (String c d, r')
      else (EmptyString, s)
  end.

Fixpoint allDigits (s : string) : bool :=
  match s with
  | EmptyString => true
  | String c r => isDigit c && allDigits r
  end.

(** [^\d+$] *)
Definition isNumber (s : string) : bool := negb (isEmpty s) && allDigits s.

(** The decimal value of a string of digits. *)
Fixpoint digitsValue (acc : Z) (s : string) : Z :=
  match s with
  | EmptyString => acc
  | String c r => digitsValue (acc * 10 + digitVal c) r
  end.

Fixpoint trimStart (s : string) : string :=
  match s with
  | EmptyString => EmptyString
  | String c r => if isSpace c then trimStart r else s
  end.

Fixpoint trimEnd (s : string) : string :=
  match s with
  | EmptyString => EmptyString
  | String c r =>
      let r' := trimEnd r in
      if isSpace c && isEmpty r' then EmptyString else String c r'
  end.

(** [String.prototype.trim] *)
Definition trim (s : string) : string := trimEnd (trimStart s).

(** [parseInt(s, 10)]: leading white space, an optional sign, then the
    longest run of digits; whatever follows is ignored.  [None] is [NaN]. *)
Definition parseInt (s : string) : option Z :=
  let s1 := trimStart s in
  let '(sign, s2) :=
    match s1 with
    | String "-" r => (-1, r)
    | String "+" r => (1, r)
    | _ => (1, s1)
    end in
  let (ds, _) := takeDigits s2 in
  if isEmpty ds then None else Some (sign * digitsValue 0 ds).

(** [s.split(',')] *)
Fixpoint splitComma (s : string) : list string :=
  match s with
  | EmptyString => [EmptyString]
  | String c r =>
      if Ascii.eqb c ","
      then EmptyString :: splitComma r
      else match splitComma r with
           | h :: t => String c h :: t
           | [] => [String c EmptyString]
           end
  end.

(** [s.includes(',')] *)
Fixpoint includesComma (s : string) : bool :=
  match s with
  | EmptyString => false
  | String c r => Ascii.eqb c "," || includesComma r
  end.

(** [s.split(/\s+/)]: the separators are the maximal runs of white space;
    [inSep] says that the previous character belonged to one. *)
Fixpoint splitWsAux (inSep : bool) (s : string) : list string :=
  match s with
  | EmptyString => [EmptyString]
  | String c r =>
      if isSpace c
      then (if inSep then splitWsAux true r
            else EmptyString :: splitWsAux true r)
      else match splitWsAux false r with
           | h :: t => String c h :: t
           | [] => [String c EmptyString]
           end
  end.

Definition splitWs (s : string) : list string := splitWsAux false s.

(** [s.startsWith('PT')] *)
Definition startsWithPT (s : string) : bool :=
  match s with
  | String "P" (String "T" _) => true
  | _ => false
  end.

(** ** Errors thrown by the calculator

    The source throws plain [Error]s that differ in their message; each
    throw site is a constructor. *)
Inductive SchedError : Type :=
  | InvalidIntervalFormat   (* Invalid interval format: ... *)
  | IntervalNotPositive     (* Interval must be greater than 0 *)
  | InvalidCronExpression   (* Invalid cron expression: ... *)
  | NoNextRunFound.         (* Could not find next run time for cron: ... *)

(** The taxonomy of the specification. *)
Inductive ErrorKind : Type := InvalidSchedule | NoFeasibleRun.

Definition errorKind (e : SchedError) : ErrorKind :=
  match e with
  | NoNextRunFound => NoFeasibleRun
  | _ => InvalidSchedule
  end.

(** [error.message] *)
Definition errorMessage (e : SchedError) (schedule : string) : string :=
  match e with
  | InvalidIntervalFormat => "Invalid interval format: " +:+ schedule
  | IntervalNotPositive => "Interval must be greater than 0"
  | InvalidCronExpression => "Invalid cron expression: " +:+ schedule
  | NoNextRunFound => "Could not find next run time for cron: " +:+ schedule
  end.

Inductive Result (A : Type) : Type :=
  | OK (a : A)
  | Throw (e : SchedError).
Arguments OK {A} a.
Arguments Throw {A} e.

(** ** Interval schedules *)

(** The leftmost place where [/PT.../] can match: the regular expression is
    not anchored, and everything after [PT] is optional.  The result is the
    text that follows that [PT]; [None] when [match] returns [null]. *)
Fixpoint searchPT (s : string) : option string :=
  match s with
  | EmptyString => None
  | String c r =>
      if Ascii.eqb c "P" && (match r with String "T" _ => true | _ => false end)
      then (match r with String _ r' => Some r' | EmptyString => None end)
      else searchPT r
  end.

(** [(?:(\d+)U)?]: the digits captured when a non-empty run of digits is
    followed by the unit letter, and the text after the group. *)
Definition optComponent (unit : ascii) (s : string) : option string * string :=
  let (ds, r) := takeDigits s in
  match ds, r with
  | String _ _, String c r' =>
      if Ascii.eqb c unit then (Some ds, r') else (None, s)
  | _, _ => (None, s)
  end.

(** [parseInt(g || '0', 10)] for a capture [g] of [(\d+)]. *)
Definition groupValue (g : option string) : Z :=
  match parseInt (default "0" g) with
  | Some n => n
  | None => 0
  end.

(** The three captures of [/PT(?:(\d+)H)?(?:(\d+)M)?(?:(\d+)S)?/]. *)
Definition matchInterval (interval : string)
  : option (option string * option string * option string * string) :=
  match searchPT interval with
  | None => None
  | Some r0 =>
      let (h, r1) := optComponent "H" r0 in
      let (m, r2) := optComponent "M" r1 in
      let (s, r3) := optComponent "S" r2 in
      Some (h, m, s, r3)
  end.

(** [calculateNextRunFromInterval(interval, from)].  The sum of the last
    line is exact, and the [Date] made of it valid, when [validTime from]
    and [validTime (from + totalMs)]; beyond that range the code returns
    an Invalid Date. *)
Definition calculateNextRunFromInterval (interval : string) (from : Z)
  : Result Z :=
  match matchInterval interval with
  | None => Throw InvalidIntervalFormat
  | Some (h, m, s, _) =>
      let hours := groupValue h in
      let minutes := groupValue m in
      let seconds := groupValue s in
      let totalMs := hours * 3600000 + minutes * 60000 + seconds * 1000 in
      if totalMs =? 0 then Throw IntervalNotPositive
      else OK (from + totalMs)
  end.

(** ** Cron fields *)

(** [/^\*\/(\d+)$/] *)
Definition matchStep (field : string) : option string :=
  match field with
  | String "*" (String "/" ds) => if isNumber ds then Some ds else None
  | _ => None
  end.

(** [/^(\d+)-(\d+)$/] *)
Definition matchRange (field : string) : option (string * string) :=
  let (a, r) := takeDigits field in
  match a, r with
  | String _ _, String "-" b => if isNumber b then Some (a, b) else None
  | _, _ => None
  end.

(** JavaScript's [%] on integers: the remainder has the sign of the
    dividend; a zero divisor gives [NaN]. *)
Definition jsRem (a b : Z) : option Z :=
  if b =? 0 then None else Some (Z.rem a b).

Definition matchesCronField (field : string) (value : Z) : bool :=
  if String.eqb field "*" then true
  else match matchStep field with
  | Some ds =>
      let step := groupValue (Some ds) in
      match jsRem value step with
      | Some r => r =? 0
      | None => false
      end
  | None =>
  if isNumber field then groupValue (Some field) =? value
  else match matchRange field with
  | Some (a, b) =>
      let start := groupValue (Some a) in
      let end_ := groupValue (Some b) in
      (start <=? value) && (value <=? end_)
  | None =>
  if includesComma field then
    let values := map (fun v => parseInt (trim v)) (splitComma field) in
    existsb (fun x => match x with Some n => n =? value | None => false end)
            values
  else false
  end end.

(** ** The calendar of [Date]

    The getters and setters of [Date] that the cron search uses, on time
    values in milliseconds, as ECMAScript defines them: a getter reads a
    component of [LocalTime(t)]; a setter rebuilds the local time with
    [MakeTime] and [MakeDate] and resolves it to an instant with [UTC]. *)

Definition msPerMinute : Z := 60000.
Definition msPerHour : Z := 3600000.
Definition msPerDay : Z := 86400000.

(** The time values a [Date] can hold. *)
Definition maxTimeValue : Z := 8640000000000000.

Definition validTime (t : Z) : Prop := - maxTimeValue <= t <= maxTimeValue.

(** The local time zone.  [offsetAt t] is [LocalTZA(t, true)], the offset
    of local time from UTC, in milliseconds, at the instant [t];
    [offsetOfLocal l] is [LocalTZA(l, false)], the offset by which the
    local time [l] is resolved: where a local time occurs twice (clocks
    set back) or not at all (clocks set forward) it is the offset in force
    before the transition. *)
Record TimeZone : Type := mkTimeZone {
  offsetAt : Z -> Z;
  offsetOfLocal : Z -> Z }.

(** The zone that is always [minutes] east of UTC. *)
Definition fixedZone (minutes : Z) : TimeZone :=
  mkTimeZone (fun _ => minutes * msPerMinute) (fun _ => minutes * msPerMinute).

Coercion fixedZone : Z >-> TimeZone.

(** [MakeTime(hour, min, sec, ms)] and [MakeDate(day, time)] *)
Definition makeTime (hour min sec ms : Z) : Z :=
  hour * msPerHour + min * msPerMinute + sec * 1000 + ms.

Definition makeDate (day time : Z) : Z := day * msPerDay + time.

(** The civil date (year, month 1..12, day 1..31) of a day number counted
    from 1970-01-01, in the proleptic Gregorian calendar. *)
Definition civilFromDays (day : Z) : Z * Z * Z :=
  let z := day + 719468 in
  let era := z / 146097 in
  let doe := z - era * 146097 in
  let yoe := (doe - doe / 1460 + doe / 36524 - doe / 146096) / 365 in
  let doy := doe - (365 * yoe + yoe / 4 - yoe / 100) in
  let mp := (5 * doy + 2) / 153 in
  let d := doy - (153 * mp + 2) / 5 + 1 in
  let m := if mp <? 10 then mp + 3 else mp - 9 in
  let y := yoe + era * 400 + (if m <=? 2 then 1 else 0) in
  (y, m, d).

(** The day number of a civil date: the inverse direction, used to write
    instants down in examples. *)
Definition daysFromCivil (y m d : Z) : Z :=
  let y' := if m <=? 2 then y - 1 else y in
  let era := y' / 400 in
  let yoe := y' - era * 400 in
  let mp := if m <=? 2 then m + 9 else m - 3 in
  let doy := (153 * mp + 2) / 5 + d - 1 in
  let doe := yoe * 365 + yoe / 4 - yoe / 100 + doy in
  era * 146097 + doe - 719468.

(** The instant, in UTC, of a civil date and time of day. *)
Definition utcInstant (y mo d h mi s : Z) : Z :=
  makeDate (daysFromCivil y mo d) (makeTime h mi s 0).

(** America/New_York as it is from 2023-11-05T06:00Z to 2025-03-09T07:00Z:
    five hours west of UTC, four while daylight-saving time is in force,
    from 2024-03-10T07:00Z (2 o'clock becomes 3) to 2024-11-03T06:00Z
    (2 o'clock becomes 1).  The local times from 2 to 3 o'clock on 10 March do not
    occur and are resolved with the offset of winter; those from 1 to 2
    o'clock on 3 November occur twice and are resolved with the offset of
    summer, that is to their first occurrence. *)
Definition newYork : TimeZone :=
  mkTimeZone
    (fun t =>
       if t <? utcInstant 2024 3 10 7 0 0 then -5 * msPerHour
       else if t <? utcInstant 2024 11 3 6 0 0 then -4 * msPerHour
       else -5 * msPerHour)
    (fun l =>
       if l <? utcInstant 2024 3 10 3 0 0 then -5 * msPerHour
       else if l <? utcInstant 2024 11 3 2 0 0 then -4 * msPerHour
       else -5 * msPerHour).

Section LocalTime.

(** The local zone of the process. *)
Variable tz : TimeZone.

(** [LocalTime(t)] and [UTC(t)] *)
Definition localTime (t : Z) : Z := t + offsetAt tz t.

Definition utcTime (l : Z) : Z := l - offsetOfLocal tz l.

Definition getMinutes (t : Z) : Z := (localTime t / msPerMinute) mod 60.
Definition getHours (t : Z) : Z := (localTime t / msPerHour) mod 24.
Definition getSeconds (t : Z) : Z := (localTime t / 1000) mod 60.
Definition getMilliseconds (t : Z) : Z := localTime t mod 1000.
Definition localDay (t : Z) : Z := localTime t / msPerDay.

(** Day of the month, 1..31. *)
Definition getDate (t : Z) : Z := snd (civilFromDays (localDay t)).

(** Month, 0..11. *)
Definition getMonth (t : Z) : Z := snd (fst (civilFromDays (localDay t))) - 1.

(** Day of the week, 0 = Sunday; 1970-01-01 was a Thursday. *)
Definition getDay (t : Z) : Z := (localDay t + 4) mod 7.

(** [d.setSeconds(0, 0)]: the local time with its seconds and milliseconds
    replaced, resolved to an instant. *)
Definition setSeconds00 (t : Z) : Z :=
  utcTime (makeDate (localDay t) (makeTime (getHours t) (getMinutes t) 0 0)).

(** [d.setMinutes(m)]: the minute of the local time is replaced by [m],
    which may lie outside 0..59 and then carries over; the result is
    resolved to an instant. *)
Definition setMinutes (m : Z) (t : Z) : Z :=
  utcTime (makeDate (localDay t)
             (makeTime (getHours t) m (getSeconds t) (getMilliseconds t))).

(** [nextRun.setMinutes(nextRun.getMinutes() + 1)] *)
Definition nextMinute (t : Z) : Z := setMinutes (getMinutes t + 1) t.

(** The instant of a local civil date and time of day. *)
Definition localInstant (y mo d h mi s : Z) : Z :=
  utcTime (utcInstant y mo d h mi s).

(** ** The cron search *)

Record CronFields : Type := mkCron {
  cMinute : string; cHour : string; cDay : string;
  cMonth : string; cWeekday : string }.

(** The body of the condition of the loop: all five fields match. *)
Definition cronMatches (f : CronFields) (nextRun : Z) : bool :=
  let matchesMinute := matchesCronField (cMinute f) (getMinutes nextRun) in
  let matchesHour := matchesCronField (cHour f) (getHours nextRun) in
  let matchesDay := matchesCronField (cDay f) (getDate nextRun) in
  let matchesMonth := matchesCronField (cMonth f) (getMonth nextRun + 1) in
  let matchesWeekday := matchesCronField (cWeekday f) (getDay nextRun) in
  matchesMinute && matchesHour && matchesDay && matchesMonth
  && matchesWeekday.

(** The [while (attempts < maxAttempts)] loop; [fuel] is
    [maxAttempts - attempts].  [None]: the loop ran out. *)
Fixpoint cronLoop (f : CronFields) (fuel : nat) (nextRun : Z) : option Z :=
  match fuel with
  | O => None
  | S fuel' =>
      if cronMatches f nextRun then Some nextRun
      else cronLoop f fuel' (setMinutes (getMinutes nextRun + 1) nextRun)
  end.

Definition maxAttempts : nat := Z.to_nat 10080.

(** [cronExpression.trim().split(/\s+/)], destructured when it has five
    parts. *)
Definition cronParts (cronExpression : string) : option CronFields :=
  match splitWs (trim cronExpression) with
  | [minute; hour; day; month; weekday] =>
      Some (mkCron minute hour day month weekday)
  | _ => None
  end.

Definition calculateNextRunFromCron (cronExpression : string) (from : Z)
  : Result Z :=
  match cronParts cronExpression with
  | None => Throw InvalidCronExpression
  | Some f =>
      let nextRun := setSeconds00 from in
      let nextRun := setMinutes (getMinutes nextRun + 1) nextRun in
      match cronLoop f maxAttempts nextRun with
      | Some r => OK r
      | None => Throw NoNextRunFound
      end
  end.

(** [calculateNextRun(schedule)]; [now] is the clock that [new Date()]
    reads. *)
Definition calculateNextRun (now : Z) (schedule : string) : Result Z :=
  if startsWithPT schedule
  then calculateNextRunFromInterval schedule now
  else calculateNextRunFromCron schedule now.

End LocalTime.

(** ** The job entity *)

Inductive JobType : Type :=
  EMAIL_NOTIFICATION | NUMBER_CRUNCHING | DATA_PROCESSING | REPORT_GENERATION.

Inductive JobStatus : Type := ACTIVE | PAUSED | COMPLETED | FAILED.

Global Instance JobStatus_eq_dec : EqDecision JobStatus.
Proof. solve_decision. Defined.

(** The columns of [Job] that the scheduler reads or writes, and those it
    must leave alone.  [metadata] and the columns the ORM maintains
    ([createdAt], [updatedAt]) are left out. *)
Record Job : Type := mkJob {
  id : string;
  name : string;
  type : JobType;
  status : JobStatus;
  description : option string;
  schedule : string;
  lastRunAt : option Z;
  nextRunAt : option Z;
  runCount : Z;
  failureCount : Z;
  lastError : option string }.

Definition setLastRunAt (v : option Z) (j : Job) : Job :=
  mkJob (id j) (name j) (type j) (status j) (description j) (schedule j)
        v (nextRunAt j) (runCount j) (failureCount j) (lastError j).
Definition setNextRunAt (v : option Z) (j : Job) : Job :=
  mkJob (id j) (name j) (type j) (status j) (description j) (schedule j)
        (lastRunAt j) v (runCount j) (failureCount j) (lastError j).
Definition setRunCount (v : Z) (j : Job) : Job :=
  mkJob (id j) (name j) (type j) (status j) (description j) (schedule j)
        (lastRunAt j) (nextRunAt j) v (failureCount j) (lastError j).
Definition setFailureCount (v : Z) (j : Job) : Job :=
  mkJob (id j) (name j) (type j) (status j) (description j) (schedule j)
        (lastRunAt j) (nextRunAt j) (runCount j) v (lastError j).
Definition setLastError (v : option string) (j : Job) : Job :=
  mkJob (id j) (name j) (type j) (status j) (description j) (schedule j)
        (lastRunAt j) (nextRunAt j) (runCount j) (failureCount j) v.

(** ** The state of the service and of what surrounds it *)

(** [interface ScheduledJob] *)
Record ScheduledJob : Type := mkScheduled {
  sjId : string;
  sjNextRunAt : Z;
  timeoutId : nat }.

(** [interface ExecutingJob] *)
Record ExecutingJob : Type := mkExecuting {
  ejId : string;
  startTime : Z }.

(** A pending [setTimeout]: the job its callback closes over, and the delay
    it was armed with. *)
Record Timer : Type := mkTimer {
  timerJob : Job;
  timerDelay : Z }.

Inductive Level : Type := LOG | WARN | ERROR.

(** The messages of the logger, by call site. *)
Inductive LogMsg : Type :=
  | MsgScheduled (jobName jobId : string) (at_ : Z)
  | MsgUnscheduled (jobId : string)
  | MsgAlreadyExecuting (jobId : string)
  | MsgExecuting (jobName jobId : string)
  | MsgNoLongerActive (jobId : string)
  | MsgExecuted (jobName : string) (next : Z)
  | MsgErrorExecuting (jobId message : string)
  | MsgLoaded (count : nat)
  | MsgErrorLoading (message : string).

Record World : Type := mkWorld {
  (** [this.scheduledJobs]: the due-time index *)
  scheduledJobs : gmap string ScheduledJob;
  (** [this.executingJobs]: the execution guard *)
  executingJobs : gmap string ExecutingJob;
  (** the pending timeouts of the runtime, by the id [setTimeout] returned *)
  timers : gmap nat Timer;
  (** the id the next [setTimeout] returns *)
  nextTimeoutId : nat;
  (** the rows of the jobs table behind [this.jobRepository] *)
  jobRepository : gmap string Job;
  (** the calls made to [jobExecutorService.execute], the latest first *)
  executed : list Job;
  (** what the logger was given, the latest first *)
  logged : list (Level * LogMsg) }.

Definition setScheduledJobs (m : gmap string ScheduledJob) (w : World) : World :=
  mkWorld m (executingJobs w) (timers w) (nextTimeoutId w) (jobRepository w)
          (executed w) (logged w).
Definition setExecutingJobs (m : gmap string ExecutingJob) (w : World) : World :=
  mkWorld (scheduledJobs w) m (timers w) (nextTimeoutId w) (jobRepository w)
          (executed w) (logged w).
Definition setTimers (m : gmap nat Timer) (n : nat) (w : World) : World :=
  mkWorld (scheduledJobs w) (executingJobs w) m n (jobRepository w)
          (executed w) (logged w).
Definition setJobRepository (m : gmap string Job) (w : World) : World :=
  mkWorld (scheduledJobs w) (executingJobs w) (timers w) (nextTimeoutId w) m
          (executed w) (logged w).
Definition recordExecute (j : Job) (w : World) : World :=
  mkWorld (scheduledJobs w) (executingJobs w) (timers w) (nextTimeoutId w)
          (jobRepository w) (j :: executed w) (logged w).
Definition logger (l : Level) (m : LogMsg) (w : World) : World :=
  mkWorld (scheduledJobs w) (executingJobs w) (timers w) (nextTimeoutId w)
          (jobRepository w) (executed w) ((l, m) :: logged w).

(** How a call ends: it returns, or it throws an [Error] with a message. *)
Inductive Outcome : Type :=
  | Returned
  | Threw (message : string).

(** [jobRepository.save(job)] when the store accepts it. *)
Definition save (j : Job) (w : World) : World :=
  setJobRepository (<[id j := j]> (jobRepository w)) w.

(** ** The due-time index *)

Definition unscheduleJob (jobId : string) (w : World) : World :=
  match scheduledJobs w !! jobId with
  | Some scheduledJob =>
      let w := setTimers (delete (timeoutId scheduledJob) (timers w))
                         (nextTimeoutId w) w in
      let w := setScheduledJobs (delete jobId (scheduledJobs w)) w in
      logger LOG (MsgUnscheduled jobId) w
  | None => w
  end.

Section Service.

Variable tz : TimeZone.

(** [scheduleJob(job)]; [now] is the clock during the call. *)
Definition scheduleJob (now : Z) (job : Job) (w : World) : World * Outcome :=
  if decide (status job = ACTIVE) then
    let w := unscheduleJob (id job) w in
    match (match nextRunAt job with
           | Some t => OK t
           | None => calculateNextRun tz now (schedule job)
           end) with
    | Throw e => (w, Threw (errorMessage e (schedule job)))
    | OK nextRunAt =>
        let delay := Z.max 0 (nextRunAt - now) in
        let timeoutId := nextTimeoutId w in
        let w := setTimers (<[timeoutId := mkTimer job delay]> (timers w))
                           (S timeoutId) w in
        let w := setScheduledJobs
                   (<[id job := mkScheduled (id job) nextRunAt timeoutId]>
                      (scheduledJobs w)) w in
        (logger LOG (MsgScheduled (name job) (id job) nextRunAt) w, Returned)
    end
  else (w, Returned).

(** A pending timeout fires: the callback removes the entry of its job
    from the index and hands the job to [executeJob].  The result is the
    job handed over, if the timeout was pending. *)
Definition fireTimer (tid : nat) (w : World) : World * option Job :=
  match timers w !! tid with
  | Some t =>
      let job := timerJob t in
      let w := setTimers (delete tid (timers w)) (nextTimeoutId w) w in
      let w := setScheduledJobs (delete (id job) (scheduledJobs w)) w in
      (w, Some job)
  | None => (w, None)
  end.

(** ** The dispatcher

    [executeJob] is asynchronous: between two [await]s it runs without
    interruption, and at an [await] anything else may run.  A call is
    therefore a task that advances one synchronous stretch at a time; [Pc]
    names the [await] a task is suspended at, with the local variables
    that are live there. *)
Inductive Pc : Type :=
  | PStart
  | PFindOne
  | PExecute (freshJob : Job)
  | PSave (freshJob : Job) (next : Z)
  | PReschedule (freshJob : Job) (next : Z)
  | PCatchFindOne (message : string)
  | PCatchSave1 (freshJob : Job)
  | PCatchSave2 (freshJob : Job)
  | PCatchReschedule
  | PDone (o : Outcome).

(** What the surroundings give a task when it resumes: the clock, and
    whether the awaited operation (store read, store write, executor)
    rejected, with which message. *)
Record Input : Type := mkInput {
  now : Z;
  rejected : option string }.

(** [Math.min(Math.pow(2, failureCount) * 60000, 3600000)], for a count
    that is not negative. *)
Definition backoffDelay (failureCount : Z) : Z :=
  Z.min (2 ^ failureCount * 60000) 3600000.

(** The [finally] block, then the end of the call. *)
Definition finish (job : Job) (o : Outcome) (w : World) : World * Pc :=
  (setExecutingJobs (delete (id job) (executingJobs w)) w, PDone o).

(** Entry of the [catch] block, up to its [await findOne]. *)
Definition enterCatch (job : Job) (message : string) (w : World)
  : World * Pc :=
  (logger ERROR (MsgErrorExecuting (id job) message) w, PCatchFindOne message).

Definition stepTask (job : Job) (pc : Pc) (i : Input) (w : World)
  : World * Pc :=
  match pc with
  | PStart =>
      match executingJobs w !! id job with
      | Some _ =>
          (logger WARN (MsgAlreadyExecuting (id job)) w, PDone Returned)
      | None =>
          let w := setExecutingJobs
                     (<[id job := mkExecuting (id job) (now i)]>
                        (executingJobs w)) w in
          (logger LOG (MsgExecuting (name job) (id job)) w, PFindOne)
      end
  | PFindOne =>
      match rejected i with
      | Some m => enterCatch job m w
      | None =>
          match jobRepository w !! id job with
          | Some freshJob =>
              if decide (status freshJob = ACTIVE) then
                let freshJob := setLastRunAt (Some (now i)) freshJob in
                let freshJob := setRunCount (runCount freshJob + 1) freshJob in
                (recordExecute freshJob w, PExecute freshJob)
              else
                let w := logger WARN (MsgNoLongerActive (id job)) w in
                let w := setExecutingJobs
                           (delete (id job) (executingJobs w)) w in
                finish job Returned w
          | None =>
              let w := logger WARN (MsgNoLongerActive (id job)) w in
              let w := setExecutingJobs
                         (delete (id job) (executingJobs w)) w in
              finish job Returned w
          end
      end
  | PExecute freshJob =>
      match rejected i with
      | Some m => enterCatch job m w
      | None =>
          match calculateNextRun tz (now i) (schedule freshJob) with
          | Throw e => enterCatch job (errorMessage e (schedule freshJob)) w
          | OK next =>
              let freshJob := setNextRunAt (Some next) freshJob in
              let freshJob := setLastError None freshJob in
              (w, PSave freshJob next)
          end
      end
  | PSave freshJob next =>
      match rejected i with
      | Some m => enterCatch job m w
      | None =>
          let w := save freshJob w in
          match scheduleJob (now i) freshJob w with
          | (w, Returned) => (w, PReschedule freshJob next)
          | (w, Threw m) => enterCatch job m w
          end
      end
  | PReschedule freshJob next =>
      finish job Returned (logger LOG (MsgExecuted (name freshJob) next) w)
  | PCatchFindOne message =>
      match rejected i with
      | Some m => finish job (Threw m) w
      | None =>
          match jobRepository w !! id job with
          | Some freshJob =>
              let freshJob :=
                setFailureCount (failureCount freshJob + 1) freshJob in
              let freshJob := setLastError (Some message) freshJob in
              (w, PCatchSave1 freshJob)
          | None => finish job Returned w
          end
      end
  | PCatchSave1 freshJob =>
      match rejected i with
      | Some m => finish job (Threw m) w
      | None =>
          let w := save freshJob w in
          let backoff := backoffDelay (failureCount freshJob) in
          let next := now i + backoff in
          (w, PCatchSave2 (setNextRunAt (Some next) freshJob))
      end
  | PCatchSave2 freshJob =>
      match rejected i with
      | Some m => finish job (Threw m) w
      | None =>
          let w := save freshJob w in
          match scheduleJob (now i) freshJob w with
          | (w, Returned) => (w, PCatchReschedule)
          | (w, Threw m) => finish job (Threw m) w
          end
      end
  | PCatchReschedule => finish job Returned w
  | PDone o => (w, PDone o)
  end.

Definition isDone (pc : Pc) : bool :=
  match pc with PDone _ => true | _ => false end.

(** A task run without anything else in between: each input resumes it
    once, until it is done or the inputs are used up. *)
Fixpoint runTask (job : Job) (pc : Pc) (ins : list Input) (w : World)
  : World * Pc :=
  match ins with
  | [] => (w, pc)
  | i :: ins' =>
      if isDone pc then (w, pc)
      else let (w', pc') := stepTask job pc i w in runTask job pc' ins' w'
  end.

(** [executeJob(job)], run to its end with nothing in between. *)
Definition executeJob (job : Job) (ins : list Input) (w : World)
  : World * Pc :=
  runTask job PStart ins w.


(** ** The reconciler *)

(** What the surroundings give [loadActiveJobs]: whether the query and the
    batch save rejected, the clock while due times are computed, and the
    clock at each call of [scheduleJob]. *)
Record LoadInput : Type := mkLoadInput {
  queryRejected : option string;
  calcNow : Z;
  saveRejected : option string;
  schedNow : nat -> Z }.

(** The rows the query for status ACTIVE returns. *)
Definition getActive (w : World) : list Job :=
  filter (fun job => status job = ACTIVE)
         (snd <$> map_to_list (jobRepository w)).

(** The loop [for (const job of jobsToUpdate) job.nextRunAt = ...].
    [jobsToUpdate] holds the very objects of [activeJobs] that lack
    [nextRunAt], so the loop is a pass over [activeJobs] that assigns to
    those and marks them; it stops at the first schedule the calculator
    rejects. *)
Fixpoint assignNextRuns (now : Z) (activeJobs : list Job)
  : string + list (bool * Job) :=
  match activeJobs with
  | [] => inr []
  | job :: rest =>
      match nextRunAt job with
      | Some _ =>
          match assignNextRuns now rest with
          | inl m => inl m
          | inr l => inr ((false, job) :: l)
          end
      | None =>
          match calculateNextRun tz now (schedule job) with
          | Throw e => inl (errorMessage e (schedule job))
          | OK t =>
              match assignNextRuns now rest with
              | inl m => inl m
              | inr l => inr ((true, setNextRunAt (Some t) job) :: l)
              end
          end
      end
  end.

(** [jobRepository.save(jobsToUpdate)] when the store accepts it. *)
Definition saveAll (jobs : list Job) (w : World) : World :=
  foldl (fun w job => save job w) w jobs.

(** [for (const job of activeJobs) await this.scheduleJob(job)]; [k]
    counts the calls. *)
Fixpoint scheduleAll (clock : nat -> Z) (k : nat) (jobs : list Job)
                     (w : World) : World * Outcome :=
  match jobs with
  | [] => (w, Returned)
  | job :: rest =>
      match scheduleJob (clock k) job w with
      | (w', Returned) => scheduleAll clock (S k) rest w'
      | (w', Threw m) => (w', Threw m)
      end
  end.

Definition loadActiveJobs (inp : LoadInput) (w : World) : World :=
  match queryRejected inp with
  | Some m => logger ERROR (MsgErrorLoading m) w
  | None =>
      let activeJobs := getActive w in
      match assignNextRuns (calcNow inp) activeJobs with
      | inl m => logger ERROR (MsgErrorLoading m) w
      | inr marked =>
          let jobsToUpdate := snd <$> filter (fun p => fst p = true) marked in
          let activeJobs := snd <$> marked in
          match (if decide (0 < length jobsToUpdate)%nat
                 then match saveRejected inp with
                      | Some m => inl m
                      | None => inr (saveAll jobsToUpdate w)
                      end
                 else inr w) with
          | inl m => logger ERROR (MsgErrorLoading m) w
          | inr w =>
              match scheduleAll (schedNow inp) 0 activeJobs w with
              | (w, Returned) =>
                  logger LOG (MsgLoaded (length activeJobs)) w
              | (w, Threw m) => logger ERROR (MsgErrorLoading m) w
              end
          end
      end
  end.

(** ** Several calls of [executeJob] at once

    The process is one event loop: the tasks that are under way take
    turns, one synchronous stretch at a time. *)
Record Task : Type := mkTask {
  taskJob : Job;
  taskPc : Pc }.

Record System : Type := mkSystem {
  world : World;
  tasks : list Task }.

(** A task is in flight from the moment it has entered the guard until it
    is done. *)
Definition inFlight (pc : Pc) : bool :=
  match pc with
  | PStart | PDone _ => false
  | _ => true
  end.

Inductive sysStep : System -> System -> Prop :=
  (** a timer or the sweep calls [executeJob(job)] *)
  | StepDispatch s job :
      sysStep s (mkSystem (world s) (tasks s ++ [mkTask job PStart]))
  (** a task runs its next synchronous stretch *)
  | StepResume s k t i w' pc' :
      tasks s !! k = Some t ->
      stepTask (taskJob t) (taskPc t) i (world s) = (w', pc') ->
      sysStep s (mkSystem w' (<[k := mkTask (taskJob t) pc']> (tasks s)))
  (** anything else the process does (the API, a timer that is armed or
      cleared, the store): only [executeJob] writes to the guard *)
  | StepOther s w' :
      executingJobs w' = executingJobs (world s) ->
      sysStep s (mkSystem w' (tasks s)).

Definition initial (s : System) : Prop :=
  executingJobs (world s) = empty /\ tasks s = [].

Inductive reachable : System -> Prop :=
  | ReachInit s : initial s -> reachable s
  | ReachStep s s' : reachable s -> sysStep s s' -> reachable s'.

End Service.

(** ** Notions of the specification, to compare the code with *)

(** The interval format in the words of the specification: the whole string
    is [PT] followed by optional [<n>H], [<n>M], [<n>S], in that order. *)
Definition specIntervalFormat (s : string) : bool :=
  match s with
  | String "P" (String "T" r0) =>
      let (_, r1) := optComponent "H" r0 in
      let (_, r2) := optComponent "M" r1 in
      let (_, r3) := optComponent "S" r2 in
      isEmpty r3
  | _ => false
  end.

(** The branch of [matchesCronField] that a field takes. *)
Inductive FieldSyntax : Type :=
  SynAny | SynStep | SynExact | SynRange | SynList | SynOther.

Definition fieldSyntax (field : string) : FieldSyntax :=
  if String.eqb field "*" then SynAny
  else match matchStep field with
  | Some _ => SynStep
  | None =>
  if isNumber field then SynExact
  else match matchRange field with
  | Some _ => SynRange
  | None => if includesComma field then SynList else SynOther
  end end.

(** For each identity in the due-time index there is one pending timeout,
    and each pending timeout belongs to the entry of its job. *)
Definition indexInv (w : World) : Prop :=
  (forall x sj, scheduledJobs w !! x = Some sj ->
     sjId sj = x
     /\ exists t, timers w !! timeoutId sj = Some t /\ id (timerJob t) = x)
  /\ (forall tid t, timers w !! tid = Some t ->
        exists sj, scheduledJobs w !! id (timerJob t) = Some sj
                   /\ timeoutId sj = tid)
  /\ (forall tid, is_Some (timers w !! tid) -> (tid < nextTimeoutId w)%nat).

(** The due time [scheduleJob] uses: the one the job carries or, for a job
    without one, the one the calculator gives. *)
Definition dueTime (tz : TimeZone) (now : Z) (job : Job) : Result Z :=
  match nextRunAt job with
  | Some t => OK t
  | None => calculateNextRun tz now (schedule job)
  end.

(** A bound on the synchronous stretches a task still has to run. *)
Definition rank (pc : Pc) : nat :=
  match pc with
  | PStart => 8
  | PFindOne => 7
  | PExecute _ => 6
  | PSave _ _ => 5
  | PCatchFindOne _ => 4
  | PCatchSave1 _ => 3
  | PCatchSave2 _ => 2
  | PReschedule _ _ => 1
  | PCatchReschedule => 1
  | PDone _ => 0
  end.

(** The task is past the point where it calls the executor. *)
Definition afterRead (pc : Pc) : bool :=
  match pc with
  | PStart | PFindOne => false
  | _ => true
  end.

(** The guard holds exactly the identities of the tasks in flight, and no
    two tasks in flight have the same identity. *)
Definition guardInv (s : System) : Prop :=
  (forall x, is_Some (executingJobs (world s) !! x) <->
     exists k t, tasks s !! k = Some t /\ id (taskJob t) = x
                 /\ inFlight (taskPc t) = true)
  /\ (forall k1 k2 t1 t2,
        tasks s !! k1 = Some t1 -> tasks s !! k2 = Some t2 ->
        inFlight (taskPc t1) = true -> inFlight (taskPc t2) = true ->
        id (taskJob t1) = id (taskJob t2) -> k1 = k2).

(** ** Sample data *)

Definition emptyWorld : World :=
  mkWorld empty empty empty 0 empty [] [].

Definition sampleJob : Job :=
  mkJob "job-1" "Daily Email Report" EMAIL_NOTIFICATION ACTIVE None
        "PT5M" None None 0 0 None.

(** A store that holds [sampleJob], and the same with the job under way. *)
Definition sampleWorld : World := save sampleJob emptyWorld.

Definition guardedWorld : World :=
  setExecutingJobs (<[id sampleJob := mkExecuting (id sampleJob) 0]> empty)
                   sampleWorld.

(** A job that has failed twice before. *)
Definition failedTwice : Job := setFailureCount 2 sampleJob.

Definition answer (t : Z) : Input := mkInput t None.
Definition reject (t : Z) (m : string) : Input := mkInput t (Some m).

(** What the loop of [assignNextRuns] makes of one job when the calculator
    accepts its schedule: the mark, and the job with its due time. *)
Definition assigned (tz : TimeZone) (now : Z) (job : Job) : bool * Job :=
  match nextRunAt job with
  | Some _ => (false, job)
  | None =>
      match calculateNextRun tz now (schedule job) with
      | OK t => (true, setNextRunAt (Some t) job)
      | Throw _ => (true, job)
      end
  end.

(** Every row of the jobs table is stored under its own identity. *)
Definition storeWf (w : World) : Prop :=
  forall k job, jobRepository w !! k = Some job -> id job = k.

(** Two active jobs without a due time: one with a schedule the calculator
    rejects, one with an interval of five minutes. *)
Definition badJob : Job :=
  mkJob "bad" "Broken" REPORT_GENERATION ACTIVE None
        "every day" None None 0 0 None.

Definition goodJob : Job :=
  mkJob "good" "Every five minutes" DATA_PROCESSING ACTIVE None
        "PT5M" None None 0 0 None.

Definition twoJobs : World := save badJob (save goodJob emptyWorld).

(** A start-up in which the store answers every request. *)
Definition calmLoad : LoadInput :=
  mkLoadInput None 1000 None (fun _ => 1000).

(** ** Schedules written out

    The decimal numeral of a number, and the interval and cron field
    strings built from numbers, to state what the calculator reads off
    them. *)

Definition decimal (n : N) : string := NilEmpty.string_of_uint (N.to_uint n).

(** One component [<n>U] of an interval, or nothing. *)
Definition component (o : option N) (unit : ascii) : string :=
  match o with
  | Some n => decimal n +:+ String unit EmptyString
  | None => EmptyString
  end.

(** [PT] followed by the components that are given, in the order H, M, S. *)
Definition formatInterval (h m s : option N) : string :=
  "PT" +:+ component h "H" +:+ component m "M" +:+ component s "S".

Definition amount (o : option N) : Z :=
  match o with
  | Some n => Z.of_N n
  | None => 0
  end.

(** The ways from the executor into the [catch] block: the executor
    rejects, or it resolves and the calculator refuses the schedule. *)
Definition attemptFails (tz : TimeZone) (freshJob : Job) (i : Input)
    (msg : string)
  : Prop :=
  rejected i = Some msg
  \/ (rejected i = None
      /\ exists e, calculateNextRun tz (now i) (schedule freshJob) = Throw e
                   /\ msg = errorMessage e (schedule freshJob)).

(** ** The periodic sweep: [checkAndExecuteJobs] *)

(** What the first loop has so far: the state of the service, the jobs to
    execute, and the errors of the store it has logged (identity and
    message of "Error fetching job"). *)
Record SweepState : Type := mkSweep {
  swWorld : World;
  jobsToExecute : list Job;
  fetchErrors : list (string * string) }.

(** The body of the first loop for one key of the index; [now] is the clock
    read before the loop, [rejected] says for which job the query is
    rejected.  A key whose entry is gone is not visited. *)
Definition sweepVisit (now : Z) (rejected : string -> option string)
    (jobId : string) (st : SweepState) : SweepState :=
  let w := swWorld st in
  match scheduledJobs w !! jobId with
  | None => st
  | Some scheduledJob =>
      match executingJobs w !! jobId with
      | Some _ => st
      | None =>
          if sjNextRunAt scheduledJob <=? now then
            match rejected jobId with
            | Some m =>
                mkSweep w (jobsToExecute st) ((jobId, m) :: fetchErrors st)
            | None =>
                match jobRepository w !! jobId with
                | Some job =>
                    if decide (status job = ACTIVE)
                    then mkSweep (unscheduleJob jobId w)
                                 (jobsToExecute st ++ [job]) (fetchErrors st)
                    else st
                | None => st
                end
            end
          else st
      end
  end.

(** The first loop, over the keys of the index in the order it holds them,
    run with nothing else in between. *)
Definition sweepSelect (now : Z) (rejected : string -> option string)
    (order : list string) (w : World) : SweepState :=
  foldl (fun st jobId => sweepVisit now rejected jobId st)
        (mkSweep w [] []) order.

(** What makes the first loop select the job stored under [jobId]: the
    index has an entry for it that is due, the guard does not hold it, the
    query is answered, and the row it returns is ACTIVE. *)
Definition sweepDue (now : Z) (rejected : string -> option string)
    (w : World) (jobId : string) (job : Job) : Prop :=
  exists scheduledJob,
    scheduledJobs w !! jobId = Some scheduledJob
    /\ executingJobs w !! jobId = None
    /\ sjNextRunAt scheduledJob <= now
    /\ rejected jobId = None
    /\ jobRepository w !! jobId = Some job
    /\ status job = ACTIVE.

Definition concurrencyLimit : nat := 10.

(** The second loop: [jobsToExecute.slice(i, i + concurrencyLimit)] for
    [i] = 0, 10, 20, ... below the length; [fuel] bounds the turns. *)
Fixpoint batchesFrom (fuel i : nat) (jobs : list Job) : list (list Job) :=
  match fuel with
  | O => []
  | S fuel' =>
      if (i <? length jobs)%nat
      then take concurrencyLimit (drop i jobs)
           :: batchesFrom fuel' (i + concurrencyLimit) jobs
      else []
  end.

Definition batches (jobs : list Job) : list (list Job) :=
  batchesFrom (length jobs) 0 jobs.

(** [batch.map((job) => this.executeJob(job))]: each call runs its first
    stretch at once, in the order of the batch; the result is the tasks
    that [Promise.all] then waits for. *)
Fixpoint startBatch (tz : TimeZone) (now : Z) (batch : list Job) (w : World)
  : World * list Task :=
  match batch with
  | [] => (w, [])
  | job :: rest =>
      let (w1, pc) := stepTask tz job PStart (mkInput now None) w in
      let (w2, ts) := startBatch tz now rest w1 in
      (w2, mkTask job pc :: ts)
  end.

(** ** Start and stop of the module *)

Inductive ServiceMsg : Type := MsgInitialized | MsgDestroyed.

(** The service with what [World] does not hold: the handle and the pending
    timers of [setInterval], and the two messages of the life cycle. *)
Record Service : Type := mkService {
  svcWorld : World;
  intervalId : option nat;
  intervals : gset nat;
  nextIntervalId : nat;
  svcLogged : list ServiceMsg }.

(** [this.scheduledJobs.forEach((s) => clearTimeout(s.timeoutId))] *)
Definition clearAllTimeouts (w : World) : gmap nat Timer :=
  map_fold (fun _ scheduledJob t => delete (timeoutId scheduledJob) t)
           (timers w) (scheduledJobs w).

Definition onModuleDestroy (s : Service) : Service :=
  let w := svcWorld s in
  let w := setTimers (clearAllTimeouts w) (nextTimeoutId w) w in
  let w := setScheduledJobs empty w in
  let pending :=
    match intervalId s with
    | Some i => intervals s ∖ {[ i ]}
    | None => intervals s
    end in
  mkService w (intervalId s) pending (nextIntervalId s)
            (MsgDestroyed :: svcLogged s).

Definition startScheduler (s : Service) : Service :=
  let i := nextIntervalId s in
  mkService (svcWorld s) (Some i) ({[ i ]} ∪ intervals s) (S i) (svcLogged s).

Definition onModuleInit (tz : TimeZone) (inp : LoadInput) (s : Service)
  : Service :=
  let s := mkService (loadActiveJobs tz inp (svcWorld s)) (intervalId s)
                     (intervals s) (nextIntervalId s) (svcLogged s) in
  let s := startScheduler s in
  mkService (svcWorld s) (intervalId s) (intervals s) (nextIntervalId s)
            (MsgInitialized :: svcLogged s).

(** ** The jobs service: [JobsService] *)

Definition setStatus (v : JobStatus) (j : Job) : Job :=
  mkJob (id j) (name j) (type j) v (description j) (schedule j)
        (lastRunAt j) (nextRunAt j) (runCount j) (failureCount j) (lastError j).

(** How a call of the service ends. *)
Inductive ApiResult (A : Type) : Type :=
  | Resolved (a : A)
  | NotFoundException (message : string)
  | BadRequestException (message : string)
  | Failure (message : string).
Arguments Resolved {A} a.
Arguments NotFoundException {A} message.
Arguments BadRequestException {A} message.
Arguments Failure {A} message.

(** [findOne(id)]; [rejected] is the answer of the store when it fails. *)
Definition findOne (rejected : option string) (jobId : string) (w : World)
  : ApiResult Job :=
  match rejected with
  | Some m => Failure m
  | None =>
      match jobRepository w !! jobId with
      | Some job => Resolved job
      | None => NotFoundException ("Job with ID " +:+ jobId +:+ " not found")
      end
  end.

(** [pause(id)] *)
Definition pause (findRejected saveRejected : option string)
    (jobId : string) (w : World) : World * ApiResult Job :=
  match findOne findRejected jobId w with
  | Resolved job =>
      let job := setStatus PAUSED job in
      let w := unscheduleJob (id job) w in
      match saveRejected with
      | Some m => (w, Failure m)
      | None => (save job w, Resolved job)
      end
  | NotFoundException m => (w, NotFoundException m)
  | BadRequestException m => (w, BadRequestException m)
  | Failure m => (w, Failure m)
  end.

(** [resume(id)]; [calcNow] is the clock when the next run is computed,
    [schedNow] the clock when the job is scheduled. *)
Definition resume (tz : TimeZone)
    (findRejected saveRejected : option string)
    (calcNow schedNow : Z) (jobId : string) (w : World)
  : World * ApiResult Job :=
  match findOne findRejected jobId w with
  | Resolved job =>
      if decide (status job = PAUSED) then
        let job := setStatus ACTIVE job in
        match calculateNextRun tz calcNow (schedule job) with
        | Throw e => (w, Failure (errorMessage e (schedule job)))
        | OK next =>
            let job := setNextRunAt (Some next) job in
            match saveRejected with
            | Some m => (w, Failure m)
            | None =>
                match scheduleJob tz schedNow job (save job w) with
                | (w, Returned) => (w, Resolved job)
                | (w, Threw m) => (w, Failure m)
                end
            end
        end
      else (w, Resolved job)
  | NotFoundException m => (w, NotFoundException m)
  | BadRequestException m => (w, BadRequestException m)
  | Failure m => (w, Failure m)
  end.

(** [remove(id)] *)
Definition remove (findRejected removeRejected : option string)
    (jobId : string) (w : World) : World * ApiResult unit :=
  match findOne findRejected jobId w with
  | Resolved job =>
      let w := unscheduleJob (id job) w in
      match removeRejected with
      | Some m => (w, Failure m)
      | None =>
          (setJobRepository (delete (id job) (jobRepository w)) w, Resolved tt)
      end
  | NotFoundException m => (w, NotFoundException m)
  | BadRequestException m => (w, BadRequestException m)
  | Failure m => (w, Failure m)
  end.

(** [class CreateJobDto], without [metadata]. *)
Record CreateJobDto : Type := mkCreateJobDto {
  dtoName : string;
  dtoType : JobType;
  dtoDescription : option string;
  dtoSchedule : string }.

(** The entity that the first [save] of [create] returns: the fields of
    the request, the identity that the store generates, and the defaults of
    the columns. *)
Definition newJob (newId : string) (dto : CreateJobDto) : Job :=
  mkJob newId (dtoName dto) (dtoType dto) ACTIVE (dtoDescription dto)
        (dtoSchedule dto) None None 0 0 None.

Definition createFailed (m : string) : ApiResult Job :=
  BadRequestException ("Failed to create job: " +:+ m).

(** [create(createJobDto)]; [newId] is the identity the store generates. *)
Definition create (tz : TimeZone) (newId : string)
    (saveRejected1 saveRejected2 : option string) (calcNow schedNow : Z)
    (dto : CreateJobDto) (w : World) : World * ApiResult Job :=
  match saveRejected1 with
  | Some m => (w, createFailed m)
  | None =>
      let savedJob := newJob newId dto in
      let w := save savedJob w in
      match calculateNextRun tz calcNow (schedule savedJob) with
      | Throw e => (w, createFailed (errorMessage e (schedule savedJob)))
      | OK next =>
          let savedJob := setNextRunAt (Some next) savedJob in
          match saveRejected2 with
          | Some m => (w, createFailed m)
          | None =>
              match scheduleJob tz schedNow savedJob (save savedJob w) with
              | (w, Returned) => (w, Resolved savedJob)
              | (w, Threw m) => (w, createFailed m)
              end
          end
      end
  end.

(** ** More sample data *)

(** The store of [sampleWorld] with [sampleJob] in the index, due five
    minutes after the clock read 1000. *)
Definition scheduledWorld : World :=
  fst (scheduleJob 0 1000 sampleJob sampleWorld).

(** The service before [onModuleInit], over a given state. *)
Definition serviceOver (w : World) : Service := mkService w None empty 0 [].

(** * Properties *)

(** ** The calendar and the cron loop *)

(** The components of a time add up to it. *)
Lemma makeDate_floor l :
  makeDate (l / msPerDay)
           (makeTime ((l / msPerHour) mod 24) ((l / msPerMinute) mod 60) 0 0)
  = l - l mod msPerMinute.
Proof.
  unfold makeDate, makeTime, msPerDay, msPerHour, msPerMinute.
  assert (Hd : l / 86400000 = l / 3600000 / 24)
    by (rewrite Z.div_div by lia; reflexivity).
  assert (Hh : l / 3600000 = l / 60000 / 60)
    by (rewrite Z.div_div by lia; reflexivity).
  pose proof (Z.div_mod (l / 3600000) 24 ltac:(lia)) as H1.
  pose proof (Z.div_mod (l / 60000) 60 ltac:(lia)) as H2.
  pose proof (Z.div_mod l 60000 ltac:(lia)) as H3.
  rewrite <- Hd in H1. rewrite <- Hh in H2. lia.
Qed.

Lemma makeDate_minutes l m :
  makeDate (l / msPerDay)
           (makeTime ((l / msPerHour) mod 24) m ((l / 1000) mod 60)
                     (l mod 1000))
  = l + (m - (l / msPerMinute) mod 60) * msPerMinute.
Proof.
  unfold makeDate, makeTime, msPerDay, msPerHour, msPerMinute.
  assert (Hd : l / 86400000 = l / 3600000 / 24)
    by (rewrite Z.div_div by lia; reflexivity).
  assert (Hh : l / 3600000 = l / 60000 / 60)
    by (rewrite Z.div_div by lia; reflexivity).
  assert (Hm : l / 60000 = l / 1000 / 60)
    by (rewrite Z.div_div by lia; reflexivity).
  pose proof (Z.div_mod (l / 3600000) 24 ltac:(lia)) as H1.
  pose proof (Z.div_mod (l / 60000) 60 ltac:(lia)) as H2.
  pose proof (Z.div_mod (l / 1000) 60 ltac:(lia)) as H3.
  pose proof (Z.div_mod l 1000 ltac:(lia)) as H4.
  rewrite <- Hd in H1. rewrite <- Hh in H2. rewrite <- Hm in H3. lia.
Qed.

(** [setSeconds(0, 0)] clears the seconds of the local time, and
    [setMinutes(getMinutes() + 1)] adds a minute to it; the result is the
    instant to which the zone resolves that local time. *)
Lemma setSeconds00_local tz t :
  setSeconds00 tz t
  = utcTime tz (localTime tz t - localTime tz t mod msPerMinute).
Proof.
  unfold setSeconds00, localDay, getHours, getMinutes.
  rewrite makeDate_floor. reflexivity.
Qed.

Lemma nextMinute_local tz t :
  nextMinute tz t = utcTime tz (localTime tz t + msPerMinute).
Proof.
  unfold nextMinute, setMinutes, localDay, getHours, getMinutes, getSeconds,
    getMilliseconds.
  rewrite makeDate_minutes. f_equal. ring.
Qed.

(** In a zone at a fixed offset. *)
Lemma localTime_fixed (tz : Z) t : localTime tz t = t + tz * msPerMinute.
Proof. reflexivity. Qed.

Lemma utcTime_fixed (tz : Z) l : utcTime tz l = l - tz * msPerMinute.
Proof. reflexivity. Qed.

Lemma setMinutes_next (tz : Z) t :
  setMinutes tz (getMinutes tz t + 1) t = t + msPerMinute.
Proof.
  fold (nextMinute tz t). rewrite nextMinute_local, utcTime_fixed,
    localTime_fixed. ring.
Qed.

Lemma setSeconds00_fixed (tz : Z) from :
  setSeconds00 tz from = from - localTime tz from mod msPerMinute.
Proof.
  rewrite setSeconds00_local, utcTime_fixed, localTime_fixed. ring.
Qed.

(** [setSeconds(0, 0)] rounds down to a whole minute of the local time. *)
Lemma setSeconds00_truncates (tz : Z) from :
  localTime tz (setSeconds00 tz from) mod msPerMinute = 0
  /\ setSeconds00 tz from <= from < setSeconds00 tz from + msPerMinute.
Proof.
  rewrite setSeconds00_fixed, !localTime_fixed. unfold msPerMinute.
  pose proof (Z.mod_pos_bound (from + tz * 60000) 60000 eq_refl) as Hb.
  split; [| lia].
  replace (from - (from + tz * 60000) mod 60000 + tz * 60000)
    with ((from + tz * 60000) - (from + tz * 60000) mod 60000) by ring.
  rewrite Zminus_mod, Z.mod_mod, Z.sub_diag by lia. reflexivity.
Qed.

Lemma cronMatches_fields tz f t :
  cronMatches tz f t = true <->
  matchesCronField (cMinute f) (getMinutes tz t) = true
  /\ matchesCronField (cHour f) (getHours tz t) = true
  /\ matchesCronField (cDay f) (getDate tz t) = true
  /\ matchesCronField (cMonth f) (getMonth tz t + 1) = true
  /\ matchesCronField (cWeekday f) (getDay tz t) = true.
Proof.
  unfold cronMatches. rewrite !andb_true_iff. tauto.
Qed.

(** In any zone, the loop returns the first of the candidates [t],
    [nextMinute t], [nextMinute (nextMinute t)], ... that matches. *)
Lemma cronLoop_iter_Some tz f n : forall t r,
  cronLoop tz f n t = Some r <->
  exists k : nat,
    (k < n)%nat /\ r = Nat.iter k (nextMinute tz) t
    /\ cronMatches tz f r = true
    /\ forall j : nat, (j < k)%nat ->
         cronMatches tz f (Nat.iter j (nextMinute tz) t) = false.
Proof.
  induction n as [|n IH]; intros t r; cbn [cronLoop].
  - split; [discriminate | intros (k & Hk & _); lia].
  - destruct (cronMatches tz f t) eqn:Hm.
    + split.
      * intros [= <-]. exists 0%nat.
        split; [lia|]. split; [reflexivity|]. split; [exact Hm|].
        intros j Hj. lia.
      * intros (k & Hk & -> & Hr & Hfirst). destruct k as [|k];
          [reflexivity|].
        specialize (Hfirst 0%nat ltac:(lia)). cbn in Hfirst. congruence.
    + fold (nextMinute tz t). rewrite IH. split.
      * intros (k & Hk & -> & Hr & Hfirst). exists (S k).
        split; [lia|]. rewrite Nat.iter_succ_r.
        split; [reflexivity|]. split; [exact Hr|].
        intros [|j] Hj; [exact Hm|].
        rewrite Nat.iter_succ_r. apply Hfirst. lia.
      * intros (k & Hk & -> & Hr & Hfirst). destruct k as [|k].
        -- cbn in Hr. congruence.
        -- exists k. split; [lia|]. rewrite Nat.iter_succ_r in Hr |- *.
           split; [reflexivity|]. split; [exact Hr|].
           intros j Hj. specialize (Hfirst (S j) ltac:(lia)).
           rewrite Nat.iter_succ_r in Hfirst. exact Hfirst.
Qed.

Lemma cronLoop_iter_None tz f n : forall t,
  cronLoop tz f n t = None <->
  forall j : nat, (j < n)%nat ->
    cronMatches tz f (Nat.iter j (nextMinute tz) t) = false.
Proof.
  induction n as [|n IH]; intros t; cbn [cronLoop].
  - split; [intros _ j Hj; lia | reflexivity].
  - destruct (cronMatches tz f t) eqn:Hm.
    + split; [discriminate|]. intros H. specialize (H 0%nat ltac:(lia)).
      cbn in H. congruence.
    + fold (nextMinute tz t). rewrite IH. split.
      * intros H [|j] Hj; [exact Hm|].
        rewrite Nat.iter_succ_r. apply H. lia.
      * intros H j Hj. specialize (H (S j) ltac:(lia)).
        rewrite Nat.iter_succ_r in H. exact H.
Qed.

(** At a fixed offset the candidates are a minute apart. *)
Lemma nextMinute_iter_fixed (tz : Z) k : forall t,
  Nat.iter k (nextMinute tz) t = t + Z.of_nat k * msPerMinute.
Proof.
  induction k as [|k IH]; intros t.
  - cbn. lia.
  - rewrite Nat.iter_succ_r, IH. unfold nextMinute.
    rewrite setMinutes_next. lia.
Qed.

(** The loop returns the first of the candidates [t], [t + 1 min], ...
    that matches. *)
Lemma cronLoop_Some (tz : Z) f n : forall t r,
  cronLoop tz f n t = Some r <->
  exists k : nat,
    (k < n)%nat /\ r = t + Z.of_nat k * msPerMinute
    /\ cronMatches tz f r = true
    /\ forall j : nat, (j < k)%nat ->
         cronMatches tz f (t + Z.of_nat j * msPerMinute) = false.
Proof.
  intros t r. rewrite cronLoop_iter_Some.
  split; intros (k & Hk & Hr & Hm & Hfirst); exists k;
    (split; [exact Hk|]).
  - rewrite nextMinute_iter_fixed in Hr. split; [exact Hr|].
    split; [exact Hm|]. intros j Hj.
    rewrite <- (nextMinute_iter_fixed tz). apply Hfirst, Hj.
  - rewrite nextMinute_iter_fixed. split; [exact Hr|].
    split; [exact Hm|]. intros j Hj.
    rewrite nextMinute_iter_fixed. apply Hfirst, Hj.
Qed.

Lemma cronLoop_None (tz : Z) f n : forall t,
  cronLoop tz f n t = None <->
  forall j : nat, (j < n)%nat ->
    cronMatches tz f (t + Z.of_nat j * msPerMinute) = false.
Proof.
  intros t. rewrite cronLoop_iter_None.
  split; intros H j Hj.
  - rewrite <- (nextMinute_iter_fixed tz). apply H, Hj.
  - rewrite nextMinute_iter_fixed. apply H, Hj.
Qed.

(** A zone at a fixed offset sees what UTC sees, [tz] minutes later. *)
Lemma cronMatches_shift (tz : Z) f t :
  cronMatches tz f t = cronMatches 0 f (localTime tz t).
Proof.
  unfold cronMatches, getMinutes, getHours, getDate, getMonth, getDay,
    localDay.
  rewrite (localTime_fixed 0), Z.mul_0_l, Z.add_0_r. reflexivity.
Qed.

Lemma cronLoop_shift (tz : Z) f n : forall t,
  cronLoop tz f n t
  = option_map (fun r => r - tz * msPerMinute)
               (cronLoop 0 f n (localTime tz t)).
Proof.
  induction n as [|n IH]; intros t; cbn [cronLoop]; [reflexivity|].
  rewrite cronMatches_shift.
  destruct (cronMatches 0 f (localTime tz t)).
  - cbn. f_equal. rewrite localTime_fixed. ring.
  - rewrite !setMinutes_next, IH. f_equal. f_equal.
    rewrite !localTime_fixed. ring.
Qed.

Lemma calculateNextRunFromCron_shift (tz : Z) expr from :
  calculateNextRunFromCron tz expr from
  = match calculateNextRunFromCron 0 expr (localTime tz from) with
    | OK r => OK (r - tz * msPerMinute)
    | Throw e => Throw e
    end.
Proof.
  unfold calculateNextRunFromCron.
  destruct (cronParts expr) as [f|]; [|reflexivity].
  rewrite !setMinutes_next, cronLoop_shift.
  replace (localTime tz (setSeconds00 tz from + msPerMinute))
    with (setSeconds00 0 (localTime tz from) + msPerMinute).
  - destruct (cronLoop 0 f maxAttempts _); reflexivity.
  - rewrite !setSeconds00_fixed, !localTime_fixed.
    rewrite Z.mul_0_l, Z.add_0_r. ring.
Qed.

Lemma maxAttempts_value : Z.of_nat maxAttempts = 10080.
Proof. unfold maxAttempts. rewrite Z2Nat.id; lia. Qed.

(** The search of [calculateNextRunFromCron] in any zone: over the
    candidates that [nextMinute] reaches in 1 to [maxAttempts] steps from
    [start], the reference time with the seconds of its local time
    cleared. *)
Lemma cron_search_iter tz expr f from :
  cronParts expr = Some f ->
  (forall r,
      calculateNextRunFromCron tz expr from = OK r <->
      exists k : nat,
        (1 <= k <= maxAttempts)%nat
        /\ r = Nat.iter k (nextMinute tz) (setSeconds00 tz from)
        /\ cronMatches tz f r = true
        /\ forall j : nat, (1 <= j < k)%nat ->
             cronMatches tz f
               (Nat.iter j (nextMinute tz) (setSeconds00 tz from)) = false)
  /\ (forall e,
        calculateNextRunFromCron tz expr from = Throw e <->
        e = NoNextRunFound
        /\ forall k : nat, (1 <= k <= maxAttempts)%nat ->
             cronMatches tz f
               (Nat.iter k (nextMinute tz) (setSeconds00 tz from)) = false).
Proof.
  intros Hp. unfold calculateNextRunFromCron. rewrite Hp.
  fold (nextMinute tz (setSeconds00 tz from)).
  generalize maxAttempts. intros n.
  set (start := setSeconds00 tz from).
  destruct (cronLoop tz f n (nextMinute tz start)) as [r'|] eqn:Hl.
  - apply cronLoop_iter_Some in Hl as (k & Hk & -> & Hr & Hfirst).
    rewrite <- Nat.iter_succ_r in Hr.
    split.
    + intros r. rewrite <- Nat.iter_succ_r. split.
      * intros [= <-]. exists (S k).
        split; [lia|]. split; [reflexivity|]. split; [exact Hr|].
        intros [|j] Hj; [lia|]. rewrite Nat.iter_succ_r.
        apply Hfirst. lia.
      * intros (k' & Hk' & -> & Hr' & Hfirst'). f_equal.
        destruct (Nat.lt_trichotomy (S k) k') as [Hlt | [<- | Hgt]];
          [| reflexivity |].
        -- specialize (Hfirst' (S k) ltac:(lia)). congruence.
        -- destruct k' as [|k']; [lia|].
           specialize (Hfirst k' ltac:(lia)).
           rewrite <- Nat.iter_succ_r in Hfirst. congruence.
    + intros e. split; [discriminate|]. intros [_ Hnone].
      specialize (Hnone (S k) ltac:(lia)). congruence.
  - rewrite cronLoop_iter_None in Hl. split.
    + intros r. split; [discriminate|].
      intros (k' & Hk' & -> & Hr' & _). destruct k' as [|k']; [lia|].
      specialize (Hl k' ltac:(lia)).
      rewrite <- Nat.iter_succ_r in Hl. congruence.
    + intros e. split.
      * intros [= <-]. split; [reflexivity|]. intros [|k] Hk; [lia|].
        rewrite Nat.iter_succ_r. apply Hl. lia.
      * intros [-> _]. reflexivity.
Qed.

(** The search of [calculateNextRunFromCron] at a fixed offset, over the
    candidates [start + k] minutes for [k] from 1 to 10080, where [start]
    is [from] with its seconds and milliseconds cleared. *)
Lemma cron_search_OK (tz : Z) expr f from r :
  cronParts expr = Some f ->
  (calculateNextRunFromCron tz expr from = OK r <->
   exists k : Z,
     1 <= k <= 10080
     /\ r = setSeconds00 tz from + k * msPerMinute
     /\ cronMatches tz f r = true
     /\ forall j : Z, 1 <= j < k ->
          cronMatches tz f (setSeconds00 tz from + j * msPerMinute) = false).
Proof.
  intros Hp. unfold calculateNextRunFromCron. rewrite Hp, setMinutes_next.
  pose proof maxAttempts_value as Hmax. revert Hmax.
  generalize maxAttempts. intros n Hmax.
  set (start := setSeconds00 tz from) in *.
  destruct (cronLoop tz f n (start + msPerMinute)) as [r'|] eqn:Hl.
  - apply cronLoop_Some in Hl as (k & Hk & -> & Hr & Hfirst).
    unfold msPerMinute in *. split.
    + intros [= <-]. exists (Z.of_nat k + 1).
      split; [lia|]. split; [lia|]. split; [exact Hr|].
      intros j Hj.
      replace (start + j * 60000)
        with (start + 60000 + Z.of_nat (Z.to_nat (j - 1)) * 60000)
        by lia.
      apply Hfirst. lia.
    + intros (k' & Hk' & -> & Hr' & Hfirst'). f_equal.
      destruct (Z.lt_trichotomy (Z.of_nat k + 1) k') as [Hlt | [Heq | Hgt]].
      * specialize (Hfirst' (Z.of_nat k + 1) ltac:(lia)).
        replace (start + (Z.of_nat k + 1) * 60000)
          with (start + 60000 + Z.of_nat k * 60000) in Hfirst' by lia.
        congruence.
      * lia.
      * specialize (Hfirst (Z.to_nat (k' - 1)) ltac:(lia)).
        replace (start + 60000 + Z.of_nat (Z.to_nat (k' - 1)) * 60000)
          with (start + k' * 60000) in Hfirst by lia.
        congruence.
  - split; [discriminate|].
    intros (k' & Hk' & -> & Hr' & _).
    rewrite cronLoop_None in Hl. unfold msPerMinute in *.
    specialize (Hl (Z.to_nat (k' - 1)) ltac:(lia)).
    replace (start + 60000 + Z.of_nat (Z.to_nat (k' - 1)) * 60000)
      with (start + k' * 60000) in Hl by lia.
    congruence.
Qed.

Lemma cron_search_Throw (tz : Z) expr f from e :
  cronParts expr = Some f ->
  (calculateNextRunFromCron tz expr from = Throw e <->
   e = NoNextRunFound
   /\ forall k : Z, 1 <= k <= 10080 ->
        cronMatches tz f (setSeconds00 tz from + k * msPerMinute) = false).
Proof.
  intros Hp. unfold calculateNextRunFromCron. rewrite Hp, setMinutes_next.
  pose proof maxAttempts_value as Hmax. revert Hmax.
  generalize maxAttempts. intros n Hmax.
  set (start := setSeconds00 tz from) in *.
  destruct (cronLoop tz f n (start + msPerMinute)) as [r'|] eqn:Hl.
  - split; [discriminate|]. intros [_ Hnone].
    apply cronLoop_Some in Hl as (k & Hk & -> & Hr & _).
    unfold msPerMinute in *.
    specialize (Hnone (Z.of_nat k + 1) ltac:(lia)).
    replace (start + (Z.of_nat k + 1) * 60000)
      with (start + 60000 + Z.of_nat k * 60000) in Hnone by lia.
    congruence.
  - rewrite cronLoop_None in Hl. unfold msPerMinute in *. split.
    + intros [= <-]. split; [reflexivity|]. intros k Hk.
      specialize (Hl (Z.to_nat (k - 1)) ltac:(lia)).
      replace (start + 60000 + Z.of_nat (Z.to_nat (k - 1)) * 60000)
        with (start + k * 60000) in Hl by lia.
      exact Hl.
    + intros [-> _]. reflexivity.
Qed.

(** Daily at nine, asked at ten on the first of January 2024, in UTC. *)
Lemma daily_at_nine_utc :
  calculateNextRunFromCron 0 "0 9 * * *" (localInstant 0 2024 1 1 10 0 0)
  = OK (localInstant 0 2024 1 2 9 0 0).
Proof. vm_compute. reflexivity. Qed.

Lemma localInstant_local (tz : Z) y mo d h mi s :
  localTime tz (localInstant tz y mo d h mi s) = localInstant 0 y mo d h mi s.
Proof.
  unfold localInstant. rewrite !utcTime_fixed, localTime_fixed. ring.
Qed.

Lemma daily_at_nine (tz : Z) :
  calculateNextRun tz (localInstant tz 2024 1 1 10 0 0) "0 9 * * *"
  = OK (localInstant tz 2024 1 2 9 0 0).
Proof.
  unfold calculateNextRun.
  replace (startsWithPT "0 9 * * *") with false by reflexivity.
  rewrite calculateNextRunFromCron_shift, localInstant_local.
  rewrite daily_at_nine_utc.
  f_equal; unfold localInstant; rewrite ?utcTime_fixed; ring.
Qed.

(** C3 (as the code has it): for a schedule of five fields,
    [calculateNextRunFromCron] clears the seconds of the local time of the
    reference time and then moves the local time on minute by minute, each
    local time being resolved to an instant by the rules of the zone; it
    returns the first of these candidates whose minute, hour, day of month,
    month and day of week all satisfy their field, and when none of the
    10080 candidates does, it fails with the error classified as
    [NoFeasibleRun].  In a zone at a fixed offset the candidates are the
    instants a minute apart that follow the reference time rounded down to
    the minute, and the next run of "0 9 * * *" asked at
    2024-01-01T10:00:00 is 2024-01-02T09:00:00. *)
Theorem C3_cron_first_match :
  (forall (tz : TimeZone) expr f from,
      cronParts expr = Some f ->
      let start := setSeconds00 tz from in
      let candidate (k : nat) := Nat.iter k (nextMinute tz) start in
      start = utcTime tz (localTime tz from - localTime tz from mod msPerMinute)
      /\ (forall t, nextMinute tz t = utcTime tz (localTime tz t + msPerMinute))
      /\ (forall r,
            calculateNextRunFromCron tz expr from = OK r <->
            exists k : nat,
              (1 <= k <= maxAttempts)%nat
              /\ r = candidate k
              /\ (matchesCronField (cMinute f) (getMinutes tz r) = true
                  /\ matchesCronField (cHour f) (getHours tz r) = true
                  /\ matchesCronField (cDay f) (getDate tz r) = true
                  /\ matchesCronField (cMonth f) (getMonth tz r + 1) = true
                  /\ matchesCronField (cWeekday f) (getDay tz r) = true)
              /\ forall j : nat, (1 <= j < k)%nat ->
                   cronMatches tz f (candidate j) = false)
      /\ (forall e,
            calculateNextRunFromCron tz expr from = Throw e <->
            e = NoNextRunFound
            /\ forall k : nat, (1 <= k <= maxAttempts)%nat ->
                 cronMatches tz f (candidate k) = false)
      /\ Z.of_nat maxAttempts = 10080
      /\ errorKind NoNextRunFound = NoFeasibleRun)
  /\ (forall (offset : Z) from,
        let start := setSeconds00 offset from in
        localTime offset start mod msPerMinute = 0
        /\ start <= from < start + msPerMinute
        /\ forall k : nat,
             Nat.iter k (nextMinute offset) start
             = start + Z.of_nat k * msPerMinute)
  /\ (forall offset : Z,
        calculateNextRun offset (localInstant offset 2024 1 1 10 0 0)
                         "0 9 * * *"
        = OK (localInstant offset 2024 1 2 9 0 0)).
Proof.
  split; [| split; [| exact daily_at_nine]].
  - intros tz expr f from Hp start candidate.
    destruct (cron_search_iter tz expr f from Hp) as [Hok Hthrow].
    split; [apply setSeconds00_local|].
    split; [apply nextMinute_local|].
    split; [| split; [exact Hthrow | split;
                        [exact maxAttempts_value | reflexivity]]].
    intros r. rewrite (Hok r).
    split; intros (k & Hk & Hr & Hm & Hfirst); exists k;
      (split; [exact Hk|]; split; [exact Hr|]; split; [| exact Hfirst]);
      apply cronMatches_fields; exact Hm.
  - intros offset from start.
    destruct (setSeconds00_truncates offset from) as [Hw Hb].
    split; [exact Hw|]. split; [exact Hb|].
    intros k. apply nextMinute_iter_fixed.
Qed.

Lemma C3_cron_first_match_witness :
  cronParts "*/5 * * * *" = Some (mkCron "*/5" "*" "*" "*" "*")
  /\ forall r,
       calculateNextRunFromCron newYork "*/5 * * * *" 1704067200000 = OK r <->
       exists k : nat,
         (1 <= k <= maxAttempts)%nat
         /\ r = Nat.iter k (nextMinute newYork)
                  (setSeconds00 newYork 1704067200000)
         /\ (matchesCronField "*/5" (getMinutes newYork r) = true
             /\ matchesCronField "*" (getHours newYork r) = true
             /\ matchesCronField "*" (getDate newYork r) = true
             /\ matchesCronField "*" (getMonth newYork r + 1) = true
             /\ matchesCronField "*" (getDay newYork r) = true)
         /\ forall j : nat, (1 <= j < k)%nat ->
              cronMatches newYork (mkCron "*/5" "*" "*" "*" "*")
                (Nat.iter j (nextMinute newYork)
                   (setSeconds00 newYork 1704067200000)) = false.
Proof.
  split; [reflexivity|].
  exact (proj1 (proj2 (proj2 (proj1 C3_cron_first_match newYork "*/5 * * * *"
                                 (mkCron "*/5" "*" "*" "*" "*") 1704067200000
                                 eq_refl)))).
Defined.

(** C3, as stated, fails in a zone with daylight-saving time.  In New York,
    at 06:30:30 UTC on 3 November 2024 (01:30:30 for the second time that
    night), the search does not start from the reference time rounded down
    to the minute but an hour before it, and "* * * * *" is given a next
    run that lies 59 and a half minutes before the reference time; and the
    candidate after 05:59 UTC (01:59) is 07:00 UTC (02:00), 61 minutes
    later, so that "30 1 * * *" asked at 05:59:00 UTC, half an hour before
    the second 01:30 of that night, is given the 01:30 of the next day. *)
Lemma C3_dst_counterexample :
  setSeconds00 newYork (utcInstant 2024 11 3 6 30 30)
  = utcInstant 2024 11 3 5 30 0
  /\ ~ (setSeconds00 newYork (utcInstant 2024 11 3 6 30 30)
        <= utcInstant 2024 11 3 6 30 30
        < setSeconds00 newYork (utcInstant 2024 11 3 6 30 30) + msPerMinute)
  /\ calculateNextRun newYork (utcInstant 2024 11 3 6 30 30) "* * * * *"
     = OK (utcInstant 2024 11 3 5 31 0)
  /\ utcInstant 2024 11 3 5 31 0 = utcInstant 2024 11 3 6 30 30 - 3570000
  /\ nextMinute newYork (utcInstant 2024 11 3 5 59 0)
     = utcInstant 2024 11 3 5 59 0 + 61 * msPerMinute
  /\ calculateNextRun newYork (utcInstant 2024 11 3 5 59 0) "30 1 * * *"
     = OK (utcInstant 2024 11 4 6 30 0).
Proof.
  split; [vm_compute; reflexivity|].
  split; [vm_compute; intros [_ H]; discriminate H|].
  split; [vm_compute; reflexivity|]. split; [vm_compute; reflexivity|].
  split; vm_compute; reflexivity.
Qed.

(** ** Digits and [parseInt] *)

Lemma isDigit_digitVal c : isDigit c = true -> 0 <= digitVal c <= 9.
Proof.
  unfold isDigit, digitVal. intros H.
  apply andb_true_iff in H as [H1 H2].
  apply Nat.leb_le in H1, H2. lia.
Qed.

Lemma isDigit_not_space c : isDigit c = true -> isSpace c = false.
Proof.
  unfold isDigit, isSpace. intros H.
  apply andb_true_iff in H as [H1 H2].
  apply Nat.leb_le in H1, H2.
  repeat (apply orb_false_iff; split).
  - apply andb_false_iff. right. apply Nat.leb_gt. lia.
  - apply Nat.eqb_neq. lia.
  - apply Nat.eqb_neq. lia.
Qed.

Lemma digitsValue_nonneg s : forall acc,
  allDigits s = true -> 0 <= acc -> 0 <= digitsValue acc s.
Proof.
  induction s as [|c s IH]; intros acc Hd Hacc; simpl in *; [exact Hacc|].
  apply andb_true_iff in Hd as [Hc Hs].
  apply IH; [exact Hs|]. pose proof (isDigit_digitVal c Hc). lia.
Qed.

Lemma takeDigits_all s : allDigits s = true -> takeDigits s = (s, EmptyString).
Proof.
  induction s as [|c s IH]; simpl; [reflexivity|].
  intros H. apply andb_true_iff in H as [Hc Hs].
  rewrite Hc, (IH Hs). reflexivity.
Qed.

Lemma takeDigits_digits s : allDigits (fst (takeDigits s)) = true.
Proof.
  induction s as [|c s IH]; simpl; [reflexivity|].
  destruct (isDigit c) eqn:Hc; [|reflexivity].
  destruct (takeDigits s) as [d r]. simpl in *. rewrite Hc, IH. reflexivity.
Qed.

Lemma takeDigits_append s : s = fst (takeDigits s) +:+ snd (takeDigits s).
Proof.
  induction s as [|c s IH]; simpl; [reflexivity|].
  destruct (isDigit c); [|reflexivity].
  destruct (takeDigits s) as [d r]. simpl in *. change (String c s = String c (d +:+ r)). f_equal. exact IH.
Qed.

(** On a capture of [(\d+)], [parseInt] is the decimal value. *)
Lemma parseInt_digits ds :
  isNumber ds = true -> parseInt ds = Some (digitsValue 0 ds).
Proof.
  unfold isNumber. intros H. apply andb_true_iff in H as [Hne Hall].
  destruct ds as [|c ds]; [discriminate|].
  pose proof Hall as Hall'. simpl in Hall'.
  apply andb_true_iff in Hall' as [Hc _].
  unfold parseInt.
  assert (Ht : trimStart (String c ds) = String c ds).
  { simpl. rewrite (isDigit_not_space c Hc). reflexivity. }
  rewrite Ht.
  assert (Hsign : (match String c ds with
                   | String "-" r => (-1, r)
                   | String "+" r => (1, r)
                   | _ => (1, String c ds)
                   end) = (1, String c ds)).
  { destruct c as [[] [] [] [] [] [] [] []]; try reflexivity; discriminate Hc. }
  rewrite Hsign, (takeDigits_all _ Hall). simpl isEmpty. cbv iota.
  f_equal. lia.
Qed.

Lemma groupValue_digits ds :
  isNumber ds = true -> groupValue (Some ds) = digitsValue 0 ds.
Proof. intros H. unfold groupValue. simpl. rewrite (parseInt_digits ds H). reflexivity. Qed.

Lemma groupValue_None : groupValue None = 0.
Proof. reflexivity. Qed.

Lemma optComponent_capture u s ds r :
  optComponent u s = (Some ds, r) -> isNumber ds = true.
Proof.
  unfold optComponent. pose proof (takeDigits_digits s) as Hd.
  destruct (takeDigits s) as [d r0]. simpl in Hd.
  destruct d as [|c d]; [discriminate|].
  destruct r0 as [|c0 r0]; [discriminate|].
  destruct (Ascii.eqb c0 u); [|discriminate].
  intros [= <- <-]. unfold isNumber. simpl isEmpty. simpl negb.
  rewrite Hd. reflexivity.
Qed.

Lemma optComponent_nonneg u s :
  0 <= groupValue (fst (optComponent u s)).
Proof.
  destruct (optComponent u s) as [[ds|] r] eqn:H; simpl.
  - pose proof (optComponent_capture u s ds r H) as Hn.
    rewrite (groupValue_digits ds Hn).
    apply digitsValue_nonneg; [|lia].
    unfold isNumber in Hn. apply andb_true_iff in Hn as [_ Hn]. exact Hn.
  - rewrite groupValue_None. lia.
Qed.

(** ** Interval schedules *)

(** From [calculateNextRun] the regular expression always matches, at the
    start of the string: the throw of "Invalid interval format" is never
    taken. *)
Lemma searchPT_startsWith s :
  startsWithPT s = true -> exists r, s = String "P" (String "T" r) /\ searchPT s = Some r.
Proof.
  destruct s as [|c [|c' r]]; try discriminate.
  - simpl. destruct c as [[] [] [] [] [] [] [] []]; discriminate.
  - unfold startsWithPT. intros H.
    assert (c = "P"%char /\ c' = "T"%char) as [-> ->].
    { destruct c as [[] [] [] [] [] [] [] []]; try discriminate H;
      destruct c' as [[] [] [] [] [] [] [] []]; try discriminate H; auto. }
    exists r. split; reflexivity.
Qed.

(** What [calculateNextRunFromInterval] decodes and returns. *)
Lemma interval_result s from :
  startsWithPT s = true ->
  exists h m sec rest,
    matchInterval s = Some (h, m, sec, rest)
    /\ 0 <= groupValue h /\ 0 <= groupValue m /\ 0 <= groupValue sec
    /\ let totalMs := groupValue h * 3600000 + groupValue m * 60000
                      + groupValue sec * 1000 in
       calculateNextRunFromInterval s from
       = if totalMs =? 0 then Throw IntervalNotPositive else OK (from + totalMs).
Proof.
  intros Hs. destruct (searchPT_startsWith s Hs) as (r0 & -> & Hsearch).
  unfold calculateNextRunFromInterval, matchInterval. rewrite Hsearch.
  pose proof (optComponent_nonneg "H" r0) as Hh.
  destruct (optComponent "H" r0) as [h r1].
  pose proof (optComponent_nonneg "M" r1) as Hm.
  destruct (optComponent "M" r1) as [m r2].
  pose proof (optComponent_nonneg "S" r2) as Hsec.
  destruct (optComponent "S" r2) as [sec r3].
  exists h, m, sec, r3. simpl in *. repeat split; assumption.
Qed.


(** C4: the interval pattern is searched for, not matched against the whole
    schedule, so text after the last component the pattern can read is
    ignored: "PT5Mjunk" is taken as five minutes and "PT1S5M" as one second,
    although neither is [PT] followed by optional [<n>H], [<n>M], [<n>S] in
    that order. *)
Theorem C4_interval_ignores_trailing_text (tz : TimeZone) (from : Z) :
  (startsWithPT "PT5Mjunk" = true
   /\ specIntervalFormat "PT5Mjunk" = false
   /\ calculateNextRun tz from "PT5Mjunk" = OK (from + 300000))
  /\ (startsWithPT "PT1S5M" = true
      /\ specIntervalFormat "PT1S5M" = false
      /\ calculateNextRun tz from "PT1S5M" = OK (from + 1000))
  /\ (specIntervalFormat "PT1H" = true
      /\ calculateNextRun tz from "PT1H" = OK (from + 3600000))
  /\ (specIntervalFormat "PT0S" = true
      /\ calculateNextRun tz from "PT0S" = Throw IntervalNotPositive
      /\ errorKind IntervalNotPositive = InvalidSchedule).
Proof. repeat split; reflexivity. Qed.

(** ** Cron fields *)

Lemma isDigit_not_comma c : isDigit c = true -> Ascii.eqb c "," = false.
Proof.
  destruct c as [[] [] [] [] [] [] [] []]; try reflexivity; discriminate.
Qed.

Lemma allDigits_no_comma s : allDigits s = true -> includesComma s = false.
Proof.
  induction s as [|c s IH]; simpl; [reflexivity|].
  intros H. apply andb_true_iff in H as [Hc Hs].
  rewrite (isDigit_not_comma c Hc), (IH Hs). reflexivity.
Qed.

Lemma includesComma_append a b :
  includesComma (a +:+ b) = includesComma a || includesComma b.
Proof.
  induction a as [|c a IH]; simpl; [reflexivity|].
  rewrite IH, orb_assoc. reflexivity.
Qed.

Lemma matchStep_no_comma field ds :
  matchStep field = Some ds -> includesComma field = false.
Proof.
  unfold matchStep.
  destruct field as [|c [|c' ds']]; try discriminate.
  - destruct c as [[] [] [] [] [] [] [] []]; discriminate.
  - destruct c as [[] [] [] [] [] [] [] []]; try discriminate;
    destruct c' as [[] [] [] [] [] [] [] []]; try discriminate.
    destruct (isNumber ds') eqn:Hn; [|discriminate]. intros _.
    unfold isNumber in Hn. apply andb_true_iff in Hn as [_ Hn].
    simpl. exact (allDigits_no_comma ds' Hn).
Qed.

Lemma matchRange_no_comma field a b :
  matchRange field = Some (a, b) -> includesComma field = false.
Proof.
  unfold matchRange. intros H.
  rewrite (takeDigits_append field), includesComma_append.
  pose proof (takeDigits_digits field) as Hd.
  destruct (takeDigits field) as [d r]. simpl in *.
  rewrite (allDigits_no_comma d Hd). simpl.
  destruct d as [|c d]; [discriminate|].
  destruct r as [|c0 r]; [discriminate|].
  destruct c0 as [[] [] [] [] [] [] [] []]; try discriminate.
  destruct (isNumber r) eqn:Hn; [|discriminate].
  unfold isNumber in Hn. apply andb_true_iff in Hn as [_ Hn].
  simpl. exact (allDigits_no_comma r Hn).
Qed.

(** A field with a comma always reaches the list branch. *)
Lemma includesComma_list field :
  includesComma field = true -> fieldSyntax field = SynList.
Proof.
  intros Hc. unfold fieldSyntax.
  destruct (String.eqb field "*") eqn:Hstar.
  { apply String.eqb_eq in Hstar. subst. discriminate. }
  destruct (matchStep field) as [ds|] eqn:Hstep.
  { rewrite (matchStep_no_comma field ds Hstep) in Hc. discriminate. }
  destruct (isNumber field) eqn:Hnum.
  { unfold isNumber in Hnum. apply andb_true_iff in Hnum as [_ Hnum].
    rewrite (allDigits_no_comma field Hnum) in Hc. discriminate. }
  destruct (matchRange field) as [[a b]|] eqn:Hrange.
  { rewrite (matchRange_no_comma field a b Hrange) in Hc. discriminate. }
  rewrite Hc. reflexivity.
Qed.

Lemma matchesCronField_other field v :
  fieldSyntax field = SynOther -> matchesCronField field v = false.
Proof.
  unfold fieldSyntax, matchesCronField.
  destruct (String.eqb field "*"); [discriminate|].
  destruct (matchStep field); [discriminate|].
  destruct (isNumber field); [discriminate|].
  destruct (matchRange field) as [[a b]|]; [discriminate|].
  destruct (includesComma field); [discriminate|]. reflexivity.
Qed.

(** The list branch: membership among the values [parseInt] reads off the
    elements; an element it cannot read ([NaN]) equals no value. *)
Lemma matchesCronField_list field v :
  fieldSyntax field = SynList ->
  (matchesCronField field v = true <->
   exists tok, In tok (splitComma field) /\ parseInt (trim tok) = Some v).
Proof.
  unfold fieldSyntax, matchesCronField.
  destruct (String.eqb field "*"); [discriminate|].
  destruct (matchStep field); [discriminate|].
  destruct (isNumber field); [discriminate|].
  destruct (matchRange field) as [[a b]|]; [discriminate|].
  destruct (includesComma field); [|discriminate]. intros _.
  rewrite existsb_exists. split.
  - intros (x & Hin & Hx). apply in_map_iff in Hin as (tok & <- & Hin).
    exists tok. split; [exact Hin|].
    destruct (parseInt (trim tok)) as [n|]; [|discriminate].
    apply Z.eqb_eq in Hx. subst. reflexivity.
  - intros (tok & Hin & Hp). exists (Some v). split.
    + apply in_map_iff. exists tok. split; [exact Hp | exact Hin].
    + apply Z.eqb_refl.
Qed.

Lemma cron_unrecognised_field tz expr f from :
  cronParts expr = Some f ->
  fieldSyntax (cMinute f) = SynOther \/ fieldSyntax (cHour f) = SynOther
  \/ fieldSyntax (cDay f) = SynOther \/ fieldSyntax (cMonth f) = SynOther
  \/ fieldSyntax (cWeekday f) = SynOther ->
  calculateNextRunFromCron tz expr from = Throw NoNextRunFound.
Proof.
  intros Hp Hother. apply (proj2 (cron_search_iter tz expr f from Hp)).
  split; [reflexivity|]. intros k _. unfold cronMatches.
  destruct Hother as [H | [H | [H | [H | H]]]];
    rewrite (matchesCronField_other _ _ H);
    rewrite ?andb_false_r; reflexivity.
Qed.

(** C5 (as the code has it): a field that is none of [*], [*/n], a bare
    integer, [a-b] or a comma list matches no value, so that [nextRun] runs
    out of candidates and fails with the error classified as
    [NoFeasibleRun]; a field with a comma is always read as a list, and
    matches a value exactly when [parseInt] reads that value off one of its
    comma-separated elements, the elements it cannot read being passed
    over. *)
Theorem C5_field_matcher_lenient (tz : TimeZone) :
  (forall field v, fieldSyntax field = SynOther ->
     matchesCronField field v = false)
  /\ (forall expr f from,
        startsWithPT expr = false ->
        cronParts expr = Some f ->
        fieldSyntax (cMinute f) = SynOther \/ fieldSyntax (cHour f) = SynOther
        \/ fieldSyntax (cDay f) = SynOther \/ fieldSyntax (cMonth f) = SynOther
        \/ fieldSyntax (cWeekday f) = SynOther ->
        calculateNextRun tz from expr = Throw NoNextRunFound
        /\ errorKind NoNextRunFound = NoFeasibleRun)
  /\ (forall field v,
        includesComma field = true ->
        fieldSyntax field = SynList
        /\ (matchesCronField field v = true <->
            exists tok,
              In tok (splitComma field) /\ parseInt (trim tok) = Some v)).
Proof.
  split; [exact matchesCronField_other|]. split.
  - intros expr f from Hpt Hp Hother. split; [|reflexivity].
    unfold calculateNextRun. rewrite Hpt.
    exact (cron_unrecognised_field tz expr f from Hp Hother).
  - intros field v Hc. pose proof (includesComma_list field Hc) as Hl.
    split; [exact Hl|]. exact (matchesCronField_list field v Hl).
Qed.

Lemma C5_field_matcher_lenient_witness :
  matchesCronField "7x" 7 = false
  /\ (calculateNextRun 0 0 "abc * * * *" = Throw NoNextRunFound
      /\ errorKind NoNextRunFound = NoFeasibleRun)
  /\ (matchesCronField "1,x" 1 = true <->
      exists tok, In tok (splitComma "1,x") /\ parseInt (trim tok) = Some 1).
Proof.
  split; [| split].
  - apply (proj1 (C5_field_matcher_lenient 0)). reflexivity.
  - apply (proj1 (proj2 (C5_field_matcher_lenient 0))
             "abc * * * *" (mkCron "abc" "*" "*" "*" "*") 0).
    + reflexivity.
    + reflexivity.
    + left. reflexivity.
  - apply (proj2 (proj2 (C5_field_matcher_lenient 0)) "1,x" 1). reflexivity.
Defined.

(** C5, as stated, fails: the list "1,x" has an element that is no number
    and still matches the value 1, and a schedule with that field is given
    a next run; a field of unknown syntax makes [nextRun] fail with the
    error classified as [NoFeasibleRun], not [InvalidSchedule]. *)
Lemma C5_partial_match_counterexample :
  (In "x" (splitComma "1,x") /\ parseInt (trim "x") = None
   /\ matchesCronField "1,x" 1 = true
   /\ calculateNextRun 0 0 "1,x * * * *" = OK 60000)
  /\ (fieldSyntax "abc" = SynOther
      /\ calculateNextRun 0 0 "abc * * * *" = Throw NoNextRunFound
      /\ errorKind NoNextRunFound <> InvalidSchedule).
Proof.
  split.
  - split; [right; left; reflexivity|].
    split; [reflexivity|]. split; [reflexivity|].
    vm_compute. reflexivity.
  - split; [reflexivity|]. split; [vm_compute; reflexivity|]. discriminate.
Qed.

(** ** Due times lie in the future *)





(** ** The due-time index *)

Lemma unscheduleJob_absent x w :
  scheduledJobs w !! x = None -> unscheduleJob x w = w.
Proof. intros H. unfold unscheduleJob. rewrite H. reflexivity. Qed.

Lemma unscheduleJob_present x w sj :
  scheduledJobs w !! x = Some sj ->
  scheduledJobs (unscheduleJob x w) = delete x (scheduledJobs w)
  /\ timers (unscheduleJob x w) = delete (timeoutId sj) (timers w)
  /\ nextTimeoutId (unscheduleJob x w) = nextTimeoutId w.
Proof. intros H. unfold unscheduleJob. rewrite H. simpl. auto. Qed.

Lemma unscheduleJob_lookup x w : scheduledJobs (unscheduleJob x w) !! x = None.
Proof.
  destruct (scheduledJobs w !! x) as [sj|] eqn:H.
  - destruct (unscheduleJob_present x w sj H) as [-> _]. apply lookup_delete_eq.
  - rewrite (unscheduleJob_absent x w H). exact H.
Qed.

Lemma unscheduleJob_idempotent x w :
  unscheduleJob x (unscheduleJob x w) = unscheduleJob x w.
Proof. apply unscheduleJob_absent, unscheduleJob_lookup. Qed.

Lemma unscheduleJob_frame x w :
  executingJobs (unscheduleJob x w) = executingJobs w
  /\ jobRepository (unscheduleJob x w) = jobRepository w
  /\ executed (unscheduleJob x w) = executed w.
Proof. unfold unscheduleJob. destruct (scheduledJobs w !! x); simpl; auto. Qed.

Lemma indexInv_timer_owner w x y sjx sjy :
  indexInv w ->
  scheduledJobs w !! x = Some sjx -> scheduledJobs w !! y = Some sjy ->
  timeoutId sjx = timeoutId sjy -> x = y.
Proof.
  intros (H1 & _ & _) Hx Hy Heq.
  destruct (H1 x sjx Hx) as (_ & tx & Htx & <-).
  destruct (H1 y sjy Hy) as (_ & ty & Hty & <-).
  rewrite Heq in Htx. congruence.
Qed.

Lemma unscheduleJob_indexInv x w : indexInv w -> indexInv (unscheduleJob x w).
Proof.
  intros Hinv. destruct (scheduledJobs w !! x) as [sj|] eqn:Hx.
  2: { rewrite (unscheduleJob_absent x w Hx). exact Hinv. }
  destruct (unscheduleJob_present x w sj Hx) as (Es & Et & En).
  pose proof Hinv as (H1 & H2 & H3).
  unfold indexInv. rewrite Es, Et, En. split; [|split].
  - intros y sjy Hy. apply lookup_delete_Some in Hy as [Hne Hy].
    destruct (H1 y sjy Hy) as (Hid & t & Ht & Hown). split; [exact Hid|].
    exists t. split; [|exact Hown].
    rewrite lookup_delete_ne; [exact Ht|].
    intros Heq. apply Hne. exact (indexInv_timer_owner w x y sj sjy Hinv Hx Hy Heq).
  - intros tid t Ht. apply lookup_delete_Some in Ht as [Hne Ht].
    destruct (H2 tid t Ht) as (sj' & Hsj' & Htid). exists sj'.
    split; [|exact Htid].
    rewrite lookup_delete_ne; [exact Hsj'|].
    intros Heq. apply Hne. rewrite <- Heq in Hsj'. congruence.
  - intros tid [t Ht]. apply lookup_delete_Some in Ht as [_ Ht]. apply H3. eauto.
Qed.

(** What [scheduleJob] does for an active job whose due time is [t]. *)
Lemma scheduleJob_active tz now job w t :
  status job = ACTIVE -> dueTime tz now job = OK t ->
  let w1 := unscheduleJob (id job) w in
  let tid := nextTimeoutId w1 in
  exists w',
    scheduleJob tz now job w = (w', Returned)
    /\ scheduledJobs w'
       = <[id job := mkScheduled (id job) t tid]> (scheduledJobs w1)
    /\ timers w' = <[tid := mkTimer job (Z.max 0 (t - now))]> (timers w1)
    /\ nextTimeoutId w' = S tid
    /\ executingJobs w' = executingJobs w
    /\ jobRepository w' = jobRepository w
    /\ executed w' = executed w.
Proof.
  intros Hst Hdue. unfold scheduleJob, dueTime in *.
  destruct (decide (status job = ACTIVE)) as [_|Hn]; [|contradiction].
  rewrite Hdue. cbv zeta. eexists. split; [reflexivity|]. simpl.
  destruct (unscheduleJob_frame (id job) w) as (-> & -> & ->). auto 10.
Qed.

Lemma scheduleJob_inactive tz now job w :
  status job <> ACTIVE -> scheduleJob tz now job w = (w, Returned).
Proof.
  intros Hst. unfold scheduleJob.
  destruct (decide (status job = ACTIVE)); [contradiction | reflexivity].
Qed.

Lemma scheduleJob_frame tz now job w :
  executingJobs (fst (scheduleJob tz now job w)) = executingJobs w
  /\ jobRepository (fst (scheduleJob tz now job w)) = jobRepository w
  /\ executed (fst (scheduleJob tz now job w)) = executed w.
Proof.
  unfold scheduleJob.
  destruct (decide (status job = ACTIVE)); [|simpl; auto].
  destruct (match nextRunAt job with
            | Some t => OK t
            | None => calculateNextRun tz now (schedule job)
            end); simpl; apply unscheduleJob_frame.
Qed.

Lemma scheduleJob_indexInv tz now job w :
  indexInv w -> indexInv (fst (scheduleJob tz now job w)).
Proof.
  intros Hinv. destruct (decide (status job = ACTIVE)) as [Hst|Hst].
  2: { rewrite (scheduleJob_inactive tz now job w Hst). exact Hinv. }
  pose proof (unscheduleJob_indexInv (id job) w Hinv) as Hinv1.
  pose proof (unscheduleJob_lookup (id job) w) as Hfree.
  destruct (dueTime tz now job) as [t|e] eqn:Hdue.
  2: { unfold scheduleJob, dueTime in *.
       destruct (decide (status job = ACTIVE)); [|contradiction].
       rewrite Hdue. exact Hinv1. }
  destruct (scheduleJob_active tz now job w t Hst Hdue)
    as (w' & -> & Es & Et & En & _).
  simpl fst. set (w1 := unscheduleJob (id job) w) in *.
  destruct Hinv1 as (H1 & H2 & H3).
  assert (Hfresh : timers w1 !! nextTimeoutId w1 = None).
  { destruct (timers w1 !! nextTimeoutId w1) eqn:E; [|reflexivity].
    specialize (H3 (nextTimeoutId w1) ltac:(eauto)). lia. }
  unfold indexInv. rewrite Es, Et, En. split; [|split].
  - intros y sjy Hy. apply lookup_insert_Some in Hy as [[<- <-] | [Hne Hy]].
    + simpl. split; [reflexivity|]. eexists. rewrite lookup_insert_eq.
      split; reflexivity.
    + destruct (H1 y sjy Hy) as (Hid & t' & Ht' & Hown). split; [exact Hid|].
      exists t'. split; [|exact Hown].
      rewrite lookup_insert_ne; [exact Ht'|]. intros Heq.
      rewrite <- Heq in Ht'. congruence.
  - intros tid t' Ht'. apply lookup_insert_Some in Ht' as [[<- <-] | [Hne Ht']].
    + simpl. eexists. rewrite lookup_insert_eq. split; reflexivity.
    + destruct (H2 tid t' Ht') as (sj & Hsj & Htid). exists sj.
      split; [|exact Htid].
      rewrite lookup_insert_ne; [exact Hsj|]. intros Heq.
      rewrite <- Heq in Hsj. congruence.
  - intros tid [t' Ht']. apply lookup_insert_Some in Ht' as [[<- _] | [_ Ht']].
    + lia.
    + specialize (H3 tid ltac:(eauto)). lia.
Qed.

Lemma fireTimer_indexInv tid w : indexInv w -> indexInv (fst (fireTimer tid w)).
Proof.
  intros Hinv. unfold fireTimer.
  destruct (timers w !! tid) as [t|] eqn:Ht; [|exact Hinv].
  simpl. pose proof Hinv as (H1 & H2 & H3).
  destruct (H2 tid t Ht) as (sj & Hsj & Htid).
  unfold indexInv. simpl. split; [|split].
  - intros y sjy Hy. apply lookup_delete_Some in Hy as [Hne Hy].
    destruct (H1 y sjy Hy) as (Hid & t' & Ht' & Hown). split; [exact Hid|].
    exists t'. split; [|exact Hown].
    rewrite lookup_delete_ne; [exact Ht'|]. intros Heq. apply Hne.
    apply (indexInv_timer_owner w _ _ sj sjy Hinv Hsj Hy). congruence.
  - intros tid' t' Ht'. apply lookup_delete_Some in Ht' as [Hne Ht'].
    destruct (H2 tid' t' Ht') as (sj' & Hsj' & Htid'). exists sj'.
    split; [|exact Htid'].
    rewrite lookup_delete_ne; [exact Hsj'|]. intros Heq. apply Hne.
    rewrite <- Heq in Hsj'. congruence.
  - intros tid' [t' Ht']. apply lookup_delete_Some in Ht' as [_ Ht'].
    apply H3. eauto.
Qed.

Lemma unscheduleJob_nextTimeoutId x w :
  nextTimeoutId (unscheduleJob x w) = nextTimeoutId w.
Proof. unfold unscheduleJob. destruct (scheduledJobs w !! x); reflexivity. Qed.

Lemma unscheduleJob_scheduledJobs x w :
  scheduledJobs (unscheduleJob x w) = delete x (scheduledJobs w).
Proof.
  destruct (scheduledJobs w !! x) as [sj|] eqn:H.
  - exact (proj1 (unscheduleJob_present x w sj H)).
  - rewrite (unscheduleJob_absent x w H). symmetry. apply delete_id. exact H.
Qed.

Lemma indexInv_empty : indexInv emptyWorld.
Proof.
  unfold indexInv, emptyWorld. simpl. split; [|split].
  - intros x sj H. rewrite lookup_empty in H. discriminate.
  - intros tid t H. rewrite lookup_empty in H. discriminate.
  - intros tid [t H]. rewrite lookup_empty in H. discriminate.
Qed.

Lemma indexInv_one_timer w tid1 tid2 t1 t2 :
  indexInv w ->
  timers w !! tid1 = Some t1 -> timers w !! tid2 = Some t2 ->
  id (timerJob t1) = id (timerJob t2) -> tid1 = tid2.
Proof.
  intros (_ & H2 & _) Ht1 Ht2 Heq.
  destruct (H2 tid1 t1 Ht1) as (sj1 & Hsj1 & <-).
  destruct (H2 tid2 t2 Ht2) as (sj2 & Hsj2 & <-).
  rewrite Heq in Hsj1. congruence.
Qed.

(** C7: the due-time index has one entry per identity, with one pending
    timeout each.  [scheduleJob] does nothing for a job that is not active;
    for an active job it cancels the entry of the identity, if there is
    one, and installs one entry whose timeout has the delay
    [max(0, nextDueAt - now)]; [unscheduleJob] cancels and removes the entry
    of the identity when there is one and does nothing otherwise, so a
    second [unscheduleJob] changes nothing. *)
Theorem C7_one_entry_per_identity (tz : TimeZone) (now : Z) (job : Job)
    (w : World) :
  (status job <> ACTIVE -> scheduleJob tz now job w = (w, Returned))
  /\ (forall t,
        status job = ACTIVE -> dueTime tz now job = OK t ->
        exists w',
          scheduleJob tz now job w = (w', Returned)
          /\ scheduledJobs w'
             = <[id job := mkScheduled (id job) t (nextTimeoutId w)]>
                 (scheduledJobs w)
          /\ timers w'
             = <[nextTimeoutId w := mkTimer job (Z.max 0 (t - now))]>
                 (timers (unscheduleJob (id job) w))
          /\ (forall old, scheduledJobs w !! id job = Some old ->
                timers (unscheduleJob (id job) w)
                = delete (timeoutId old) (timers w)))
  /\ (forall x,
        (scheduledJobs w !! x = None -> unscheduleJob x w = w)
        /\ (forall sj, scheduledJobs w !! x = Some sj ->
              scheduledJobs (unscheduleJob x w) = delete x (scheduledJobs w)
              /\ timers (unscheduleJob x w) = delete (timeoutId sj) (timers w))
        /\ unscheduleJob x (unscheduleJob x w) = unscheduleJob x w)
  /\ (indexInv w ->
        indexInv (fst (scheduleJob tz now job w))
        /\ (forall x, indexInv (unscheduleJob x w))
        /\ (forall tid, indexInv (fst (fireTimer tid w)))
        /\ (forall tid1 tid2 t1 t2,
              timers w !! tid1 = Some t1 -> timers w !! tid2 = Some t2 ->
              id (timerJob t1) = id (timerJob t2) -> tid1 = tid2))
  /\ indexInv emptyWorld.
Proof.
  split; [apply scheduleJob_inactive|]. split; [|split; [|split]].
  - intros t Hst Hdue.
    destruct (scheduleJob_active tz now job w t Hst Hdue)
      as (w' & Hs & Es & Et & _).
    exists w'. split; [exact Hs|].
    rewrite unscheduleJob_nextTimeoutId in Es, Et.
    rewrite unscheduleJob_scheduledJobs, insert_delete_eq in Es.
    split; [exact Es|]. split; [exact Et|].
    intros old Hold. exact (proj1 (proj2 (unscheduleJob_present _ w old Hold))).
  - intros x. split; [apply unscheduleJob_absent|].
    split; [|apply unscheduleJob_idempotent].
    intros sj Hsj. destruct (unscheduleJob_present x w sj Hsj) as (E1 & E2 & _).
    auto.
  - intros Hinv. split; [apply scheduleJob_indexInv; exact Hinv|].
    split; [intros x; apply unscheduleJob_indexInv; exact Hinv|].
    split; [intros tid; apply fireTimer_indexInv; exact Hinv|].
    intros tid1 tid2 t1 t2. apply indexInv_one_timer. exact Hinv.
  - exact indexInv_empty.
Qed.

Lemma C7_one_entry_per_identity_witness :
  exists w',
    scheduleJob 0 1000 sampleJob emptyWorld = (w', Returned)
    /\ scheduledJobs w'
       = <[id sampleJob := mkScheduled (id sampleJob) 301000
                                       (nextTimeoutId emptyWorld)]>
           (scheduledJobs emptyWorld)
    /\ timers w'
       = <[nextTimeoutId emptyWorld
             := mkTimer sampleJob (Z.max 0 (301000 - 1000))]>
           (timers (unscheduleJob (id sampleJob) emptyWorld))
    /\ (forall old, scheduledJobs emptyWorld !! id sampleJob = Some old ->
          timers (unscheduleJob (id sampleJob) emptyWorld)
          = delete (timeoutId old) (timers emptyWorld)).
Proof.
  apply (proj1 (proj2 (C7_one_entry_per_identity 0 1000 sampleJob emptyWorld))
           301000).
  - reflexivity.
  - reflexivity.
Defined.

(** ** The dispatcher, one stretch at a time *)

Lemma scheduleJob_result tz now job w :
  exists w' o,
    scheduleJob tz now job w = (w', o)
    /\ executingJobs w' = executingJobs w
    /\ jobRepository w' = jobRepository w
    /\ executed w' = executed w.
Proof.
  pose proof (scheduleJob_frame tz now job w) as H.
  destruct (scheduleJob tz now job w) as [w' o]. exists w', o. auto.
Qed.

(** What a stretch does to the guard. *)
Lemma stepTask_guard tz job pc i w :
  let w' := fst (stepTask tz job pc i w) in
  let pc' := snd (stepTask tz job pc i w) in
  match pc with
  | PStart =>
      (is_Some (executingJobs w !! id job)
       /\ pc' = PDone Returned /\ executingJobs w' = executingJobs w)
      \/ (executingJobs w !! id job = None
          /\ pc' = PFindOne
          /\ executingJobs w'
             = <[id job := mkExecuting (id job) (now i)]> (executingJobs w))
  | PDone o => w' = w /\ pc' = PDone o
  | _ =>
      (inFlight pc' = true /\ executingJobs w' = executingJobs w)
      \/ (isDone pc' = true
          /\ executingJobs w' = delete (id job) (executingJobs w))
  end.
Proof.
  destruct pc; simpl.
  - destruct (executingJobs w !! id job) eqn:E; simpl; [left | right]; eauto.
  - destruct (rejected i); simpl; [left; auto|].
    destruct (jobRepository w !! id job) as [fresh|]; simpl.
    + destruct (decide (status fresh = ACTIVE)); simpl; [left; auto|].
      right. split; [reflexivity|]. apply delete_delete_eq.
    + right. split; [reflexivity|]. apply delete_delete_eq.
  - destruct (rejected i); simpl; [left; auto|].
    destruct (calculateNextRun tz (now i) (schedule freshJob)); simpl;
      left; auto.
  - destruct (rejected i); simpl; [left; auto|].
    destruct (scheduleJob_result tz (now i) freshJob (save freshJob w))
      as (w2 & o & -> & Hg & _).
    destruct o; simpl; left; auto.
  - right. auto.
  - destruct (rejected i); simpl; [right; auto|].
    destruct (jobRepository w !! id job); simpl; [left | right]; auto.
  - destruct (rejected i); simpl; [right | left]; auto.
  - destruct (rejected i); simpl; [right; auto|].
    destruct (scheduleJob_result tz (now i) freshJob (save freshJob w))
      as (w2 & o & -> & Hg & _).
    destruct o; simpl; [left | right]; rewrite Hg; auto.
  - right. auto.
  - auto.
Qed.

(** Each stretch brings the task closer to its end. *)
Lemma stepTask_rank tz job pc i w :
  isDone pc = false ->
  (rank (snd (stepTask tz job pc i w)) < rank pc)%nat.
Proof.
  destruct pc; simpl; intros Hd; try discriminate.
  - destruct (executingJobs w !! id job); simpl; lia.
  - destruct (rejected i); simpl; [lia|].
    destruct (jobRepository w !! id job) as [fresh|]; simpl; [|lia].
    destruct (decide (status fresh = ACTIVE)); simpl; lia.
  - destruct (rejected i); simpl; [lia|].
    destruct (calculateNextRun tz (now i) (schedule freshJob)); simpl; lia.
  - destruct (rejected i); simpl; [lia|].
    destruct (scheduleJob tz (now i) freshJob (save freshJob w)) as [w2 [|m]];
      simpl; lia.
  - lia.
  - destruct (rejected i); simpl; [lia|].
    destruct (jobRepository w !! id job); simpl; lia.
  - destruct (rejected i); simpl; lia.
  - destruct (rejected i); simpl; [lia|].
    destruct (scheduleJob tz (now i) freshJob (save freshJob w)) as [w2 [|m]];
      simpl; lia.
  - lia.
Qed.

Lemma runTask_done_pc tz job o ins w :
  runTask tz job (PDone o) ins w = (w, PDone o).
Proof. destruct ins; reflexivity. Qed.

Lemma inFlight_not_done pc : inFlight pc = true -> isDone pc = false.
Proof. destruct pc; simpl; congruence. Qed.

Lemma isDone_PDone pc : isDone pc = true -> exists o, pc = PDone o.
Proof. destruct pc; simpl; try discriminate. eauto. Qed.

(** A task in flight that is resumed often enough ends, and its end
    releases the guard. *)
Lemma runTask_releases tz job ins : forall pc w,
  inFlight pc = true -> (rank pc <= length ins)%nat ->
  exists w' o,
    runTask tz job pc ins w = (w', PDone o)
    /\ executingJobs w' = delete (id job) (executingJobs w).
Proof.
  induction ins as [|i ins IH]; intros pc w Hfl Hlen.
  - destruct pc; simpl in *; try discriminate; lia.
  - simpl. rewrite (inFlight_not_done pc Hfl).
    pose proof (stepTask_guard tz job pc i w) as Hg.
    pose proof (stepTask_rank tz job pc i w (inFlight_not_done pc Hfl)) as Hr.
    destruct (stepTask tz job pc i w) as [w1 pc1]. simpl in *.
    assert (Hcases : (inFlight pc1 = true /\ executingJobs w1 = executingJobs w)
                     \/ (isDone pc1 = true
                         /\ executingJobs w1 = delete (id job) (executingJobs w))).
    { destruct pc; simpl in Hfl; try discriminate; exact Hg. }
    destruct Hcases as [[Hfl1 Hsame] | [Hdone Hdel]].
    + destruct (IH pc1 w1 Hfl1 ltac:(lia)) as (w' & o & Hrun & Hrel).
      exists w', o. split; [exact Hrun|]. rewrite Hrel, Hsame. reflexivity.
    + destruct (isDone_PDone pc1 Hdone) as [o ->].
      exists w1, o. split; [apply runTask_done_pc | exact Hdel].
Qed.

(** ** Several tasks at once *)

Lemma guardInv_initial s : initial s -> guardInv s.
Proof.
  intros [Hg Ht]. unfold guardInv. rewrite Hg, Ht. split.
  - intros x. rewrite lookup_empty. split.
    + intros [e He]. discriminate.
    + intros (k & t & Hk & _). rewrite lookup_nil in Hk. discriminate.
  - intros k1 k2 t1 t2 Hk. rewrite lookup_nil in Hk. discriminate.
Qed.

Lemma guardInv_dispatch s job :
  guardInv s -> guardInv (mkSystem (world s) (tasks s ++ [mkTask job PStart])).
Proof.
  intros [H1 H2]. unfold guardInv. simpl. split.
  - intros x. rewrite H1. split.
    + intros (k & t & Hk & Hx & Hfl). exists k, t.
      split; [apply lookup_app_l_Some; exact Hk | auto].
    + intros (k & t & Hk & Hx & Hfl). apply lookup_snoc_Some in Hk
        as [[_ Hk] | [_ <-]]; [eauto | discriminate].
  - intros k1 k2 t1 t2 Hk1 Hk2 Hf1 Hf2.
    apply lookup_snoc_Some in Hk1 as [[_ Hk1] | [_ <-]]; [|discriminate].
    apply lookup_snoc_Some in Hk2 as [[_ Hk2] | [_ <-]]; [|discriminate].
    exact (H2 k1 k2 t1 t2 Hk1 Hk2 Hf1 Hf2).
Qed.

(** A task that takes a step from [pc] to [pc'] without changing whether it
    is in flight leaves the invariant in place, if the guard is the same. *)
Lemma guardInv_resume_same s k t pc' w' :
  guardInv s -> tasks s !! k = Some t ->
  inFlight pc' = inFlight (taskPc t) ->
  executingJobs w' = executingJobs (world s) ->
  guardInv (mkSystem w' (<[k := mkTask (taskJob t) pc']> (tasks s))).
Proof.
  intros [H1 H2] Hk Hfl Hg. unfold guardInv. simpl. rewrite Hg. split.
  - intros x. rewrite H1. split.
    + intros (j & u & Hj & Hx & Hf). destruct (decide (k = j)) as [<-|Hne].
      * exists k, (mkTask (taskJob t) pc'). split.
        -- apply list_lookup_insert_eq. eapply lookup_lt_Some; eauto.
        -- simpl. rewrite Hfl. split; congruence.
      * exists j, u. rewrite list_lookup_insert_ne by exact Hne. auto.
    + intros (j & u & Hj & Hx & Hf).
      apply list_lookup_insert_Some in Hj as [(<- & <- & _) | [Hne Hj]].
      * exists k, t. simpl in *. rewrite <- Hfl. auto.
      * eauto.
  - intros k1 k2 t1 t2 Hk1 Hk2 Hf1 Hf2 Hid.
    assert (Hold : forall j u, <[k := mkTask (taskJob t) pc']> (tasks s) !! j = Some u ->
              inFlight (taskPc u) = true ->
              exists u', tasks s !! j = Some u' /\ inFlight (taskPc u') = true
                         /\ id (taskJob u') = id (taskJob u)).
    { intros j u Hj Hf.
      apply list_lookup_insert_Some in Hj as [(<- & <- & _) | [Hne Hj]].
      - exists t. simpl in *. rewrite <- Hfl. auto.
      - eauto. }
    destruct (Hold k1 t1 Hk1 Hf1) as (u1 & Hu1 & Hfu1 & Hi1).
    destruct (Hold k2 t2 Hk2 Hf2) as (u2 & Hu2 & Hfu2 & Hi2).
    apply (H2 k1 k2 u1 u2 Hu1 Hu2 Hfu1 Hfu2). congruence.
Qed.

Lemma guardInv_enter s k t e :
  guardInv s -> tasks s !! k = Some t ->
  taskPc t = PStart ->
  executingJobs (world s) !! id (taskJob t) = None ->
  forall w',
    executingJobs w' = <[id (taskJob t) := e]> (executingJobs (world s)) ->
    guardInv (mkSystem w' (<[k := mkTask (taskJob t) PFindOne]> (tasks s))).
Proof.
  intros [H1 H2] Hk Hpc Hfree w' Hg. unfold guardInv. simpl. rewrite Hg.
  assert (Hnone : forall j u, tasks s !! j = Some u ->
            inFlight (taskPc u) = true -> id (taskJob u) <> id (taskJob t)).
  { intros j u Hj Hf Heq.
    assert (is_Some (executingJobs (world s) !! id (taskJob t))) as [e' He'].
    { apply H1. exists j, u. auto. }
    congruence. }
  split.
  - intros x. rewrite lookup_insert_is_Some'. rewrite H1. split.
    + intros [<- | (j & u & Hj & Hx & Hf)].
      * exists k, (mkTask (taskJob t) PFindOne). split.
        -- apply list_lookup_insert_eq. eapply lookup_lt_Some; eauto.
        -- auto.
      * exists j, u. split; [|auto].
        rewrite list_lookup_insert_ne; [exact Hj|].
        intros <-. rewrite Hk in Hj. injection Hj as <-.
        rewrite Hpc in Hf. discriminate.
    + intros (j & u & Hj & Hx & Hf).
      apply list_lookup_insert_Some in Hj as [(<- & <- & _) | [Hne Hj]].
      * left. exact Hx.
      * right. eauto.
  - intros k1 k2 t1 t2 Hk1 Hk2 Hf1 Hf2 Hid.
    apply list_lookup_insert_Some in Hk1 as [(<- & <- & _) | [Hne1 Hk1]];
    apply list_lookup_insert_Some in Hk2 as [(<- & <- & _) | [Hne2 Hk2]].
    + reflexivity.
    + exfalso. apply (Hnone k2 t2 Hk2 Hf2). simpl in Hid. congruence.
    + exfalso. apply (Hnone k1 t1 Hk1 Hf1). simpl in Hid. congruence.
    + exact (H2 k1 k2 t1 t2 Hk1 Hk2 Hf1 Hf2 Hid).
Qed.

Lemma guardInv_leave s k t o :
  guardInv s -> tasks s !! k = Some t ->
  inFlight (taskPc t) = true ->
  forall w',
    executingJobs w' = delete (id (taskJob t)) (executingJobs (world s)) ->
    guardInv (mkSystem w' (<[k := mkTask (taskJob t) (PDone o)]> (tasks s))).
Proof.
  intros [H1 H2] Hk Hfl w' Hg. unfold guardInv. simpl. rewrite Hg. split.
  - intros x. rewrite lookup_delete_is_Some, H1. split.
    + intros (Hne & j & u & Hj & Hx & Hf). exists j, u. split; [|auto].
      rewrite list_lookup_insert_ne; [exact Hj|].
      intros <-. rewrite Hk in Hj. injection Hj as <-. congruence.
    + intros (j & u & Hj & Hx & Hf).
      apply list_lookup_insert_Some in Hj as [(<- & <- & _) | [Hne Hj]];
        [discriminate|].
      split; [|eauto]. intros Heq. apply Hne.
      apply (H2 k j t u Hk Hj Hfl Hf). congruence.
  - intros k1 k2 t1 t2 Hk1 Hk2 Hf1 Hf2 Hid.
    apply list_lookup_insert_Some in Hk1 as [(<- & <- & _) | [Hne1 Hk1]];
      [discriminate|].
    apply list_lookup_insert_Some in Hk2 as [(<- & <- & _) | [Hne2 Hk2]];
      [discriminate|].
    exact (H2 k1 k2 t1 t2 Hk1 Hk2 Hf1 Hf2 Hid).
Qed.

(** A task in flight either stays in flight, with the guard as it was, or
    ends and gives up its entry. *)
Ltac resume_in_flight Hgd Hpc :=
  destruct Hgd as [[Hfl Hsame] | [Hdone Hdel]];
  [ apply guardInv_resume_same; auto; rewrite Hpc; exact Hfl
  | let o := fresh "o" in
    destruct (isDone_PDone _ Hdone) as [o ->];
    apply guardInv_leave; auto; rewrite Hpc; reflexivity ].

Lemma guardInv_step tz s s' : guardInv s -> sysStep tz s s' -> guardInv s'.
Proof.
  intros Hinv Hstep. destruct Hstep as [s job | s k t i w' pc' Hk Hs | s w' Hg].
  - apply guardInv_dispatch. exact Hinv.
  - pose proof (stepTask_guard tz (taskJob t) (taskPc t) i (world s)) as Hgd.
    rewrite Hs in Hgd. simpl in Hgd.
    destruct (taskPc t) eqn:Hpc; try (resume_in_flight Hgd Hpc).
    + destruct Hgd as [(Hsome & -> & Hsame) | (Hnone & -> & Hins)].
      * apply guardInv_resume_same; auto. rewrite Hpc. reflexivity.
      * eapply guardInv_enter; eauto.
    + destruct Hgd as [-> ->].
      replace (<[k := mkTask (taskJob t) (PDone o)]> (tasks s)) with (tasks s).
      * destruct s; exact Hinv.
      * symmetry. apply list_insert_id. rewrite Hk. f_equal.
        destruct t; simpl in *. congruence.
  - destruct Hinv as [H1 H2]. unfold guardInv. simpl. rewrite Hg. auto.
Qed.

Lemma reachable_guardInv tz s : reachable tz s -> guardInv s.
Proof.
  induction 1 as [s Hinit | s s' _ IH Hstep].
  - exact (guardInv_initial s Hinit).
  - exact (guardInv_step tz s s' IH Hstep).
Qed.

(** ** The paths through [executeJob] *)

Lemma runTask_cons tz job pc i ins w :
  isDone pc = false ->
  runTask tz job pc (i :: ins) w
  = runTask tz job (snd (stepTask tz job pc i w)) ins
            (fst (stepTask tz job pc i w)).
Proof.
  intros H. cbn [runTask]. rewrite H.
  destruct (stepTask tz job pc i w). reflexivity.
Qed.

(** With a due time on the job, [scheduleJob] does not ask the calculator
    and does not throw, whatever the schedule string is. *)
Lemma scheduleJob_with_due tz now job w t :
  nextRunAt job = Some t ->
  exists w2,
    scheduleJob tz now job w = (w2, Returned)
    /\ executingJobs w2 = executingJobs w
    /\ jobRepository w2 = jobRepository w
    /\ executed w2 = executed w
    /\ (status job = ACTIVE ->
        scheduledJobs w2 !! id job
        = Some (mkScheduled (id job) t (nextTimeoutId w))
        /\ timers w2 !! nextTimeoutId w
           = Some (mkTimer job (Z.max 0 (t - now))))
    /\ (status job <> ACTIVE ->
        scheduledJobs w2 = scheduledJobs w /\ timers w2 = timers w).
Proof.
  intros Hdue. destruct (decide (status job = ACTIVE)) as [Hst|Hst].
  - assert (Hd : dueTime tz now job = OK t) by (unfold dueTime; rewrite Hdue; reflexivity).
    destruct (scheduleJob_active tz now job w t Hst Hd)
      as (w2 & Hs & Es & Et & _ & Hg & Hr & He).
    exists w2. rewrite unscheduleJob_nextTimeoutId in Es, Et.
    repeat (split; [assumption|]). split; [|contradiction].
    intros _. rewrite Es, Et, !lookup_insert_eq. auto.
  - exists w. rewrite (scheduleJob_inactive tz now job w Hst).
    repeat (split; [reflexivity|]). split; [contradiction | auto].
Qed.

(** The [catch] block, when the store answers: from the entry of the block
    to the end of the call. *)
Lemma failure_path tz job msg stored i2 i3 i4 i5 w :
  jobRepository w !! id job = Some stored -> id stored = id job ->
  rejected i2 = None -> rejected i3 = None -> rejected i4 = None ->
  let failed := setLastError (Some msg)
                  (setFailureCount (failureCount stored + 1) stored) in
  let due := now i3 + backoffDelay (failureCount stored + 1) in
  let final := setNextRunAt (Some due) failed in
  exists w',
    runTask tz job (PCatchFindOne msg) [i2; i3; i4; i5] w = (w', PDone Returned)
    /\ jobRepository w' = <[id job := final]> (jobRepository w)
    /\ executingJobs w' = delete (id job) (executingJobs w)
    /\ executed w' = executed w
    /\ (status stored = ACTIVE ->
        scheduledJobs w' !! id job
        = Some (mkScheduled (id job) due (nextTimeoutId w))
        /\ timers w' !! nextTimeoutId w
           = Some (mkTimer final (Z.max 0 (due - now i4))))
    /\ (status stored <> ACTIVE ->
        scheduledJobs w' = scheduledJobs w /\ timers w' = timers w).
Proof.
  intros Hst Hid H2 H3 H4 failed due final.
  rewrite runTask_cons by reflexivity.
  assert (E1 : stepTask tz job (PCatchFindOne msg) i2 w = (w, PCatchSave1 failed)).
  { simpl. rewrite H2, Hst. reflexivity. }
  rewrite E1. cbn [fst snd].
  rewrite runTask_cons by reflexivity.
  assert (E2 : stepTask tz job (PCatchSave1 failed) i3 w
               = (save failed w, PCatchSave2 final)).
  { simpl. rewrite H3. reflexivity. }
  rewrite E2. cbn [fst snd].
  rewrite runTask_cons by reflexivity.
  destruct (scheduleJob_with_due tz (now i4) final (save final (save failed w)) due
              eq_refl) as (w2 & Hs & Hg & Hr & He & Hact & Hinact).
  assert (E3 : stepTask tz job (PCatchSave2 final) i4 (save failed w)
               = (w2, PCatchReschedule)).
  { cbn [stepTask]. rewrite H4, Hs. reflexivity. }
  rewrite E3. cbn [fst snd].
  rewrite runTask_cons by reflexivity. cbn [stepTask finish fst snd runTask].
  eexists. split; [reflexivity|]. simpl.
  rewrite Hr, Hg, He. simpl.
  rewrite Hid, insert_insert_eq.
  split; [reflexivity|]. split; [reflexivity|]. split; [reflexivity|].
  change (id final) with (id stored) in Hact. rewrite Hid in Hact.
  exact (conj Hact Hinact).
Qed.

(** The [try] block, when the job is active, the executor succeeds, the
    schedule has a next run and the store answers. *)
Lemma success_path tz job stored i1 i2 i3 i4 next w :
  jobRepository w !! id job = Some stored -> id stored = id job ->
  status stored = ACTIVE ->
  rejected i1 = None -> rejected i2 = None -> rejected i3 = None ->
  calculateNextRun tz (now i2) (schedule stored) = OK next ->
  let final :=
    mkJob (id stored) (name stored) (type stored) (status stored)
          (description stored) (schedule stored)
          (Some (now i1)) (Some next) (runCount stored + 1)
          (failureCount stored) None in
  exists w',
    runTask tz job PFindOne [i1; i2; i3; i4] w = (w', PDone Returned)
    /\ jobRepository w' = <[id job := final]> (jobRepository w)
    /\ executingJobs w' = delete (id job) (executingJobs w)
    /\ executed w'
       = setRunCount (runCount stored + 1)
           (setLastRunAt (Some (now i1)) stored) :: executed w
    /\ scheduledJobs w' !! id job
       = Some (mkScheduled (id job) next (nextTimeoutId w))
    /\ timers w' !! nextTimeoutId w
       = Some (mkTimer final (Z.max 0 (next - now i3))).
Proof.
  intros Hst Hid Hact H1 H2 H3 Hnext final.
  set (fresh1 := setRunCount (runCount stored + 1)
                   (setLastRunAt (Some (now i1)) stored)).
  rewrite runTask_cons by reflexivity.
  assert (E1 : stepTask tz job PFindOne i1 w
               = (recordExecute fresh1 w, PExecute fresh1)).
  { simpl. rewrite H1, Hst.
    destruct (decide (status stored = ACTIVE)); [reflexivity | contradiction]. }
  rewrite E1. cbn [fst snd].
  rewrite runTask_cons by reflexivity.
  assert (E2 : stepTask tz job (PExecute fresh1) i2 (recordExecute fresh1 w)
               = (recordExecute fresh1 w, PSave final next)).
  { cbn [stepTask]. rewrite H2.
    change (schedule fresh1) with (schedule stored). rewrite Hnext.
    reflexivity. }
  rewrite E2. cbn [fst snd].
  rewrite runTask_cons by reflexivity.
  destruct (scheduleJob_with_due tz (now i3) final
              (save final (recordExecute fresh1 w)) next eq_refl)
    as (w2 & Hs & Hg & Hr & He & Hsched & _).
  assert (E3 : stepTask tz job (PSave final next) i3 (recordExecute fresh1 w)
               = (w2, PReschedule final next)).
  { cbn [stepTask]. rewrite H3, Hs. reflexivity. }
  rewrite E3. cbn [fst snd].
  rewrite runTask_cons by reflexivity. cbn [stepTask finish fst snd runTask].
  eexists. split; [reflexivity|]. simpl.
  rewrite Hr, Hg, He. simpl. rewrite Hid.
  split; [reflexivity|]. split; [reflexivity|]. split; [reflexivity|].
  change (id final) with (id stored) in Hsched. rewrite Hid in Hsched.
  exact (Hsched Hact).
Qed.

(** The executor is called in one place, at most once per call. *)
Lemma stepTask_afterRead tz job pc i w :
  afterRead pc = true ->
  afterRead (snd (stepTask tz job pc i w)) = true
  /\ executed (fst (stepTask tz job pc i w)) = executed w.
Proof.
  destruct pc; simpl; intros Ha; try discriminate; auto.
  - destruct (rejected i); simpl; auto.
    destruct (calculateNextRun tz (now i) (schedule freshJob)); simpl; auto.
  - destruct (rejected i); simpl; auto.
    destruct (scheduleJob_result tz (now i) freshJob (save freshJob w))
      as (w2 & o & -> & _ & _ & He).
    destruct o; simpl; auto.
  - destruct (rejected i); simpl; auto.
    destruct (jobRepository w !! id job); simpl; auto.
  - destruct (rejected i); simpl; auto.
  - destruct (rejected i); simpl; auto.
    destruct (scheduleJob_result tz (now i) freshJob (save freshJob w))
      as (w2 & o & -> & _ & _ & He).
    destruct o; simpl; auto.
Qed.

Lemma runTask_afterRead tz job ins : forall pc w,
  afterRead pc = true ->
  executed (fst (runTask tz job pc ins w)) = executed w.
Proof.
  induction ins as [|i ins IH]; intros pc w Ha; [reflexivity|].
  cbn [runTask]. destruct (isDone pc); [reflexivity|].
  destruct (stepTask_afterRead tz job pc i w Ha) as [Ha' He].
  destruct (stepTask tz job pc i w) as [w1 pc1]. simpl in *.
  rewrite (IH pc1 w1 Ha'). exact He.
Qed.

Lemma runTask_executed_once tz job ins w :
  let w' := fst (runTask tz job PFindOne ins w) in
  executed w' = executed w \/ exists fresh, executed w' = fresh :: executed w.
Proof.
  destruct ins as [|i ins]; [left; reflexivity|].
  cbn zeta. rewrite runTask_cons by reflexivity.
  assert (Hstep : afterRead (snd (stepTask tz job PFindOne i w)) = true
                  /\ (executed (fst (stepTask tz job PFindOne i w)) = executed w
                      \/ exists fresh,
                           executed (fst (stepTask tz job PFindOne i w))
                           = fresh :: executed w)).
  { simpl. destruct (rejected i); simpl; [auto|].
    destruct (jobRepository w !! id job) as [fresh|]; simpl; [|auto].
    destruct (decide (status fresh = ACTIVE)); simpl; eauto. }
  destruct Hstep as [Ha He].
  rewrite (runTask_afterRead tz job ins _ _ Ha). exact He.
Qed.

(** ** The execution guard *)

(** C1: when the identity of the job is in the guard, [executeJob] logs a
    warning and returns: it does not run the job, changes neither the store
    nor the index nor the guard, and throws nothing.  Otherwise it puts the
    identity into the guard and goes on to the attempt.  So of two calls for
    the same job of which the second comes while the first is under way, one
    makes an attempt, and the executor is called at most once; among the
    tasks of the process no two are in flight for the same identity. *)
Theorem C1_duplicate_suppressed (tz : TimeZone) (job : Job) :
  (forall i w,
     is_Some (executingJobs w !! id job) ->
     let w' := logger WARN (MsgAlreadyExecuting (id job)) w in
     stepTask tz job PStart i w = (w', PDone Returned)
     /\ (forall ins, executeJob tz job (i :: ins) w = (w', PDone Returned))
     /\ jobRepository w' = jobRepository w
     /\ executed w' = executed w
     /\ executingJobs w' = executingJobs w
     /\ scheduledJobs w' = scheduledJobs w
     /\ timers w' = timers w)
  /\ (forall i w,
        executingJobs w !! id job = None ->
        stepTask tz job PStart i w
        = (logger LOG (MsgExecuting (name job) (id job))
             (setExecutingJobs
                (<[id job := mkExecuting (id job) (now i)]> (executingJobs w))
                w),
           PFindOne))
  /\ (forall i1 i2 ins w,
        executingJobs w !! id job = None -> (7 <= length ins)%nat ->
        exists w1 w3 o,
          stepTask tz job PStart i1 w = (w1, PFindOne)
          /\ stepTask tz job PStart i2 w1
             = (logger WARN (MsgAlreadyExecuting (id job)) w1, PDone Returned)
          /\ runTask tz job PFindOne ins
               (logger WARN (MsgAlreadyExecuting (id job)) w1)
             = (w3, PDone o)
          /\ (executed w3 = executed w
              \/ exists fresh, executed w3 = fresh :: executed w)
          /\ executingJobs w3 = executingJobs w)
  /\ (forall s,
        reachable tz s ->
        (forall k1 k2 t1 t2,
           tasks s !! k1 = Some t1 -> tasks s !! k2 = Some t2 ->
           inFlight (taskPc t1) = true -> inFlight (taskPc t2) = true ->
           id (taskJob t1) = id (taskJob t2) -> k1 = k2)
        /\ (forall k t i,
              tasks s !! k = Some t -> inFlight (taskPc t) = true ->
              id (taskJob t) = id job ->
              stepTask tz job PStart i (world s)
              = (logger WARN (MsgAlreadyExecuting (id job)) (world s),
                 PDone Returned))).
Proof.
  assert (Hdup : forall i w, is_Some (executingJobs w !! id job) ->
            stepTask tz job PStart i w
            = (logger WARN (MsgAlreadyExecuting (id job)) w, PDone Returned)).
  { intros i w [e He]. simpl. rewrite He. reflexivity. }
  assert (Henter : forall i w, executingJobs w !! id job = None ->
            stepTask tz job PStart i w
            = (logger LOG (MsgExecuting (name job) (id job))
                 (setExecutingJobs
                    (<[id job := mkExecuting (id job) (now i)]> (executingJobs w))
                    w), PFindOne)).
  { intros i w He. simpl. rewrite He. reflexivity. }
  split; [|split; [exact Henter|split]].
  - intros i w Hsome w'. split; [exact (Hdup i w Hsome)|].
    split; [|repeat split].
    intros ins. unfold executeJob. rewrite runTask_cons by reflexivity.
    rewrite (Hdup i w Hsome). apply runTask_done_pc.
  - intros i1 i2 ins w Hfree Hlen.
    set (w1 := logger LOG (MsgExecuting (name job) (id job))
                 (setExecutingJobs
                    (<[id job := mkExecuting (id job) (now i1)]>
                       (executingJobs w)) w)).
    assert (Hheld : is_Some (executingJobs w1 !! id job)).
    { subst w1. simpl. rewrite lookup_insert_eq. eauto. }
    set (w2 := logger WARN (MsgAlreadyExecuting (id job)) w1).
    destruct (runTask_releases tz job ins PFindOne w2 eq_refl Hlen)
      as (w3 & o & Hrun & Hrel).
    exists w1, w3, o. split; [exact (Henter i1 w Hfree)|].
    split; [exact (Hdup i2 w1 Hheld)|].
    split; [exact Hrun|]. split.
    + pose proof (runTask_executed_once tz job ins w2) as Hex.
      rewrite Hrun in Hex. exact Hex.
    + rewrite Hrel. subst w2 w1. simpl. apply delete_insert_id. exact Hfree.
  - intros s Hreach. destruct (reachable_guardInv tz s Hreach) as [H1 H2].
    split; [exact H2|]. intros k t i Hk Hfl Hid. apply Hdup.
    apply H1. exists k, t. auto.
Qed.

Lemma C1_duplicate_suppressed_witness :
  stepTask 0 sampleJob PStart (answer 5) guardedWorld
  = (logger WARN (MsgAlreadyExecuting (id sampleJob)) guardedWorld,
     PDone Returned)
  /\ exists w1 w3 o,
       stepTask 0 sampleJob PStart (answer 1) sampleWorld = (w1, PFindOne)
       /\ stepTask 0 sampleJob PStart (answer 2) w1
          = (logger WARN (MsgAlreadyExecuting (id sampleJob)) w1,
             PDone Returned)
       /\ runTask 0 sampleJob PFindOne
            [answer 3; answer 4; answer 5; answer 6; answer 7; answer 8;
             answer 9]
            (logger WARN (MsgAlreadyExecuting (id sampleJob)) w1)
          = (w3, PDone o)
       /\ (executed w3 = executed sampleWorld
           \/ exists fresh, executed w3 = fresh :: executed sampleWorld)
       /\ executingJobs w3 = executingJobs sampleWorld.
Proof.
  split.
  - apply (proj1 (C1_duplicate_suppressed 0 sampleJob) (answer 5) guardedWorld).
    exists (mkExecuting (id sampleJob) 0). reflexivity.
  - apply (proj1 (proj2 (proj2 (C1_duplicate_suppressed 0 sampleJob)))).
    + reflexivity.
    + simpl. lia.
Defined.

(** C6: the entry that [executeJob] puts into the guard is removed on every
    way out of the call: whatever the store and the executor answer, a task
    in flight ends after a bounded number of resumptions, and the stretch
    that ends it removes the identity from the guard; so a call that
    entered the guard leaves it as it found it, and the guard holds an
    identity only while a task for it is in flight. *)
Theorem C6_guard_released (tz : TimeZone) (job : Job) :
  (forall pc i w,
     inFlight pc = true ->
     isDone (snd (stepTask tz job pc i w)) = true ->
     executingJobs (fst (stepTask tz job pc i w)) !! id job = None)
  /\ (forall pc ins w,
        inFlight pc = true -> (rank pc <= length ins)%nat ->
        exists w' o,
          runTask tz job pc ins w = (w', PDone o)
          /\ executingJobs w' !! id job = None)
  /\ (forall ins w,
        executingJobs w !! id job = None -> (8 <= length ins)%nat ->
        exists w' o,
          executeJob tz job ins w = (w', PDone o)
          /\ executingJobs w' = executingJobs w)
  /\ (forall i w,
        rejected i = None ->
        (jobRepository w !! id job = None
         \/ exists stored, jobRepository w !! id job = Some stored
                           /\ status stored <> ACTIVE) ->
        exists w',
          stepTask tz job PFindOne i w = (w', PDone Returned)
          /\ executingJobs w' = delete (id job) (executingJobs w)
          /\ jobRepository w' = jobRepository w
          /\ scheduledJobs w' = scheduledJobs w)
  /\ (forall freshJob i w m,
        rejected i = Some m ->
        stepTask tz job (PCatchSave1 freshJob) i w
        = (setExecutingJobs (delete (id job) (executingJobs w)) w,
           PDone (Threw m)))
  /\ (forall s x,
        reachable tz s ->
        is_Some (executingJobs (world s) !! x) ->
        exists k t, tasks s !! k = Some t /\ id (taskJob t) = x
                    /\ inFlight (taskPc t) = true).
Proof.
  split; [|split; [|split; [|split; [|split]]]].
  - intros pc i w Hfl Hdone.
    pose proof (stepTask_guard tz job pc i w) as Hg. cbv zeta in Hg.
    assert (Hcases :
      (inFlight (snd (stepTask tz job pc i w)) = true
       /\ executingJobs (fst (stepTask tz job pc i w)) = executingJobs w)
      \/ (isDone (snd (stepTask tz job pc i w)) = true
          /\ executingJobs (fst (stepTask tz job pc i w))
             = delete (id job) (executingJobs w))).
    { destruct pc; simpl in Hfl; try discriminate; exact Hg. }
    destruct Hcases as [[Hfl' _] | [_ ->]].
    + destruct (snd (stepTask tz job pc i w)); simpl in *; discriminate.
    + apply lookup_delete_eq.
  - intros pc ins w Hfl Hlen.
    destruct (runTask_releases tz job ins pc w Hfl Hlen) as (w' & o & Hrun & Hrel).
    exists w', o. split; [exact Hrun|]. rewrite Hrel. apply lookup_delete_eq.
  - intros ins w Hfree Hlen. destruct ins as [|i ins]; [simpl in Hlen; lia|].
    unfold executeJob. rewrite runTask_cons by reflexivity.
    assert (E : stepTask tz job PStart i w
                = (logger LOG (MsgExecuting (name job) (id job))
                     (setExecutingJobs
                        (<[id job := mkExecuting (id job) (now i)]>
                           (executingJobs w)) w), PFindOne)).
    { simpl. rewrite Hfree. reflexivity. }
    rewrite E. cbn [fst snd].
    destruct (runTask_releases tz job ins PFindOne
                (logger LOG (MsgExecuting (name job) (id job))
                   (setExecutingJobs
                      (<[id job := mkExecuting (id job) (now i)]>
                         (executingJobs w)) w)) eq_refl)
      as (w' & o & Hrun & Hrel); [simpl in *; lia|].
    exists w', o. split; [exact Hrun|]. rewrite Hrel. simpl.
    apply delete_insert_id. exact Hfree.
  - intros i w Hrej Hgone. simpl. rewrite Hrej.
    destruct Hgone as [-> | (stored & -> & Hst)].
    + eexists. split; [reflexivity|]. simpl.
      rewrite delete_delete_eq. auto.
    + destruct (decide (status stored = ACTIVE)); [contradiction|].
      eexists. split; [reflexivity|]. simpl.
      rewrite delete_delete_eq. auto.
  - intros freshJob i w m Hrej. simpl. rewrite Hrej. reflexivity.
  - intros s x Hreach Hsome.
    destruct (reachable_guardInv tz s Hreach) as [H1 _]. apply H1. exact Hsome.
Qed.

Lemma C6_guard_released_witness :
  exists w' o,
    executeJob 0 sampleJob
      [answer 1; answer 2; reject 3 "boom"; answer 4; reject 5 "store down";
       answer 6; answer 7; answer 8]
      sampleWorld
    = (w', PDone o)
    /\ executingJobs w' = executingJobs sampleWorld.
Proof.
  apply (proj1 (proj2 (proj2 (C6_guard_released 0 sampleJob)))).
  - reflexivity.
  - simpl. lia.
Defined.

(** ** Failure and success of an attempt *)

(** C2: when the attempt fails and the job is still in the store, the
    dispatcher adds one to [failureCount], stores the message in
    [lastError], sets [nextRunAt] to the clock plus
    [min(2^failureCount minutes, 60 minutes)] with the count as it was just
    raised (a count that becomes 3 gives 8 minutes, one that becomes 10
    gives 60), saves the job, and schedules it at that very due time,
    without a look at the schedule string; the status stays as it was. *)
Theorem C2_failure_backoff (tz : TimeZone) (job freshJob stored : Job)
    (msg : string)
    (i1 i2 i3 i4 i5 : Input) (w : World) :
  rejected i1 = Some msg ->
  jobRepository w !! id job = Some stored -> id stored = id job ->
  rejected i2 = None -> rejected i3 = None -> rejected i4 = None ->
  0 <= failureCount stored ->
  let count := failureCount stored + 1 in
  let due := now i3 + Z.min (2 ^ count * 60000) 3600000 in
  let final :=
    mkJob (id stored) (name stored) (type stored) (status stored)
          (description stored) (schedule stored) (lastRunAt stored)
          (Some due) (runCount stored) count (Some msg) in
  exists w',
    runTask tz job (PExecute freshJob) [i1; i2; i3; i4; i5] w
    = (w', PDone Returned)
    /\ jobRepository w' = <[id job := final]> (jobRepository w)
    /\ status final = status stored
    /\ (status stored = ACTIVE ->
        scheduledJobs w' !! id job
        = Some (mkScheduled (id job) due (nextTimeoutId w))
        /\ timers w' !! nextTimeoutId w
           = Some (mkTimer final (Z.max 0 (due - now i4))))
    /\ (count = 3 -> due = now i3 + 8 * 60000)
    /\ (count = 10 -> due = now i3 + 60 * 60000).
Proof.
  intros H1 Hst Hid H2 H3 H4 Hfc count due final.
  rewrite runTask_cons by reflexivity.
  assert (E1 : stepTask tz job (PExecute freshJob) i1 w
               = (logger ERROR (MsgErrorExecuting (id job) msg) w,
                  PCatchFindOne msg)).
  { simpl. rewrite H1. reflexivity. }
  rewrite E1. cbn [fst snd].
  destruct (failure_path tz job msg stored i2 i3 i4 i5
              (logger ERROR (MsgErrorExecuting (id job) msg) w)
              Hst Hid H2 H3 H4)
    as (w' & Hrun & Hrepo & _ & _ & Hact & _).
  exists w'. split; [exact Hrun|]. split; [exact Hrepo|].
  split; [reflexivity|]. split; [exact Hact|].
  subst due. split; intros ->; reflexivity.
Qed.

Lemma C2_failure_backoff_witness :
  exists w',
    runTask 0 sampleJob (PExecute failedTwice)
      [reject 10 "boom"; answer 20; answer 30; answer 40; answer 50]
      (save failedTwice emptyWorld)
    = (w', PDone Returned)
    /\ jobRepository w'
       = <[id sampleJob :=
             mkJob "job-1" "Daily Email Report" EMAIL_NOTIFICATION ACTIVE None
                   "PT5M" None (Some (30 + Z.min (2 ^ (2 + 1) * 60000) 3600000))
                   0 (2 + 1) (Some "boom")]>
           (jobRepository (save failedTwice emptyWorld))
    /\ ACTIVE = ACTIVE
    /\ (ACTIVE = ACTIVE ->
        scheduledJobs w' !! id sampleJob
        = Some (mkScheduled (id sampleJob)
                  (30 + Z.min (2 ^ (2 + 1) * 60000) 3600000) 0%nat)
        /\ timers w' !! 0%nat
           = Some (mkTimer
                     (mkJob "job-1" "Daily Email Report" EMAIL_NOTIFICATION
                        ACTIVE None "PT5M" None
                        (Some (30 + Z.min (2 ^ (2 + 1) * 60000) 3600000))
                        0 (2 + 1) (Some "boom"))
                     (Z.max 0 (30 + Z.min (2 ^ (2 + 1) * 60000) 3600000 - 40))))
    /\ (2 + 1 = 3 -> 30 + Z.min (2 ^ (2 + 1) * 60000) 3600000 = 30 + 8 * 60000)
    /\ (2 + 1 = 10 -> 30 + Z.min (2 ^ (2 + 1) * 60000) 3600000 = 30 + 60 * 60000).
Proof.
  apply (C2_failure_backoff 0 sampleJob failedTwice failedTwice "boom"
           (reject 10 "boom") (answer 20) (answer 30) (answer 40) (answer 50)
           (save failedTwice emptyWorld)).
  - reflexivity.
  - reflexivity.
  - reflexivity.
  - reflexivity.
  - reflexivity.
  - reflexivity.
  - simpl. lia.
Defined.

(** C10: a successful attempt changes [lastRunAt], [runCount], [nextRunAt]
    and [lastError] (cleared) of the job and nothing else; [failureCount]
    keeps its value, so that a failure that comes later raises the count
    of all failures so far and takes its backoff from that. *)
Theorem C10_success_keeps_failureCount (tz : TimeZone) (job stored : Job)
    (i1 i2 i3 i4 : Input) (next : Z) (w : World) :
  jobRepository w !! id job = Some stored -> id stored = id job ->
  status stored = ACTIVE ->
  rejected i1 = None -> rejected i2 = None -> rejected i3 = None ->
  calculateNextRun tz (now i2) (schedule stored) = OK next ->
  exists w' final,
    runTask tz job PFindOne [i1; i2; i3; i4] w = (w', PDone Returned)
    /\ jobRepository w' = <[id job := final]> (jobRepository w)
    /\ (lastRunAt final = Some (now i1)
        /\ runCount final = runCount stored + 1
        /\ nextRunAt final = Some next
        /\ lastError final = None)
    /\ (id final = id stored /\ name final = name stored
        /\ type final = type stored /\ status final = status stored
        /\ description final = description stored
        /\ schedule final = schedule stored
        /\ failureCount final = failureCount stored)
    /\ (forall msg j2 j3 j4 j5,
          rejected j2 = None -> rejected j3 = None -> rejected j4 = None ->
          exists w'' failed,
            runTask tz job (PCatchFindOne msg) [j2; j3; j4; j5] w'
            = (w'', PDone Returned)
            /\ jobRepository w'' !! id job = Some failed
            /\ failureCount failed = failureCount stored + 1
            /\ nextRunAt failed
               = Some (now j3 + backoffDelay (failureCount stored + 1))).
Proof.
  intros Hst Hid Hact H1 H2 H3 Hnext.
  destruct (success_path tz job stored i1 i2 i3 i4 next w
              Hst Hid Hact H1 H2 H3 Hnext)
    as (w' & Hrun & Hrepo & _).
  eexists w', _. split; [exact Hrun|]. split; [exact Hrepo|].
  split; [simpl; auto|]. split; [simpl; auto 10|].
  intros msg j2 j3 j4 j5 J2 J3 J4.
  assert (Hst' : jobRepository w' !! id job
                 = Some (mkJob (id stored) (name stored) (type stored)
                           (status stored) (description stored)
                           (schedule stored) (Some (now i1)) (Some next)
                           (runCount stored + 1) (failureCount stored) None)).
  { rewrite Hrepo. apply lookup_insert_eq. }
  destruct (failure_path tz job msg _ j2 j3 j4 j5 w' Hst' Hid J2 J3 J4)
    as (w'' & Hrun' & Hrepo' & _).
  eexists w'', _. split; [exact Hrun'|].
  split; [rewrite Hrepo'; apply lookup_insert_eq|].
  split; reflexivity.
Qed.

Lemma C10_success_keeps_failureCount_witness :
  exists w' final,
    runTask 0 sampleJob PFindOne [answer 10; answer 20; answer 30; answer 40]
            (save failedTwice emptyWorld)
    = (w', PDone Returned)
    /\ jobRepository w'
       = <[id sampleJob := final]> (jobRepository (save failedTwice emptyWorld))
    /\ (lastRunAt final = Some 10
        /\ runCount final = runCount failedTwice + 1
        /\ nextRunAt final = Some 300020
        /\ lastError final = None)
    /\ (id final = id failedTwice /\ name final = name failedTwice
        /\ type final = type failedTwice /\ status final = status failedTwice
        /\ description final = description failedTwice
        /\ schedule final = schedule failedTwice
        /\ failureCount final = failureCount failedTwice)
    /\ (forall msg j2 j3 j4 j5,
          rejected j2 = None -> rejected j3 = None -> rejected j4 = None ->
          exists w'' failed,
            runTask 0 sampleJob (PCatchFindOne msg) [j2; j3; j4; j5] w'
            = (w'', PDone Returned)
            /\ jobRepository w'' !! id sampleJob = Some failed
            /\ failureCount failed = failureCount failedTwice + 1
            /\ nextRunAt failed
               = Some (now j3 + backoffDelay (failureCount failedTwice + 1))).
Proof.
  apply (C10_success_keeps_failureCount 0 sampleJob failedTwice
           (answer 10) (answer 20) (answer 30) (answer 40) 300020
           (save failedTwice emptyWorld)).
  - reflexivity.
  - reflexivity.
  - reflexivity.
  - reflexivity.
  - reflexivity.
  - reflexivity.
  - reflexivity.
Defined.

(** ** The reconciler *)

Lemma assignNextRuns_ok tz now l :
  (forall job, job ∈ l -> nextRunAt job = None ->
     exists t, calculateNextRun tz now (schedule job) = OK t) ->
  assignNextRuns tz now l = inr (assigned tz now <$> l).
Proof.
  induction l as [|job l IH]; intros Hok; [reflexivity|].
  simpl. unfold assigned at 1.
  rewrite IH by (intros j Hj; apply Hok; right; exact Hj).
  destruct (nextRunAt job) eqn:Hn; [reflexivity|].
  destruct (Hok job ltac:(left) Hn) as [t ->]. reflexivity.
Qed.

Lemma assignNextRuns_fail tz now l job e :
  job ∈ l -> nextRunAt job = None ->
  calculateNextRun tz now (schedule job) = Throw e ->
  exists m, assignNextRuns tz now l = inl m.
Proof.
  intros Hin Hn He. induction l as [|a l IH]; [inversion Hin|].
  apply elem_of_cons in Hin as [<- | Hin]; simpl.
  - rewrite Hn, He. eauto.
  - destruct (IH Hin) as [m Hm]. rewrite Hm.
    destruct (nextRunAt a); [eauto|].
    destruct (calculateNextRun tz now (schedule a)); eauto.
Qed.

Lemma setNextRunAt_same job t :
  nextRunAt job = Some t -> setNextRunAt (Some t) job = job.
Proof. destruct job; simpl; intros ->; reflexivity. Qed.

(** The job that [assigned] gives carries the due time of [dueTime]. *)
Lemma assigned_due tz now job :
  (nextRunAt job = None ->
   exists t, calculateNextRun tz now (schedule job) = OK t) ->
  exists t,
    dueTime tz now job = OK t
    /\ snd (assigned tz now job) = setNextRunAt (Some t) job
    /\ (fst (assigned tz now job) = true <-> nextRunAt job = None).
Proof.
  intros Hok. unfold assigned, dueTime.
  destruct (nextRunAt job) as [t|] eqn:Hn.
  - exists t. simpl. rewrite (setNextRunAt_same job t Hn).
    split; [reflexivity|]. split; [reflexivity|]. split; discriminate.
  - destruct (Hok eq_refl) as [t Ht]. rewrite Ht. exists t. simpl. tauto.
Qed.

Lemma saveAll_cons job jobs w : saveAll (job :: jobs) w = saveAll jobs (save job w).
Proof. reflexivity. Qed.

Lemma saveAll_frame jobs : forall w,
  scheduledJobs (saveAll jobs w) = scheduledJobs w
  /\ timers (saveAll jobs w) = timers w
  /\ nextTimeoutId (saveAll jobs w) = nextTimeoutId w
  /\ executingJobs (saveAll jobs w) = executingJobs w.
Proof.
  induction jobs as [|job jobs IH]; intros w; [simpl; auto|].
  rewrite saveAll_cons. destruct (IH (save job w)) as (-> & -> & -> & ->).
  simpl. auto.
Qed.

Lemma saveAll_lookup_other jobs : forall w x,
  x ∉ id <$> jobs ->
  jobRepository (saveAll jobs w) !! x = jobRepository w !! x.
Proof.
  induction jobs as [|job jobs IH]; intros w x Hx; [reflexivity|].
  rewrite saveAll_cons. rewrite fmap_cons in Hx.
  apply not_elem_of_cons in Hx as [Hne Hx].
  rewrite (IH _ x Hx). simpl. apply lookup_insert_ne. congruence.
Qed.

Lemma saveAll_lookup jobs : forall w job,
  NoDup (id <$> jobs) -> job ∈ jobs ->
  jobRepository (saveAll jobs w) !! id job = Some job.
Proof.
  induction jobs as [|a jobs IH]; intros w job Hnd Hin; [inversion Hin|].
  rewrite saveAll_cons. rewrite fmap_cons in Hnd.
  apply NoDup_cons in Hnd as [Ha Hnd].
  apply elem_of_cons in Hin as [-> | Hin].
  - rewrite (saveAll_lookup_other jobs _ _ Ha). simpl. apply lookup_insert_eq.
  - exact (IH _ job Hnd Hin).
Qed.

Lemma scheduleJob_other tz now job w x :
  x <> id job ->
  scheduledJobs (fst (scheduleJob tz now job w)) !! x = scheduledJobs w !! x.
Proof.
  intros Hne. unfold scheduleJob.
  destruct (decide (status job = ACTIVE)); [|reflexivity].
  destruct (match nextRunAt job with
            | Some t => OK t
            | None => calculateNextRun tz now (schedule job)
            end); simpl.
  - rewrite lookup_insert_ne by congruence.
    rewrite unscheduleJob_scheduledJobs. apply lookup_delete_ne. congruence.
  - rewrite unscheduleJob_scheduledJobs. apply lookup_delete_ne. congruence.
Qed.

(** Scheduling a list of active jobs that carry their due times and have
    different identities leaves an entry for each of them. *)
Lemma scheduleAll_ok tz clock jobs : forall k w,
  (forall job, job ∈ jobs -> status job = ACTIVE /\ is_Some (nextRunAt job)) ->
  NoDup (id <$> jobs) ->
  exists w2,
    scheduleAll tz clock k jobs w = (w2, Returned)
    /\ jobRepository w2 = jobRepository w
    /\ (forall job, job ∈ jobs ->
          exists t tid,
            nextRunAt job = Some t
            /\ scheduledJobs w2 !! id job
               = Some (mkScheduled (id job) t tid))
    /\ (forall x, x ∉ id <$> jobs ->
          scheduledJobs w2 !! x = scheduledJobs w !! x).
Proof.
  induction jobs as [|job jobs IH]; intros k w Hall Hnd.
  - exists w. simpl. split; [reflexivity|]. split; [reflexivity|].
    split; [intros job Hj; inversion Hj | reflexivity].
  - rewrite fmap_cons in Hnd. apply NoDup_cons in Hnd as [Hfresh Hnd].
    destruct (Hall job ltac:(left)) as [Hact [t Ht]].
    destruct (scheduleJob_with_due tz (clock k) job w t Ht)
      as (w1 & Hs & _ & Hrepo & _ & Hentry & _).
    destruct (Hentry Hact) as [Hentry1 _].
    destruct (IH (S k) w1 ltac:(intros j Hj; apply Hall; right; exact Hj) Hnd)
      as (w2 & Hrun & Hrepo2 & Hentries & Hother).
    exists w2. simpl. rewrite Hs. split; [exact Hrun|].
    split; [congruence|]. split.
    + intros j Hj. apply elem_of_cons in Hj as [-> | Hj].
      * exists t, (nextTimeoutId w). split; [exact Ht|].
        rewrite (Hother _ Hfresh). exact Hentry1.
      * exact (Hentries j Hj).
    + intros x Hx. apply not_elem_of_cons in Hx as [Hne Hx].
      rewrite (Hother x Hx).
      pose proof (scheduleJob_other tz (clock k) job w x Hne) as Ho.
      rewrite Hs in Ho. exact Ho.
Qed.

Lemma getActive_elem w job :
  job ∈ getActive w <->
  status job = ACTIVE /\ exists k, jobRepository w !! k = Some job.
Proof.
  unfold getActive. rewrite list_elem_of_filter, list_elem_of_fmap.
  split.
  - intros [Hst ([k j] & -> & Hin)]. apply elem_of_map_to_list in Hin. eauto.
  - intros [Hst [k Hk]]. split; [exact Hst|]. exists (k, job).
    split; [reflexivity|]. apply elem_of_map_to_list. exact Hk.
Qed.

Lemma NoDup_fmap_filter {A B} (f : A -> B) (P : A -> Prop)
    `{forall x, Decision (P x)} (l : list A) :
  NoDup (f <$> l) -> NoDup (f <$> filter P l).
Proof.
  induction l as [|a l IH]; [intros; constructor|].
  rewrite fmap_cons, NoDup_cons. intros [Ha Hnd].
  rewrite filter_cons. destruct (decide (P a)); [|exact (IH Hnd)].
  rewrite fmap_cons, NoDup_cons. split; [|exact (IH Hnd)].
  intros Hin. apply Ha. apply list_elem_of_fmap in Hin as (x & -> & Hx).
  apply list_elem_of_fmap. exists x. split; [reflexivity|].
  apply list_elem_of_filter in Hx as [_ Hx]. exact Hx.
Qed.

Lemma getActive_NoDup w : storeWf w -> NoDup (id <$> getActive w).
Proof.
  intros Hwf. unfold getActive. apply NoDup_fmap_filter.
  assert (Heq : id <$> (snd <$> map_to_list (jobRepository w))
                = fst <$> map_to_list (jobRepository w)).
  { rewrite <- list_fmap_compose. apply list_fmap_ext.
    intros n [k j] Hn. apply list_elem_of_lookup_2 in Hn.
    apply elem_of_map_to_list in Hn. simpl. exact (Hwf k j Hn). }
  rewrite Heq. apply NoDup_fst_map_to_list.
Qed.

Lemma assigned_id tz now job : id (snd (assigned tz now job)) = id job.
Proof.
  unfold assigned. destruct (nextRunAt job); [reflexivity|].
  destruct (calculateNextRun tz now (schedule job)); reflexivity.
Qed.

Lemma assigned_status tz now job :
  status (snd (assigned tz now job)) = status job.
Proof.
  unfold assigned. destruct (nextRunAt job); [reflexivity|].
  destruct (calculateNextRun tz now (schedule job)); reflexivity.
Qed.

Lemma getActive_stored w job :
  storeWf w -> job ∈ getActive w -> jobRepository w !! id job = Some job.
Proof.
  intros Hwf Hin. apply getActive_elem in Hin as [_ [k Hk]].
  rewrite (Hwf k job Hk). exact Hk.
Qed.

(** The store after the batch save, and the index after the scheduling
    loop, when every schedule that is needed has a next run. *)
Lemma loadActiveJobs_all tz inp w :
  queryRejected inp = None -> saveRejected inp = None -> storeWf w ->
  (forall job, job ∈ getActive w -> nextRunAt job = None ->
     exists t, calculateNextRun tz (calcNow inp) (schedule job) = OK t) ->
  forall job, job ∈ getActive w ->
    exists t tid,
      dueTime tz (calcNow inp) job = OK t
      /\ jobRepository (loadActiveJobs tz inp w) !! id job
         = Some (setNextRunAt (Some t) job)
      /\ scheduledJobs (loadActiveJobs tz inp w) !! id job
         = Some (mkScheduled (id job) t tid).
Proof.
  intros Hq Hsave Hwf Hok job Hjob.
  unfold loadActiveJobs. rewrite Hq, (assignNextRuns_ok _ _ _ Hok), Hsave.
  cbv beta iota zeta.
  set (active := getActive w) in *.
  set (marked := assigned tz (calcNow inp) <$> active).
  set (jobsToUpdate := snd <$> filter (fun p => fst p = true) marked).
  set (ws := if decide (0 < length jobsToUpdate)%nat
             then saveAll jobsToUpdate w else w).
  assert (Hws : (if decide (0 < length jobsToUpdate)%nat
                 then inr (saveAll jobsToUpdate w) else inr w)
                = (inr ws : string + World)).
  { subst ws. destruct (decide (0 < length jobsToUpdate)%nat); reflexivity. }
  rewrite Hws. clear Hws.
  assert (Hids : id <$> (snd <$> marked) = id <$> active).
  { subst marked. rewrite <- !list_fmap_compose. apply list_fmap_ext.
    intros n j _. simpl. apply assigned_id. }
  assert (Hnd : NoDup (id <$> (snd <$> marked))).
  { rewrite Hids. apply getActive_NoDup. exact Hwf. }
  assert (Hmem : forall j', j' ∈ snd <$> marked ->
            exists j, j ∈ active /\ j' = snd (assigned tz (calcNow inp) j)).
  { intros j' Hj'. apply list_elem_of_fmap in Hj' as (p & -> & Hp).
    subst marked. apply list_elem_of_fmap in Hp as (j & -> & Hj). eauto. }
  assert (Hall : forall j', j' ∈ snd <$> marked ->
            status j' = ACTIVE /\ is_Some (nextRunAt j')).
  { intros j' Hj'. destruct (Hmem j' Hj') as (j & Hj & ->).
    rewrite assigned_status. split.
    - apply getActive_elem in Hj. tauto.
    - destruct (assigned_due tz (calcNow inp) j (Hok j Hj)) as (t & _ & -> & _).
      simpl. eauto. }
  destruct (scheduleAll_ok tz (schedNow inp) (snd <$> marked) 0%nat ws Hall Hnd)
    as (w2 & Hrun & Hrepo & Hentries & _).
  rewrite Hrun. simpl. rewrite Hrepo.
  destruct (assigned_due tz (calcNow inp) job (Hok job Hjob))
    as (t & Hdue & Hsnd & Hfst).
  assert (Hin' : snd (assigned tz (calcNow inp) job) ∈ snd <$> marked).
  { apply list_elem_of_fmap. eexists. split; [reflexivity|].
    subst marked. apply list_elem_of_fmap. eauto. }
  destruct (Hentries _ Hin') as (t' & tid & Ht' & Hentry).
  rewrite assigned_id in Hentry. rewrite Hsnd in Ht'. simpl in Ht'.
  injection Ht' as <-.
  exists t, tid. split; [exact Hdue|]. split; [|exact Hentry].
  rewrite <- Hsnd.
  assert (Hupd_nd : NoDup (id <$> jobsToUpdate)).
  { subst jobsToUpdate. rewrite <- list_fmap_compose.
    apply NoDup_fmap_filter. rewrite list_fmap_compose. exact Hnd. }
  assert (Hupd : forall j', j' ∈ jobsToUpdate ->
            exists j, j ∈ active /\ nextRunAt j = None
                      /\ j' = snd (assigned tz (calcNow inp) j)).
  { intros j' Hj'. subst jobsToUpdate.
    apply list_elem_of_fmap in Hj' as (p & -> & Hp).
    apply list_elem_of_filter in Hp as [Hmark Hp]. subst marked.
    apply list_elem_of_fmap in Hp as (j & -> & Hj). exists j.
    split; [exact Hj|]. split; [|reflexivity].
    destruct (assigned_due tz (calcNow inp) j (Hok j Hj)) as (_ & _ & _ & Hiff).
    apply Hiff. exact Hmark. }
  destruct (nextRunAt job) as [t0|] eqn:Hn.
  - assert (Hsame : snd (assigned tz (calcNow inp) job) = job).
    { unfold assigned. rewrite Hn. reflexivity. }
    rewrite Hsame.
    assert (Hstore : jobRepository ws !! id job = jobRepository w !! id job).
    { subst ws. destruct (decide (0 < length jobsToUpdate)%nat); [|reflexivity].
      apply saveAll_lookup_other. intros Hin.
      apply list_elem_of_fmap in Hin as (j' & Hid & Hj').
      destruct (Hupd j' Hj') as (j & Hj & Hnone & ->).
      rewrite assigned_id in Hid.
      pose proof (getActive_stored w job Hwf Hjob) as S1.
      pose proof (getActive_stored w j Hwf Hj) as S2.
      rewrite Hid in S1. rewrite S1 in S2. injection S2 as <-. congruence. }
    rewrite Hstore. exact (getActive_stored w job Hwf Hjob).
  - assert (Hin_upd : snd (assigned tz (calcNow inp) job) ∈ jobsToUpdate).
    { subst jobsToUpdate. apply list_elem_of_fmap. eexists.
      split; [reflexivity|]. apply list_elem_of_filter. split.
      - apply Hfst. reflexivity.
      - subst marked. apply list_elem_of_fmap. eauto. }
    subst ws. destruct (decide (0 < length jobsToUpdate)%nat) as [_|Hempty].
    + rewrite <- (assigned_id tz (calcNow inp) job) at 1.
      apply saveAll_lookup; assumption.
    + destruct jobsToUpdate; [inversion Hin_upd | simpl in Hempty; lia].
Qed.

(** C8 (as the code has it): at start-up the reconciler reads the active
    jobs, computes a due time for those without one, saves these in one
    batch and then schedules every active job, each at the due time it now
    carries; the whole of this is one attempt: when the calculator rejects
    the schedule of an active job without a due time, or the batch save
    fails, [loadActiveJobs] logs an error and stops, with nothing saved and
    no job scheduled; the error goes no further than the log. *)
Theorem C8_load_all_or_nothing (tz : TimeZone) (inp : LoadInput) (w : World) :
  queryRejected inp = None ->
  (forall job e,
     job ∈ getActive w -> nextRunAt job = None ->
     calculateNextRun tz (calcNow inp) (schedule job) = Throw e ->
     exists m, loadActiveJobs tz inp w = logger ERROR (MsgErrorLoading m) w)
  /\ ((forall job, job ∈ getActive w -> nextRunAt job = None ->
         exists t, calculateNextRun tz (calcNow inp) (schedule job) = OK t) ->
      (saveRejected inp = None -> storeWf w ->
       forall job, job ∈ getActive w ->
         exists t tid,
           dueTime tz (calcNow inp) job = OK t
           /\ jobRepository (loadActiveJobs tz inp w) !! id job
              = Some (setNextRunAt (Some t) job)
           /\ scheduledJobs (loadActiveJobs tz inp w) !! id job
              = Some (mkScheduled (id job) t tid))
      /\ (forall m job,
            saveRejected inp = Some m ->
            job ∈ getActive w -> nextRunAt job = None ->
            loadActiveJobs tz inp w = logger ERROR (MsgErrorLoading m) w)).
Proof.
  intros Hq. split.
  - intros job e Hjob Hn He.
    destruct (assignNextRuns_fail tz (calcNow inp) (getActive w) job e Hjob Hn He)
      as [m Hm].
    exists m. unfold loadActiveJobs. rewrite Hq, Hm. reflexivity.
  - intros Hok. split.
    + intros Hsave Hwf. exact (loadActiveJobs_all tz inp w Hq Hsave Hwf Hok).
    + intros m job Hsave Hjob Hn.
      unfold loadActiveJobs. rewrite Hq, (assignNextRuns_ok _ _ _ Hok), Hsave.
      cbv beta iota zeta.
      destruct (decide (0 < length
                  (snd <$> filter (fun p => fst p = true)
                             (assigned tz (calcNow inp) <$> getActive w)))%nat)
        as [_|Hempty]; [reflexivity|].
      exfalso. apply Hempty.
      assert (Hin : snd (assigned tz (calcNow inp) job)
                    ∈ snd <$> filter (fun p => fst p = true)
                                (assigned tz (calcNow inp) <$> getActive w)).
      { apply list_elem_of_fmap. eexists. split; [reflexivity|].
        apply list_elem_of_filter. split.
        - destruct (assigned_due tz (calcNow inp) job (Hok job Hjob))
            as (_ & _ & _ & Hiff). apply Hiff. exact Hn.
        - apply list_elem_of_fmap. eauto. }
      destruct (snd <$> filter (fun p => fst p = true)
                          (assigned tz (calcNow inp) <$> getActive w));
        [inversion Hin | simpl; lia].
Qed.

Lemma twoJobs_active : badJob ∈ getActive twoJobs.
Proof.
  apply getActive_elem. split; [reflexivity|]. exists "bad". reflexivity.
Qed.

Lemma C8_load_all_or_nothing_witness :
  exists m,
    loadActiveJobs 0 calmLoad twoJobs = logger ERROR (MsgErrorLoading m) twoJobs.
Proof.
  apply (proj1 (C8_load_all_or_nothing 0 calmLoad twoJobs eq_refl)
           badJob InvalidCronExpression).
  - exact twoJobs_active.
  - reflexivity.
  - reflexivity.
Defined.

(** C8, as stated, fails: with one active job whose schedule the calculator
    rejects and one whose schedule is an interval of five minutes, both
    without a due time, start-up gives the second job no due time and does
    not schedule it. *)
Lemma C8_unparsable_blocks_others :
  goodJob ∈ getActive twoJobs
  /\ calculateNextRun 0 (calcNow calmLoad) (schedule goodJob) = OK 301000
  /\ calculateNextRun 0 (calcNow calmLoad) (schedule badJob)
     = Throw InvalidCronExpression
  /\ jobRepository (loadActiveJobs 0 calmLoad twoJobs) !! id goodJob
     = Some goodJob
  /\ nextRunAt goodJob = None
  /\ scheduledJobs (loadActiveJobs 0 calmLoad twoJobs) = empty
  /\ logged (loadActiveJobs 0 calmLoad twoJobs)
     = [(ERROR, MsgErrorLoading "Invalid cron expression: every day")].
Proof.
  split.
  { apply getActive_elem. split; [reflexivity|]. exists "good". reflexivity. }
  split; [reflexivity|]. split; [reflexivity|].
  split; [vm_compute; reflexivity|]. split; [reflexivity|].
  split; [vm_compute; reflexivity|]. vm_compute. reflexivity.
Qed.

(** * Further properties of the code *)

(** ** Decimal numerals *)

(** The value of a digit character, computed. *)
Ltac digit_value :=
  repeat match goal with
  | |- context [digitVal ?c] =>
      let v := eval vm_compute in (digitVal c) in
      change (digitVal c) with v
  end.

Lemma digitsValue_of_uint_acc d : forall acc,
  digitsValue (Zpos acc) (NilEmpty.string_of_uint d)
  = Zpos (Pos.of_uint_acc d acc).
Proof.
  induction d; intros acc;
    cbn [NilEmpty.string_of_uint digitsValue Pos.of_uint_acc];
    try reflexivity;
    rewrite <- IHd; f_equal; digit_value; lia.
Qed.

Lemma digitsValue_of_uint d :
  digitsValue 0 (NilEmpty.string_of_uint d) = Z.of_N (Pos.of_uint d).
Proof.
  induction d; cbn [NilEmpty.string_of_uint digitsValue Pos.of_uint];
    try reflexivity; digit_value.
  - exact IHd.
  - apply (digitsValue_of_uint_acc d 1).
  - apply (digitsValue_of_uint_acc d 2).
  - apply (digitsValue_of_uint_acc d 3).
  - apply (digitsValue_of_uint_acc d 4).
  - apply (digitsValue_of_uint_acc d 5).
  - apply (digitsValue_of_uint_acc d 6).
  - apply (digitsValue_of_uint_acc d 7).
  - apply (digitsValue_of_uint_acc d 8).
  - apply (digitsValue_of_uint_acc d 9).
Qed.

Lemma allDigits_of_uint d : allDigits (NilEmpty.string_of_uint d) = true.
Proof. induction d; simpl; auto. Qed.

Lemma decimal_nonempty n : isEmpty (decimal n) = false.
Proof.
  unfold decimal. destruct n as [|p]; [reflexivity|]. simpl.
  pose proof (DecimalPos.Unsigned.to_uint_nonnil p) as H.
  destruct (Pos.to_uint p); [contradiction | reflexivity ..].
Qed.

(** A decimal numeral is what [\d+] matches, and [parseInt] reads the
    number back from it. *)
Lemma decimal_number n :
  isNumber (decimal n) = true /\ groupValue (Some (decimal n)) = Z.of_N n.
Proof.
  assert (Hn : isNumber (decimal n) = true).
  { unfold isNumber. rewrite decimal_nonempty. unfold decimal.
    rewrite allDigits_of_uint. reflexivity. }
  split; [exact Hn|]. rewrite (groupValue_digits _ Hn). unfold decimal.
  rewrite digitsValue_of_uint.
  change (Pos.of_uint (N.to_uint n)) with (N.of_uint (N.to_uint n)).
  rewrite DecimalN.Unsigned.of_to. reflexivity.
Qed.

(** ** Reading numbers in schedules *)

Lemma takeDigits_stop ds c rest :
  allDigits ds = true -> isDigit c = false ->
  takeDigits (ds +:+ String c rest) = (ds, String c rest).
Proof.
  intros Hd Hc. induction ds as [|a ds IH]; simpl.
  - rewrite Hc. reflexivity.
  - simpl in Hd. apply andb_true_iff in Hd as [Ha Hd].
    rewrite Ha, (IH Hd). reflexivity.
Qed.

Lemma isNumber_first ds :
  isNumber ds = true ->
  exists c r, ds = String c r /\ isDigit c = true /\ allDigits ds = true.
Proof.
  unfold isNumber. intros H. apply andb_true_iff in H as [Hne Hall].
  destruct ds as [|c r]; [discriminate|]. exists c, r.
  pose proof Hall as Hall'. simpl in Hall'.
  apply andb_true_iff in Hall' as [Hc _]. auto.
Qed.

Lemma digit_first_not_star c r :
  isDigit c = true ->
  String.eqb (String c r) "*" = false /\ matchStep (String c r) = None.
Proof.
  intros Hc. destruct c as [[] [] [] [] [] [] [] []];
    try discriminate Hc; split; reflexivity.
Qed.

(** A bare number matches the values equal to it. *)
Lemma matchesCronField_exact ds v :
  isNumber ds = true ->
  (matchesCronField ds v = true <-> v = digitsValue 0 ds).
Proof.
  intros Hn. destruct (isNumber_first ds Hn) as (c & r & -> & Hc & _).
  unfold matchesCronField.
  destruct (digit_first_not_star c r Hc) as [-> ->].
  rewrite Hn, (groupValue_digits _ Hn), Z.eqb_eq. split; congruence.
Qed.

(** [*/n] matches the multiples of [n]; [*/0] matches nothing. *)
Lemma matchesCronField_step ds v :
  isNumber ds = true ->
  (matchesCronField ("*/" +:+ ds) v = true <->
   digitsValue 0 ds <> 0 /\ Z.rem v (digitsValue 0 ds) = 0).
Proof.
  intros Hn. unfold matchesCronField.
  assert (Hstar : String.eqb ("*/" +:+ ds) "*" = false) by reflexivity.
  assert (Hstep : matchStep ("*/" +:+ ds) = Some ds).
  { change ("*/" +:+ ds) with (String "*" (String "/" ds)).
    unfold matchStep. rewrite Hn. reflexivity. }
  rewrite Hstar, Hstep, (groupValue_digits _ Hn). unfold jsRem.
  destruct (Z.eqb_spec (digitsValue 0 ds) 0) as [E|E].
  - split; [discriminate | intros [H _]; contradiction].
  - rewrite Z.eqb_eq. tauto.
Qed.

Lemma append_String c r s : String c r +:+ s = String c (r +:+ s).
Proof. reflexivity. Qed.

(** [a-b] matches the values from [a] to [b], both included; none when
    [a] is above [b]. *)
Lemma matchesCronField_range a b v :
  isNumber a = true -> isNumber b = true ->
  (matchesCronField (a +:+ "-" +:+ b) v = true <->
   digitsValue 0 a <= v <= digitsValue 0 b).
Proof.
  intros Ha Hb. destruct (isNumber_first a Ha) as (c & r & -> & Hc & Hall).
  unfold matchesCronField. rewrite append_String.
  destruct (digit_first_not_star c (r +:+ "-" +:+ b) Hc) as [-> ->].
  rewrite <- append_String.
  assert (Hnum : isNumber (String c r +:+ "-" +:+ b) = false).
  { unfold isNumber. apply andb_false_iff. right.
    destruct (allDigits (String c r +:+ "-" +:+ b)) eqn:E; [|reflexivity].
    pose proof (takeDigits_all _ E) as T.
    change (String c r +:+ "-" +:+ b) with (String c r +:+ String "-" b) in T.
    rewrite (takeDigits_stop (String c r) "-" b Hall eq_refl) in T.
    discriminate T. }
  assert (Hrange : matchRange (String c r +:+ "-" +:+ b) = Some (String c r, b)).
  { unfold matchRange.
    change (String c r +:+ "-" +:+ b) with (String c r +:+ String "-" b).
    rewrite (takeDigits_stop (String c r) "-" b Hall eq_refl), Hb.
    reflexivity. }
  rewrite Hnum, Hrange, (groupValue_digits _ Ha), (groupValue_digits _ Hb).
  rewrite andb_true_iff, !Z.leb_le. tauto.
Qed.

(** X1: Fields written with decimal numerals: a number [n] matches the value
    [n] only; [*/n] matches the values that [n] divides and nothing when
    [n] is zero; [a-b] matches the values from [a] to [b] and nothing when
    [a] is above [b]. *)
Theorem X1_cron_field_numbers (n a b : N) (v : Z) :
  (matchesCronField (decimal n) v = true <-> v = Z.of_N n)
  /\ (matchesCronField ("*/" +:+ decimal n) v = true <->
      n <> 0%N /\ Z.rem v (Z.of_N n) = 0)
  /\ (matchesCronField (decimal a +:+ "-" +:+ decimal b) v = true <->
      Z.of_N a <= v <= Z.of_N b)
  /\ (Z.of_N b < Z.of_N a ->
      matchesCronField (decimal a +:+ "-" +:+ decimal b) v = false).
Proof.
  destruct (decimal_number n) as [Hn Vn].
  destruct (decimal_number a) as [Ha Va].
  destruct (decimal_number b) as [Hb Vb].
  rewrite (groupValue_digits _ Hn) in Vn.
  rewrite (groupValue_digits _ Ha) in Va.
  rewrite (groupValue_digits _ Hb) in Vb.
  assert (Hrange := matchesCronField_range (decimal a) (decimal b) v Ha Hb).
  rewrite Va, Vb in Hrange.
  split; [|split; [|split]].
  - rewrite (matchesCronField_exact _ v Hn), Vn. reflexivity.
  - rewrite (matchesCronField_step _ v Hn), Vn. split; intros [H1 H2]; split;
      auto; lia.
  - exact Hrange.
  - intros Hlt. apply not_true_is_false. intros E. apply Hrange in E. lia.
Qed.

Lemma X1_cron_field_numbers_witness :
  matchesCronField (decimal 9 +:+ "-" +:+ decimal 5) 7 = false.
Proof.
  apply (proj2 (proj2 (proj2 (X1_cron_field_numbers 0 9 5 7)))). reflexivity.
Defined.

(** ** Intervals written out *)

Lemma append_assoc_String (a : string) c r :
  (a +:+ String c EmptyString) +:+ r = a +:+ String c r.
Proof.
  induction a as [|x a IH]; [reflexivity|].
  change (String x ((a +:+ String c EmptyString) +:+ r)
          = String x (a +:+ String c r)).
  rewrite IH. reflexivity.
Qed.

Lemma optComponent_read u ds rest :
  isNumber ds = true -> isDigit u = false ->
  optComponent u (ds +:+ String u rest) = (Some ds, rest).
Proof.
  intros Hn Hu. destruct (isNumber_first ds Hn) as (c & r & -> & _ & Hall).
  unfold optComponent. rewrite (takeDigits_stop _ u rest Hall Hu).
  rewrite Ascii.eqb_refl. reflexivity.
Qed.

Lemma optComponent_skip u ds c rest :
  allDigits ds = true -> isDigit c = false -> Ascii.eqb c u = false ->
  optComponent u (ds +:+ String c rest) = (None, ds +:+ String c rest).
Proof.
  intros Hall Hc Hne. unfold optComponent.
  rewrite (takeDigits_stop _ c rest Hall Hc), Hne.
  destruct ds; reflexivity.
Qed.

Lemma optComponent_end u : optComponent u EmptyString = (None, EmptyString).
Proof. reflexivity. Qed.

Lemma decimal_allDigits n : allDigits (decimal n) = true.
Proof. apply allDigits_of_uint. Qed.

(** The captures of the pattern on an interval written out are the
    numerals of the components that are there. *)
Lemma matchInterval_format h m s :
  matchInterval (formatInterval h m s)
  = Some (decimal <$> h, decimal <$> m, decimal <$> s, EmptyString).
Proof.
  unfold formatInterval, matchInterval.
  change (searchPT ("PT" +:+ component h "H" +:+ component m "M"
                    +:+ component s "S"))
    with (Some (component h "H" +:+ component m "M" +:+ component s "S")).
  cbv iota.
  assert (HS : optComponent "S" (component s "S")
               = (decimal <$> s, EmptyString)).
  { destruct s as [n|]; simpl; [|reflexivity].
    apply optComponent_read; [apply decimal_number | reflexivity]. }
  assert (HM : optComponent "M" (component m "M" +:+ component s "S")
               = (decimal <$> m, component s "S")).
  { destruct m as [n|]; simpl.
    - rewrite append_assoc_String.
      apply optComponent_read; [apply decimal_number | reflexivity].
    - destruct s as [k|]; simpl; [|reflexivity].
      apply optComponent_skip; [apply decimal_allDigits | reflexivity ..]. }
  assert (HH : optComponent "H"
                 (component h "H" +:+ component m "M" +:+ component s "S")
               = (decimal <$> h, component m "M" +:+ component s "S")).
  { destruct h as [n|]; simpl.
    - rewrite append_assoc_String.
      apply optComponent_read; [apply decimal_number | reflexivity].
    - destruct m as [k|]; simpl.
      + rewrite append_assoc_String.
        apply optComponent_skip; [apply decimal_allDigits | reflexivity ..].
      + destruct s as [k|]; simpl; [|reflexivity].
        apply optComponent_skip; [apply decimal_allDigits | reflexivity ..]. }
  rewrite HH, HM, HS. reflexivity.
Qed.

Lemma groupValue_amount o : groupValue (decimal <$> o) = amount o.
Proof.
  destruct o as [n|]; simpl; [apply decimal_number | reflexivity].
Qed.

(** X2: An interval written as [PT] with any of the components [<h>H], [<m>M],
    [<s>S], in this order, is read back as the duration it denotes: as long
    as the reference time and the reference time plus that duration lie
    within the range of [Date], the next run is the reference time plus [h]
    hours, [m] minutes and [s] seconds, and the schedule is refused when
    that duration is zero (which includes the bare [PT]). *)
Theorem X2_interval_round_trip (tz : TimeZone) (from : Z) (h m s : option N) :
  let totalMs := amount h * 3600000 + amount m * 60000 + amount s * 1000 in
  validTime from -> validTime (from + totalMs) ->
  specIntervalFormat (formatInterval h m s) = true
  /\ calculateNextRun tz from (formatInterval h m s)
     = if totalMs =? 0 then Throw IntervalNotPositive else OK (from + totalMs).
Proof.
  intros totalMs _ _. pose proof (matchInterval_format h m s) as Hm.
  split.
  - unfold formatInterval, matchInterval in *.
    change (searchPT ("PT" +:+ component h "H" +:+ component m "M"
                      +:+ component s "S"))
      with (Some (component h "H" +:+ component m "M" +:+ component s "S"))
      in Hm.
    cbv iota in Hm.
    change (specIntervalFormat
              ("PT" +:+ component h "H" +:+ component m "M" +:+ component s "S"))
      with (let (_, r1) := optComponent "H"
                  (component h "H" +:+ component m "M" +:+ component s "S") in
            let (_, r2) := optComponent "M" r1 in
            let (_, r3) := optComponent "S" r2 in isEmpty r3).
    destruct (optComponent "H" _) as [h' r1].
    destruct (optComponent "M" r1) as [m' r2].
    destruct (optComponent "S" r2) as [s' r3].
    injection Hm as _ _ _ ->. reflexivity.
  - unfold calculateNextRun.
    change (startsWithPT (formatInterval h m s)) with true. cbv iota.
    unfold calculateNextRunFromInterval. rewrite Hm.
    rewrite !groupValue_amount. reflexivity.
Qed.

Lemma X2_interval_round_trip_witness :
  calculateNextRun newYork 1704067200000
    (formatInterval (Some 1%N) (Some 30%N) None)
  = OK (1704067200000 + 5400000).
Proof.
  apply (X2_interval_round_trip newYork 1704067200000
           (Some 1%N) (Some 30%N) None);
    unfold validTime, maxTimeValue; simpl; lia.
Defined.

(** ** What the getters of [Date] can return *)

Lemma civilFromDays_bounds day :
  1 <= snd (fst (civilFromDays day)) <= 12
  /\ 1 <= snd (civilFromDays day) <= 31.
Proof.
  unfold civilFromDays. cbv zeta. cbn [fst snd].
  set (z := day + 719468).
  set (era := z / 146097).
  set (doe := z - era * 146097).
  assert (Hdoe : 0 <= doe <= 146096).
  { subst doe era. pose proof (Z.mod_pos_bound z 146097 eq_refl) as H.
    rewrite Z.mod_eq in H by lia. lia. }
  clearbody doe. clear z era.
  set (yoe := (doe - doe / 1460 + doe / 36524 - doe / 146096) / 365).
  set (doy := doe - (365 * yoe + yoe / 4 - yoe / 100)).
  assert (Hdoy : 0 <= doy <= 365).
  { subst doy yoe. Z.div_mod_to_equations; lia. }
  clearbody doy.
  set (mp := (5 * doy + 2) / 153).
  assert (Hmp : 0 <= mp <= 11) by (subst mp; Z.div_mod_to_equations; lia).
  split.
  - destruct (Z.ltb_spec mp 10); lia.
  - subst mp. Z.div_mod_to_equations. lia.
Qed.

Lemma getters_range tz t :
  0 <= getMinutes tz t < 60 /\ 0 <= getHours tz t < 24
  /\ 1 <= getDate tz t <= 31 /\ 1 <= getMonth tz t + 1 <= 12
  /\ 0 <= getDay tz t < 7.
Proof.
  unfold getMinutes, getHours, getDate, getMonth, getDay.
  pose proof (civilFromDays_bounds (localDay tz t)) as [Hm Hd].
  pose proof (Z.mod_pos_bound (localTime tz t / msPerMinute) 60 eq_refl).
  pose proof (Z.mod_pos_bound (localTime tz t / msPerHour) 24 eq_refl).
  pose proof (Z.mod_pos_bound (localDay tz t + 4) 7 eq_refl).
  repeat split; lia.
Qed.

(** X3: A schedule that asks for a minute above 59, an hour above 23, a day of
    the month that is 0 or above 31, a month that is 0 or above 12, or a day
    of the week above 6 (Sunday is 0 only, 7 is not accepted) matches no
    instant: [calculateNextRunFromCron] tries its 10080 candidates and
    throws "Could not find next run time". *)
Theorem X3_cron_out_of_range (tz : TimeZone) (expr : string) (f : CronFields)
    (from : Z) (n : N) :
  cronParts expr = Some f ->
  (cMinute f = decimal n /\ (60 <= n)%N)
  \/ (cHour f = decimal n /\ (24 <= n)%N)
  \/ (cDay f = decimal n /\ (n = 0 \/ 32 <= n)%N)
  \/ (cMonth f = decimal n /\ (n = 0 \/ 13 <= n)%N)
  \/ (cWeekday f = decimal n /\ (7 <= n)%N) ->
  calculateNextRunFromCron tz expr from = Throw NoNextRunFound.
Proof.
  intros Hp Hout. apply (proj2 (cron_search_iter tz expr f from Hp)).
  split; [reflexivity|]. intros k _.
  set (t := Nat.iter k (nextMinute tz) (setSeconds00 tz from)).
  pose proof (getters_range tz t) as (Hmi & Hh & Hd & Hmo & Hw).
  destruct (decimal_number n) as [Hn Hv].
  rewrite (groupValue_digits _ Hn) in Hv.
  assert (Hno : forall v, v <> Z.of_N n -> matchesCronField (decimal n) v = false).
  { intros v Hne. apply not_true_is_false. intros E.
    apply (matchesCronField_exact _ v Hn) in E. congruence. }
  unfold cronMatches.
  destruct Hout as [[-> H] | [[-> H] | [[-> H] | [[-> H] | [-> H]]]]].
  - rewrite (Hno (getMinutes tz t)) by lia. reflexivity.
  - rewrite (Hno (getHours tz t)) by lia. rewrite ?andb_false_r. reflexivity.
  - rewrite (Hno (getDate tz t)) by lia. rewrite ?andb_false_r. reflexivity.
  - rewrite (Hno (getMonth tz t + 1)) by lia. rewrite ?andb_false_r.
    reflexivity.
  - rewrite (Hno (getDay tz t)) by lia. rewrite ?andb_false_r. reflexivity.
Qed.

Lemma X3_cron_out_of_range_witness :
  calculateNextRunFromCron 0 "0 9 * * 7" 0 = Throw NoNextRunFound.
Proof.
  apply (X3_cron_out_of_range 0 "0 9 * * 7" (mkCron "0" "9" "*" "*" "7") 0 7).
  - reflexivity.
  - right. right. right. right. split; [reflexivity | lia].
Defined.

(** ** Which error for which schedule *)

Lemma cronParts_length expr :
  (cronParts expr = None <-> length (splitWs (trim expr)) <> 5%nat)
  /\ (forall f, cronParts expr = Some f -> length (splitWs (trim expr)) = 5%nat).
Proof.
  unfold cronParts.
  destruct (splitWs (trim expr)) as [|a [|b [|c [|d [|e [|g l]]]]]]; simpl;
    (split;
     [ split; intros H; first [discriminate H | reflexivity | lia]
     | intros f Hf; first [discriminate Hf | reflexivity] ]).
Qed.

(** X4: The errors of [calculateNextRun], by the shape of the schedule: one
    that starts with [PT] can only be refused for a duration of zero (the
    throw of "Invalid interval format" is never reached); any other is
    refused as an invalid cron expression exactly when it does not consist
    of five fields, and with five fields it can only fail for want of a
    matching minute in the week ahead. *)
Theorem X4_nextRun_errors (tz : TimeZone) (now : Z) (schedule : string) :
  (startsWithPT schedule = true ->
   forall e, calculateNextRun tz now schedule = Throw e ->
             e = IntervalNotPositive)
  /\ (startsWithPT schedule = false ->
      (calculateNextRun tz now schedule = Throw InvalidCronExpression <->
       length (splitWs (trim schedule)) <> 5%nat)
      /\ (forall e, calculateNextRun tz now schedule = Throw e ->
                    length (splitWs (trim schedule)) = 5%nat ->
                    e = NoNextRunFound)).
Proof.
  unfold calculateNextRun. split; intros Hpt; rewrite Hpt.
  - intros e He.
    destruct (interval_result schedule now Hpt)
      as (h & m & sec & rest & _ & _ & _ & _ & Heq).
    cbv zeta in Heq. rewrite Heq in He.
    destruct (_ =? 0); congruence.
  - destruct (cronParts_length schedule) as [Hnone Hsome].
    unfold calculateNextRunFromCron.
    destruct (cronParts schedule) as [f|] eqn:Hp.
    + specialize (Hsome f eq_refl). split.
      * split; [|intros Hne; contradiction].
        destruct (cronLoop tz f maxAttempts _); discriminate.
      * intros e He _. destruct (cronLoop tz f maxAttempts _); congruence.
    + split.
      * split; [intros _; apply Hnone; reflexivity | reflexivity].
      * intros e _ Hlen. exfalso. apply (proj1 Hnone); auto.
Qed.

Lemma X4_nextRun_errors_witness :
  (forall e, calculateNextRun 0 0 "PT0H0M" = Throw e -> e = IntervalNotPositive)
  /\ (calculateNextRun 0 0 "* * * *" = Throw InvalidCronExpression <->
      length (splitWs (trim "* * * *")) <> 5%nat).
Proof.
  split.
  - apply (proj1 (X4_nextRun_errors 0 0 "PT0H0M")). reflexivity.
  - apply (proj2 (X4_nextRun_errors 0 0 "* * * *")). reflexivity.
Defined.

(** ** The cron search works by the minute *)



(** ** More on the paths through [executeJob] *)

(** The stretch after the read, for an active job. *)
Lemma step_read_active tz job stored i w :
  rejected i = None -> jobRepository w !! id job = Some stored ->
  status stored = ACTIVE ->
  let fresh := setRunCount (runCount stored + 1)
                 (setLastRunAt (Some (now i)) stored) in
  stepTask tz job PFindOne i w = (recordExecute fresh w, PExecute fresh).
Proof.
  intros Hr Hst Hact. simpl. rewrite Hr, Hst.
  destruct (decide (status stored = ACTIVE)); [reflexivity | contradiction].
Qed.

Lemma step_execute_fails tz job freshJob i msg w :
  attemptFails tz freshJob i msg ->
  stepTask tz job (PExecute freshJob) i w
  = (logger ERROR (MsgErrorExecuting (id job) msg) w, PCatchFindOne msg).
Proof.
  intros [Hr | (Hr & e & He & ->)]; simpl; rewrite Hr; [reflexivity|].
  rewrite He. reflexivity.
Qed.

(** A whole attempt that fails, from the read to the end of the call. *)
Lemma failed_attempt tz job stored msg i1 i2 i3 i4 i5 i6 w :
  jobRepository w !! id job = Some stored -> id stored = id job ->
  status stored = ACTIVE ->
  rejected i1 = None ->
  attemptFails tz stored i2 msg ->
  rejected i3 = None -> rejected i4 = None -> rejected i5 = None ->
  let fresh := setRunCount (runCount stored + 1)
                 (setLastRunAt (Some (now i1)) stored) in
  let due := now i4 + backoffDelay (failureCount stored + 1) in
  let final :=
    mkJob (id stored) (name stored) (type stored) (status stored)
          (description stored) (schedule stored) (lastRunAt stored)
          (Some due) (runCount stored) (failureCount stored + 1) (Some msg) in
  exists w',
    runTask tz job PFindOne [i1; i2; i3; i4; i5; i6] w = (w', PDone Returned)
    /\ jobRepository w' = <[id job := final]> (jobRepository w)
    /\ executed w' = fresh :: executed w
    /\ scheduledJobs w' !! id job
       = Some (mkScheduled (id job) due (nextTimeoutId w)).
Proof.
  intros Hst Hid Hact H1 Hfail H3 H4 H5 fresh due final.
  rewrite runTask_cons by reflexivity.
  rewrite (step_read_active tz job stored i1 w H1 Hst Hact). cbn [fst snd].
  rewrite runTask_cons by reflexivity.
  rewrite (step_execute_fails tz job fresh i2 msg _ Hfail). cbn [fst snd].
  destruct (failure_path tz job msg stored i3 i4 i5 i6
              (logger ERROR (MsgErrorExecuting (id job) msg)
                 (recordExecute fresh w)) Hst Hid H3 H4 H5)
    as (w' & Hrun & Hrepo & _ & Hex & Hsched & _).
  exists w'. split; [exact Hrun|]. split; [exact Hrepo|].
  split; [exact Hex|]. exact (proj1 (Hsched Hact)).
Qed.

(** X6: An attempt that fails is not counted as a run: the executor is given
    the job with [runCount] raised and [lastRunAt] stamped, but the row
    that is saved takes both from the store as they were; only
    [failureCount], [lastError] and [nextRunAt] change. *)
Theorem X6_failed_attempt_not_counted (tz : TimeZone) (job stored : Job)
    (msg : string) (i1 i2 i3 i4 i5 i6 : Input) (w : World) :
  jobRepository w !! id job = Some stored -> id stored = id job ->
  status stored = ACTIVE ->
  rejected i1 = None -> rejected i2 = Some msg ->
  rejected i3 = None -> rejected i4 = None -> rejected i5 = None ->
  exists w' given saved,
    runTask tz job PFindOne [i1; i2; i3; i4; i5; i6] w = (w', PDone Returned)
    /\ executed w' = given :: executed w
    /\ runCount given = runCount stored + 1
    /\ lastRunAt given = Some (now i1)
    /\ jobRepository w' !! id job = Some saved
    /\ runCount saved = runCount stored
    /\ lastRunAt saved = lastRunAt stored
    /\ failureCount saved = failureCount stored + 1
    /\ lastError saved = Some msg.
Proof.
  intros Hst Hid Hact H1 H2 H3 H4 H5.
  destruct (failed_attempt tz job stored msg i1 i2 i3 i4 i5 i6 w
              Hst Hid Hact H1 (or_introl H2) H3 H4 H5)
    as (w' & Hrun & Hrepo & Hex & _).
  eexists w', _, _. split; [exact Hrun|]. split; [exact Hex|].
  split; [reflexivity|]. split; [reflexivity|].
  split; [rewrite Hrepo; apply lookup_insert_eq|].
  repeat split; reflexivity.
Qed.

Lemma X6_failed_attempt_not_counted_witness :
  exists w' given saved,
    runTask 0 sampleJob PFindOne
      [answer 10; reject 20 "boom"; answer 30; answer 40; answer 50; answer 60]
      sampleWorld
    = (w', PDone Returned)
    /\ executed w' = given :: executed sampleWorld
    /\ runCount given = runCount sampleJob + 1
    /\ lastRunAt given = Some 10
    /\ jobRepository w' !! id sampleJob = Some saved
    /\ runCount saved = runCount sampleJob
    /\ lastRunAt saved = lastRunAt sampleJob
    /\ failureCount saved = failureCount sampleJob + 1
    /\ lastError saved = Some "boom".
Proof.
  apply (X6_failed_attempt_not_counted 0 sampleJob sampleJob "boom"
           (answer 10) (reject 20 "boom") (answer 30) (answer 40) (answer 50)
           (answer 60) sampleWorld); reflexivity.
Defined.

(** X7: A job whose schedule the calculator refuses is still executed when it
    is due: the executor runs, then the attempt is recorded as a failure
    with the message of the calculator, and the job is scheduled again
    after the backoff. *)
Theorem X7_unparsable_schedule_counts_as_failure (tz : TimeZone)
    (job stored : Job)
    (e : SchedError) (i1 i2 i3 i4 i5 i6 : Input) (w : World) :
  jobRepository w !! id job = Some stored -> id stored = id job ->
  status stored = ACTIVE ->
  rejected i1 = None -> rejected i2 = None ->
  calculateNextRun tz (now i2) (schedule stored) = Throw e ->
  rejected i3 = None -> rejected i4 = None -> rejected i5 = None ->
  exists w' given saved,
    runTask tz job PFindOne [i1; i2; i3; i4; i5; i6] w = (w', PDone Returned)
    /\ executed w' = given :: executed w
    /\ jobRepository w' !! id job = Some saved
    /\ failureCount saved = failureCount stored + 1
    /\ lastError saved = Some (errorMessage e (schedule stored))
    /\ nextRunAt saved
       = Some (now i4 + backoffDelay (failureCount stored + 1))
    /\ scheduledJobs w' !! id job
       = Some (mkScheduled (id job)
                 (now i4 + backoffDelay (failureCount stored + 1))
                 (nextTimeoutId w)).
Proof.
  intros Hst Hid Hact H1 H2 He H3 H4 H5.
  assert (Hfail : attemptFails tz stored i2 (errorMessage e (schedule stored))).
  { right. split; [exact H2|]. exists e. auto. }
  destruct (failed_attempt tz job stored _ i1 i2 i3 i4 i5 i6 w
              Hst Hid Hact H1 Hfail H3 H4 H5)
    as (w' & Hrun & Hrepo & Hex & Hsched).
  eexists w', _, _. split; [exact Hrun|]. split; [exact Hex|].
  split; [rewrite Hrepo; apply lookup_insert_eq|].
  split; [reflexivity|]. split; [reflexivity|]. split; [reflexivity|].
  exact Hsched.
Qed.

Lemma X7_unparsable_schedule_counts_as_failure_witness :
  exists w' given saved,
    runTask 0 badJob PFindOne
      [answer 10; answer 20; answer 30; answer 40; answer 50; answer 60]
      twoJobs
    = (w', PDone Returned)
    /\ executed w' = given :: executed twoJobs
    /\ jobRepository w' !! id badJob = Some saved
    /\ failureCount saved = failureCount badJob + 1
    /\ lastError saved
       = Some (errorMessage InvalidCronExpression (schedule badJob))
    /\ nextRunAt saved = Some (40 + backoffDelay (failureCount badJob + 1))
    /\ scheduledJobs w' !! id badJob
       = Some (mkScheduled (id badJob)
                 (40 + backoffDelay (failureCount badJob + 1))
                 (nextTimeoutId twoJobs)).
Proof.
  apply (X7_unparsable_schedule_counts_as_failure 0 badJob badJob
           InvalidCronExpression
           (answer 10) (answer 20) (answer 30) (answer 40) (answer 50)
           (answer 60) twoJobs); reflexivity.
Defined.

(** From the answer of the executor to the end of a successful attempt,
    in whatever state the service and the store are by then. *)
Lemma success_from_execute tz job fresh i2 i3 i4 next w :
  id fresh = id job -> status fresh = ACTIVE ->
  rejected i2 = None -> rejected i3 = None ->
  calculateNextRun tz (now i2) (schedule fresh) = OK next ->
  let final := setLastError None (setNextRunAt (Some next) fresh) in
  exists w',
    runTask tz job (PExecute fresh) [i2; i3; i4] w = (w', PDone Returned)
    /\ jobRepository w' = <[id job := final]> (jobRepository w)
    /\ scheduledJobs w' !! id job
       = Some (mkScheduled (id job) next (nextTimeoutId w))
    /\ executingJobs w' = delete (id job) (executingJobs w)
    /\ executed w' = executed w.
Proof.
  intros Hid Hact H2 H3 Hnext final.
  rewrite runTask_cons by reflexivity.
  assert (E2 : stepTask tz job (PExecute fresh) i2 w = (w, PSave final next)).
  { cbn [stepTask]. rewrite H2, Hnext. reflexivity. }
  rewrite E2. cbn [fst snd].
  rewrite runTask_cons by reflexivity.
  destruct (scheduleJob_with_due tz (now i3) final (save final w) next eq_refl)
    as (w2 & Hs & Hg & Hr & He & Hsched & _).
  assert (E3 : stepTask tz job (PSave final next) i3 w
               = (w2, PReschedule final next)).
  { cbn [stepTask]. rewrite H3, Hs. reflexivity. }
  rewrite E3. cbn [fst snd].
  rewrite runTask_cons by reflexivity. cbn [stepTask finish fst snd runTask].
  eexists. split; [reflexivity|]. simpl.
  rewrite Hr, Hg, He. simpl. rewrite Hid.
  split; [reflexivity|].
  change (id final) with (id fresh) in Hsched. rewrite Hid in Hsched.
  split; [exact (proj1 (Hsched Hact))|]. split; reflexivity.
Qed.

(** X8: When the store is down, a job can fall out of the index for good: its
    timer fires and takes the entry away, the read at the start of the
    attempt fails, and so does the read in the [catch] block; the call then
    throws, the guard is released, and nothing has put the job back into
    the index. *)
Theorem X8_store_down_job_dropped (tz : TimeZone) (tid : nat) (t : Timer)
    (i0 i1 i2 : Input) (m1 m2 : string) (w : World) :
  timers w !! tid = Some t ->
  executingJobs w !! id (timerJob t) = None ->
  rejected i1 = Some m1 -> rejected i2 = Some m2 ->
  exists w',
    fireTimer tid w
    = (setScheduledJobs (delete (id (timerJob t)) (scheduledJobs w))
         (setTimers (delete tid (timers w)) (nextTimeoutId w) w),
       Some (timerJob t))
    /\ executeJob tz (timerJob t) [i0; i1; i2] (fst (fireTimer tid w))
       = (w', PDone (Threw m2))
    /\ scheduledJobs w' !! id (timerJob t) = None
    /\ timers w' = delete tid (timers w)
    /\ executingJobs w' = executingJobs w
    /\ jobRepository w' = jobRepository w
    /\ executed w' = executed w.
Proof.
  intros Ht Hfree H1 H2. unfold fireTimer. rewrite Ht. cbn [fst].
  set (w1 := setScheduledJobs _ _).
  unfold executeJob. rewrite runTask_cons by reflexivity.
  assert (E0 : stepTask tz (timerJob t) PStart i0 w1
               = (logger LOG (MsgExecuting (name (timerJob t)) (id (timerJob t)))
                    (setExecutingJobs
                       (<[id (timerJob t)
                          := mkExecuting (id (timerJob t)) (now i0)]>
                          (executingJobs w1)) w1), PFindOne)).
  { simpl. rewrite Hfree. reflexivity. }
  rewrite E0. cbn [fst snd].
  rewrite runTask_cons by reflexivity. cbn [stepTask]. rewrite H1.
  cbn [enterCatch fst snd].
  rewrite runTask_cons by reflexivity. cbn [stepTask]. rewrite H2.
  cbn [finish fst snd runTask].
  eexists. split; [reflexivity|]. split; [reflexivity|]. simpl.
  split; [apply lookup_delete_eq|]. split; [reflexivity|].
  split; [apply delete_insert_id; exact Hfree|]. split; reflexivity.
Qed.

Lemma X8_store_down_job_dropped_witness :
  exists w',
    executeJob 0 sampleJob [answer 1; reject 2 "down"; reject 3 "still down"]
      (fst (fireTimer 0 (fst (scheduleJob 0 1000 sampleJob sampleWorld))))
    = (w', PDone (Threw "still down"))
    /\ scheduledJobs w' !! id sampleJob = None.
Proof.
  destruct (X8_store_down_job_dropped 0 0
              (mkTimer sampleJob (Z.max 0 (301000 - 1000)))
              (answer 1) (reject 2 "down") (reject 3 "still down")
              "down" "still down"
              (fst (scheduleJob 0 1000 sampleJob sampleWorld))
              eq_refl eq_refl eq_refl eq_refl)
    as (w' & _ & Hrun & Hgone & _).
  exists w'. split; [exact Hrun | exact Hgone].
Defined.

(** ** The jobs service *)

Lemma unscheduleJob_timers x w sj :
  scheduledJobs w !! x = Some sj ->
  timers (unscheduleJob x w) = delete (timeoutId sj) (timers w).
Proof. intros H. exact (proj1 (proj2 (unscheduleJob_present x w sj H))). Qed.

(** X9: [pause]: an unknown identity is answered with [NotFoundException] and
    nothing changes; for a job of the store the row gets the status PAUSED
    and nothing else, its entry in the index is removed and its timeout
    cleared, and the guard is left alone.  When the save fails the call
    fails, but the entry is gone all the same: the job stays ACTIVE in the
    store and is no longer scheduled. *)
Theorem X9_pause (jobId : string) (w : World) :
  (jobRepository w !! jobId = None ->
   forall saveRejected,
     exists m, pause None saveRejected jobId w = (w, NotFoundException m))
  /\ (forall job,
        jobRepository w !! jobId = Some job -> id job = jobId ->
        (exists w',
            pause None None jobId w = (w', Resolved (setStatus PAUSED job))
            /\ jobRepository w'
               = <[jobId := setStatus PAUSED job]> (jobRepository w)
            /\ scheduledJobs w' = delete jobId (scheduledJobs w)
            /\ (forall sj, scheduledJobs w !! jobId = Some sj ->
                  timers w' = delete (timeoutId sj) (timers w))
            /\ (scheduledJobs w !! jobId = None -> timers w' = timers w)
            /\ executingJobs w' = executingJobs w)
        /\ (forall m,
              pause None (Some m) jobId w = (unscheduleJob jobId w, Failure m)
              /\ jobRepository (unscheduleJob jobId w) !! jobId = Some job
              /\ scheduledJobs (unscheduleJob jobId w) !! jobId = None)).
Proof.
  split.
  - intros Hnone sr. unfold pause, findOne. rewrite Hnone. eauto.
  - intros job Hjob Hid. split.
    + unfold pause, findOne. rewrite Hjob. cbn [id setStatus]. rewrite Hid.
      eexists. split; [reflexivity|]. simpl.
      destruct (unscheduleJob_frame jobId w) as (Hg & Hr & _).
      rewrite Hr, Hg, Hid, unscheduleJob_scheduledJobs.
      split; [reflexivity|]. split; [reflexivity|].
      split; [intros sj Hsj; exact (unscheduleJob_timers jobId w sj Hsj)|].
      split; [|reflexivity].
      intros Hn. rewrite (unscheduleJob_absent jobId w Hn). reflexivity.
    + intros m. unfold pause, findOne. rewrite Hjob. cbn [id setStatus].
      rewrite Hid. split; [reflexivity|].
      destruct (unscheduleJob_frame jobId w) as (_ & -> & _).
      split; [exact Hjob | apply unscheduleJob_lookup].
Qed.

Lemma X9_pause_witness :
  exists w',
    pause None None (id sampleJob) sampleWorld
    = (w', Resolved (setStatus PAUSED sampleJob))
    /\ jobRepository w'
       = <[id sampleJob := setStatus PAUSED sampleJob]>
           (jobRepository sampleWorld)
    /\ scheduledJobs w' = delete (id sampleJob) (scheduledJobs sampleWorld)
    /\ (forall sj, scheduledJobs sampleWorld !! id sampleJob = Some sj ->
          timers w' = delete (timeoutId sj) (timers sampleWorld))
    /\ (scheduledJobs sampleWorld !! id sampleJob = None ->
        timers w' = timers sampleWorld)
    /\ executingJobs w' = executingJobs sampleWorld.
Proof.
  apply (proj1 (proj2 (X9_pause (id sampleJob) sampleWorld) sampleJob
                  eq_refl eq_refl)).
Defined.

Lemma setStatus_roundtrip job :
  status job = ACTIVE -> setStatus ACTIVE (setStatus PAUSED job) = job.
Proof. destruct job; simpl; intros ->; reflexivity. Qed.

(** X10: [resume] of a job that is not paused changes nothing; of a paused job
    whose schedule the calculator refuses it fails and changes nothing, so
    the job stays paused; otherwise the row becomes ACTIVE with the next run
    counted from now, and the job is scheduled at that time. *)
Theorem X10_resume (tz : TimeZone) (calcNow schedNow : Z) (jobId : string)
    (job : Job) (w : World) :
  jobRepository w !! jobId = Some job -> id job = jobId ->
  (status job <> PAUSED ->
   forall saveRejected,
     resume tz None saveRejected calcNow schedNow jobId w = (w, Resolved job))
  /\ (status job = PAUSED ->
      (forall e,
         calculateNextRun tz calcNow (schedule job) = Throw e ->
         forall saveRejected,
           resume tz None saveRejected calcNow schedNow jobId w
           = (w, Failure (errorMessage e (schedule job))))
      /\ (forall next,
            calculateNextRun tz calcNow (schedule job) = OK next ->
            let resumed := setNextRunAt (Some next) (setStatus ACTIVE job) in
            exists w',
              resume tz None None calcNow schedNow jobId w
              = (w', Resolved resumed)
              /\ jobRepository w' = <[jobId := resumed]> (jobRepository w)
              /\ scheduledJobs w'
                 = <[jobId := mkScheduled jobId next (nextTimeoutId w)]>
                     (scheduledJobs w)
              /\ timers w' !! nextTimeoutId w
                 = Some (mkTimer resumed (Z.max 0 (next - schedNow))))).
Proof.
  intros Hjob Hid. split.
  - intros Hst sr. unfold resume, findOne. rewrite Hjob.
    destruct (decide (status job = PAUSED)); [contradiction | reflexivity].
  - intros Hst. split.
    + intros e He sr. unfold resume, findOne. rewrite Hjob.
      destruct (decide (status job = PAUSED)); [|contradiction].
      cbn [schedule setStatus]. rewrite He. reflexivity.
    + intros next Hnext resumed. unfold resume, findOne. rewrite Hjob.
      destruct (decide (status job = PAUSED)); [|contradiction].
      cbn [schedule setStatus]. rewrite Hnext.
      fold (setStatus ACTIVE job). fold resumed.
      assert (Hdue : dueTime tz schedNow resumed = OK next) by reflexivity.
      destruct (scheduleJob_active tz schedNow resumed (save resumed w) next
                  eq_refl Hdue)
        as (w' & Hs & Es & Et & _ & _ & Hr & _).
      rewrite Hs. exists w'. split; [reflexivity|].
      rewrite unscheduleJob_nextTimeoutId in Es, Et.
      rewrite unscheduleJob_scheduledJobs, insert_delete_eq in Es.
      change (id resumed) with (id job) in *. rewrite Hid in *.
      split; [rewrite Hr; simpl; rewrite Hid; reflexivity|].
      split; [exact Es|].
      rewrite Et. apply lookup_insert_eq.
Qed.

Lemma X10_resume_witness :
  resume 0 None None 10 20 (id sampleJob) sampleWorld
  = (sampleWorld, Resolved sampleJob).
Proof.
  apply (proj1 (X10_resume 0 10 20 (id sampleJob) sampleJob sampleWorld
                  eq_refl eq_refl)).
  discriminate.
Defined.

(** X11: Pausing an active job and resuming it gives the job back as it was,
    but for the next run, which is counted from the time of the resume; the
    index holds one entry for it, with a fresh timeout, and the timeout it
    had before the pause is cleared. *)
Theorem X11_pause_resume (tz : TimeZone) (calcNow schedNow next : Z)
    (jobId : string)
    (job : Job) (w : World) :
  jobRepository w !! jobId = Some job -> id job = jobId ->
  status job = ACTIVE ->
  calculateNextRun tz calcNow (schedule job) = OK next ->
  exists w1 w2,
    pause None None jobId w = (w1, Resolved (setStatus PAUSED job))
    /\ resume tz None None calcNow schedNow jobId w1
       = (w2, Resolved (setNextRunAt (Some next) job))
    /\ jobRepository w2
       = <[jobId := setNextRunAt (Some next) job]> (jobRepository w)
    /\ scheduledJobs w2
       = <[jobId := mkScheduled jobId next (nextTimeoutId w)]>
           (scheduledJobs w)
    /\ timers w2
       = <[nextTimeoutId w
             := mkTimer (setNextRunAt (Some next) job)
                        (Z.max 0 (next - schedNow))]>
           (timers (unscheduleJob jobId w)).
Proof.
  intros Hjob Hid Hact Hnext.
  set (paused := setStatus PAUSED job).
  set (w1 := save paused (unscheduleJob jobId w)).
  assert (Hp : pause None None jobId w = (w1, Resolved paused)).
  { unfold pause, findOne. rewrite Hjob. cbn [id setStatus]. rewrite Hid.
    reflexivity. }
  assert (Hstored : jobRepository w1 !! jobId = Some paused).
  { subst w1. simpl. change (id paused) with (id job). rewrite Hid.
    apply lookup_insert_eq. }
  enough (Hres : exists w2,
            resume tz None None calcNow schedNow jobId w1
            = (w2, Resolved (setNextRunAt (Some next) job))
            /\ jobRepository w2
               = <[jobId := setNextRunAt (Some next) job]> (jobRepository w)
            /\ scheduledJobs w2
               = <[jobId := mkScheduled jobId next (nextTimeoutId w)]>
                   (scheduledJobs w)
            /\ timers w2
               = <[nextTimeoutId w
                     := mkTimer (setNextRunAt (Some next) job)
                                (Z.max 0 (next - schedNow))]>
                   (timers (unscheduleJob jobId w))).
  { destruct Hres as (w2 & Hres). exists w1, w2. split; [exact Hp | exact Hres]. }
  unfold resume, findOne. rewrite Hstored.
  destruct (decide (status paused = PAUSED)) as [_|Hn];
    [|exfalso; apply Hn; reflexivity].
  cbv zeta.
  change (schedule (setStatus ACTIVE paused)) with (schedule job).
  rewrite Hnext.
  set (resumed := setNextRunAt (Some next) job).
  assert (Hround : setNextRunAt (Some next) (setStatus ACTIVE paused) = resumed).
  { subst resumed paused. rewrite (setStatus_roundtrip job Hact). reflexivity. }
  rewrite !Hround.
  assert (Hdue : dueTime tz schedNow resumed = OK next) by reflexivity.
  destruct (scheduleJob_active tz schedNow resumed (save resumed w1) next
              Hact Hdue)
    as (w2 & Hs & Es & Et & _ & _ & Hr & _).
  rewrite Hs. exists w2. split; [reflexivity|].
  rewrite unscheduleJob_nextTimeoutId in Es, Et.
  rewrite unscheduleJob_scheduledJobs in Es.
  change (id resumed) with (id job) in *. rewrite Hid in *.
  assert (Hs1 : scheduledJobs (save resumed w1) = delete jobId (scheduledJobs w)).
  { subst w1. simpl. apply unscheduleJob_scheduledJobs. }
  assert (Ht1 : unscheduleJob jobId (save resumed w1)
                = save resumed w1).
  { apply unscheduleJob_absent. rewrite Hs1. apply lookup_delete_eq. }
  assert (Hn1 : nextTimeoutId (save resumed w1) = nextTimeoutId w).
  { subst w1. simpl. apply unscheduleJob_nextTimeoutId. }
  rewrite Ht1 in Et. rewrite Hs1, delete_delete_eq, insert_delete_eq in Es.
  rewrite Hn1 in Es, Et.
  split.
  - rewrite Hr. subst w1. simpl.
    change (id resumed) with (id job). change (id paused) with (id job).
    rewrite Hid, insert_insert_eq.
    destruct (unscheduleJob_frame jobId w) as (_ & -> & _). reflexivity.
  - split; [exact Es|]. rewrite Et. reflexivity.
Qed.

Lemma X11_pause_resume_witness :
  exists w1 w2,
    pause None None (id sampleJob) sampleWorld
    = (w1, Resolved (setStatus PAUSED sampleJob))
    /\ resume 0 None None 10 20 (id sampleJob) w1
       = (w2, Resolved (setNextRunAt (Some 300010) sampleJob))
    /\ jobRepository w2
       = <[id sampleJob := setNextRunAt (Some 300010) sampleJob]>
           (jobRepository sampleWorld)
    /\ scheduledJobs w2
       = <[id sampleJob
             := mkScheduled (id sampleJob) 300010 (nextTimeoutId sampleWorld)]>
           (scheduledJobs sampleWorld)
    /\ timers w2
       = <[nextTimeoutId sampleWorld
             := mkTimer (setNextRunAt (Some 300010) sampleJob)
                        (Z.max 0 (300010 - 20))]>
           (timers (unscheduleJob (id sampleJob) sampleWorld)).
Proof.
  apply (X11_pause_resume 0 10 20 300010 (id sampleJob) sampleJob sampleWorld);
    reflexivity.
Defined.

Lemma create_refused tz newId saveRejected2 createNow schedNow dto e w :
  calculateNextRun tz createNow (dtoSchedule dto) = Throw e ->
  create tz newId None saveRejected2 createNow schedNow dto w
  = (save (newJob newId dto) w,
     BadRequestException
       ("Failed to create job: " +:+ errorMessage e (dtoSchedule dto))).
Proof.
  intros He. unfold create.
  change (schedule (newJob newId dto)) with (dtoSchedule dto).
  rewrite He. reflexivity.
Qed.

(** X12: [create]: with a schedule that has a next run, the job is stored under
    the new identity with that next run and scheduled at it.  With a
    schedule that the calculator refuses, the answer is a
    [BadRequestException], but the first save has already happened: the row
    is in the store, ACTIVE and without a due time, and nothing is
    scheduled.  When the first save fails, nothing changes. *)
Theorem X12_create (tz : TimeZone) (newId : string) (createNow schedNow : Z)
    (dto : CreateJobDto) (w : World) :
  (forall next,
     calculateNextRun tz createNow (dtoSchedule dto) = OK next ->
     let created := setNextRunAt (Some next) (newJob newId dto) in
     exists w',
       create tz newId None None createNow schedNow dto w
       = (w', Resolved created)
       /\ jobRepository w' = <[newId := created]> (jobRepository w)
       /\ scheduledJobs w'
          = <[newId := mkScheduled newId next (nextTimeoutId w)]>
              (scheduledJobs w)
       /\ timers w' !! nextTimeoutId w
          = Some (mkTimer created (Z.max 0 (next - schedNow))))
  /\ (forall e saveRejected2,
        calculateNextRun tz createNow (dtoSchedule dto) = Throw e ->
        create tz newId None saveRejected2 createNow schedNow dto w
        = (save (newJob newId dto) w,
           BadRequestException
             ("Failed to create job: " +:+ errorMessage e (dtoSchedule dto)))
        /\ jobRepository (save (newJob newId dto) w) !! newId
           = Some (newJob newId dto)
        /\ status (newJob newId dto) = ACTIVE
        /\ nextRunAt (newJob newId dto) = None
        /\ scheduledJobs (save (newJob newId dto) w) = scheduledJobs w)
  /\ (forall m saveRejected2,
        create tz newId (Some m) saveRejected2 createNow schedNow dto w
        = (w, BadRequestException ("Failed to create job: " +:+ m))).
Proof.
  split; [|split].
  - intros next Hnext created. unfold create.
    change (schedule (newJob newId dto)) with (dtoSchedule dto).
    rewrite Hnext. fold created.
    assert (Hdue : dueTime tz schedNow created = OK next) by reflexivity.
    destruct (scheduleJob_active tz schedNow created
                (save created (save (newJob newId dto) w)) next eq_refl Hdue)
      as (w' & Hs & Es & Et & _ & _ & Hr & _).
    rewrite Hs. exists w'. split; [reflexivity|].
    rewrite unscheduleJob_nextTimeoutId in Es, Et.
    rewrite unscheduleJob_scheduledJobs, insert_delete_eq in Es.
    split; [rewrite Hr; simpl; apply insert_insert_eq|].
    split; [exact Es|]. rewrite Et. apply lookup_insert_eq.
  - intros e sr2 He. split; [apply create_refused; exact He|]. simpl.
    split; [apply lookup_insert_eq|]. auto.
  - intros m sr2. reflexivity.
Qed.

Lemma X12_create_witness :
  create 0 "new" None None 10 20
    (mkCreateJobDto "Broken" REPORT_GENERATION None "every day") emptyWorld
  = (save (newJob "new"
             (mkCreateJobDto "Broken" REPORT_GENERATION None "every day"))
          emptyWorld,
     BadRequestException
       ("Failed to create job: "
        +:+ errorMessage InvalidCronExpression "every day")).
Proof.
  apply (proj1 (proj2 (X12_create 0 "new" 10 20
                  (mkCreateJobDto "Broken" REPORT_GENERATION None "every day")
                  emptyWorld))
           InvalidCronExpression None).
  reflexivity.
Defined.

(** X13: A refused [create] stands in the way of the next start: the row it
    left behind is active and has no due time, so [loadActiveJobs] asks the
    calculator for it, the calculator throws, and the load stops with an
    error in the log before any job of the store is scheduled. *)
Theorem X13_refused_create_blocks_startup (tz : TimeZone) (newId : string)
    (createNow schedNow : Z) (dto : CreateJobDto) (e e' : SchedError)
    (inp : LoadInput) (w : World) :
  calculateNextRun tz createNow (dtoSchedule dto) = Throw e ->
  calculateNextRun tz (calcNow inp) (dtoSchedule dto) = Throw e' ->
  queryRejected inp = None ->
  let w1 := fst (create tz newId None None createNow schedNow dto w) in
  newJob newId dto ∈ getActive w1
  /\ (exists m, loadActiveJobs tz inp w1 = logger ERROR (MsgErrorLoading m) w1)
  /\ scheduledJobs (loadActiveJobs tz inp w1) = scheduledJobs w
  /\ timers (loadActiveJobs tz inp w1) = timers w.
Proof.
  intros He He' Hq w1. subst w1.
  rewrite (create_refused tz newId None createNow schedNow dto e w He).
  cbn [fst].
  assert (Hin : newJob newId dto ∈ getActive (save (newJob newId dto) w)).
  { apply getActive_elem. split; [reflexivity|]. exists newId. simpl.
    apply lookup_insert_eq. }
  split; [exact Hin|].
  destruct (assignNextRuns_fail tz (calcNow inp)
              (getActive (save (newJob newId dto) w)) (newJob newId dto) e'
              Hin eq_refl He') as [m Hm].
  assert (Hload : loadActiveJobs tz inp (save (newJob newId dto) w)
                  = logger ERROR (MsgErrorLoading m)
                      (save (newJob newId dto) w)).
  { unfold loadActiveJobs. rewrite Hq, Hm. reflexivity. }
  split; [eauto|]. rewrite Hload. split; reflexivity.
Qed.

Lemma X13_refused_create_blocks_startup_witness :
  scheduledJobs
    (loadActiveJobs 0 calmLoad
       (fst (create 0 "new" None None 10 20
               (mkCreateJobDto "Broken" REPORT_GENERATION None "every day")
               sampleWorld)))
  = scheduledJobs sampleWorld.
Proof.
  apply (X13_refused_create_blocks_startup 0 "new" 10 20
           (mkCreateJobDto "Broken" REPORT_GENERATION None "every day")
           InvalidCronExpression InvalidCronExpression calmLoad sampleWorld);
    reflexivity.
Defined.

(** X14: [remove]: an unknown identity is answered with [NotFoundException] and
    nothing changes; for a job of the store the entry in the index is
    removed, its timeout cleared, and the row deleted; when the store
    refuses to delete, the row stays but the job is no longer scheduled. *)
Theorem X14_remove (jobId : string) (w : World) :
  (jobRepository w !! jobId = None ->
   forall removeRejected,
     exists m, remove None removeRejected jobId w = (w, NotFoundException m))
  /\ (forall job,
        jobRepository w !! jobId = Some job -> id job = jobId ->
        (exists w',
            remove None None jobId w = (w', Resolved tt)
            /\ jobRepository w' = delete jobId (jobRepository w)
            /\ scheduledJobs w' = delete jobId (scheduledJobs w)
            /\ (forall sj, scheduledJobs w !! jobId = Some sj ->
                  timers w' = delete (timeoutId sj) (timers w))
            /\ executingJobs w' = executingJobs w)
        /\ (forall m,
              remove None (Some m) jobId w = (unscheduleJob jobId w, Failure m)
              /\ jobRepository (unscheduleJob jobId w) !! jobId = Some job
              /\ scheduledJobs (unscheduleJob jobId w) !! jobId = None)).
Proof.
  split.
  - intros Hnone rr. unfold remove, findOne. rewrite Hnone. eauto.
  - intros job Hjob Hid. split.
    + unfold remove, findOne. rewrite Hjob, Hid.
      eexists. split; [reflexivity|]. simpl.
      destruct (unscheduleJob_frame jobId w) as (Hg & Hr & _).
      rewrite Hr, Hg, unscheduleJob_scheduledJobs.
      split; [reflexivity|]. split; [reflexivity|].
      split; [|reflexivity].
      intros sj Hsj. exact (unscheduleJob_timers jobId w sj Hsj).
    + intros m. unfold remove, findOne. rewrite Hjob, Hid.
      split; [reflexivity|].
      destruct (unscheduleJob_frame jobId w) as (_ & -> & _).
      split; [exact Hjob | apply unscheduleJob_lookup].
Qed.

Lemma X14_remove_witness :
  exists w',
    remove None None (id sampleJob) sampleWorld = (w', Resolved tt)
    /\ jobRepository w' = delete (id sampleJob) (jobRepository sampleWorld)
    /\ scheduledJobs w' = delete (id sampleJob) (scheduledJobs sampleWorld)
    /\ (forall sj, scheduledJobs sampleWorld !! id sampleJob = Some sj ->
          timers w' = delete (timeoutId sj) (timers sampleWorld))
    /\ executingJobs w' = executingJobs sampleWorld.
Proof.
  apply (proj1 (proj2 (X14_remove (id sampleJob) sampleWorld) sampleJob
                  eq_refl eq_refl)).
Defined.

(** X15: A pause that comes while the executor runs is undone when the attempt
    succeeds: the attempt saves the row as it read it before the executor
    was called, so the status is ACTIVE again, and it schedules the job.
    When the attempt fails instead, the [catch] block reads the row anew:
    the job stays PAUSED and is not scheduled. *)
Theorem X15_pause_during_attempt (tz : TimeZone) (job stored : Job)
    (i1 i2 i3 i4 : Input) (next : Z) (w : World) :
  jobRepository w !! id job = Some stored -> id stored = id job ->
  status stored = ACTIVE ->
  rejected i1 = None ->
  let fresh := setRunCount (runCount stored + 1)
                 (setLastRunAt (Some (now i1)) stored) in
  exists w1 w2,
    stepTask tz job PFindOne i1 w = (w1, PExecute fresh)
    /\ pause None None (id job) w1 = (w2, Resolved (setStatus PAUSED stored))
    /\ (exists paused, jobRepository w2 !! id job = Some paused
                       /\ status paused = PAUSED)
    /\ scheduledJobs w2 !! id job = None
    /\ (rejected i2 = None -> rejected i3 = None ->
        calculateNextRun tz (now i2) (schedule stored) = OK next ->
        exists w3 saved,
          runTask tz job (PExecute fresh) [i2; i3; i4] w2
          = (w3, PDone Returned)
          /\ jobRepository w3 !! id job = Some saved
          /\ status saved = ACTIVE
          /\ scheduledJobs w3 !! id job
             = Some (mkScheduled (id job) next (nextTimeoutId w2)))
    /\ (forall msg i5 i6,
          rejected i2 = Some msg ->
          rejected i3 = None -> rejected i4 = None -> rejected i5 = None ->
          exists w3 saved,
            runTask tz job (PExecute fresh) [i2; i3; i4; i5; i6] w2
            = (w3, PDone Returned)
            /\ jobRepository w3 !! id job = Some saved
            /\ status saved = PAUSED
            /\ scheduledJobs w3 !! id job = None).
Proof.
  intros Hst Hid Hact H1 fresh.
  set (w1 := recordExecute fresh w).
  set (paused := setStatus PAUSED stored).
  set (w2 := save paused (unscheduleJob (id job) w1)).
  assert (Hp : pause None None (id job) w1 = (w2, Resolved paused)).
  { unfold pause, findOne.
    change (jobRepository w1) with (jobRepository w). rewrite Hst.
    cbn [id setStatus]. rewrite Hid. reflexivity. }
  assert (Hstored : jobRepository w2 !! id job = Some paused).
  { subst w2. simpl. change (id paused) with (id stored). rewrite Hid.
    apply lookup_insert_eq. }
  assert (Hgone : scheduledJobs w2 !! id job = None).
  { subst w2. simpl. apply unscheduleJob_lookup. }
  exists w1, w2.
  split; [exact (step_read_active tz job stored i1 w H1 Hst Hact)|].
  split; [exact Hp|]. split; [exists paused; auto|]. split; [exact Hgone|].
  split.
  - intros H2 H3 Hnext.
    destruct (success_from_execute tz job fresh i2 i3 i4 next w2
                Hid Hact H2 H3 Hnext)
      as (w3 & Hrun & Hrepo & Hsched & _).
    eexists w3, _. split; [exact Hrun|].
    split; [rewrite Hrepo; apply lookup_insert_eq|].
    split; [exact Hact | exact Hsched].
  - intros msg i5 i6 H2 H3 H4 H5.
    rewrite runTask_cons by reflexivity.
    rewrite (step_execute_fails tz job fresh i2 msg w2 (or_introl H2)).
    cbn [fst snd].
    destruct (failure_path tz job msg paused i3 i4 i5 i6
                (logger ERROR (MsgErrorExecuting (id job) msg) w2)
                Hstored Hid H3 H4 H5)
      as (w3 & Hrun & Hrepo & _ & _ & _ & Hinact).
    eexists w3, _. split; [exact Hrun|].
    split; [rewrite Hrepo; apply lookup_insert_eq|].
    split; [reflexivity|].
    destruct (Hinact ltac:(discriminate)) as [-> _]. exact Hgone.
Qed.

Lemma X15_pause_during_attempt_witness :
  exists w1 w2,
    stepTask 0 sampleJob PFindOne (answer 10) sampleWorld
    = (w1, PExecute (setRunCount (runCount sampleJob + 1)
                       (setLastRunAt (Some 10) sampleJob)))
    /\ pause None None (id sampleJob) w1
       = (w2, Resolved (setStatus PAUSED sampleJob)).
Proof.
  destruct (X15_pause_during_attempt 0 sampleJob sampleJob
              (answer 10) (answer 20) (answer 30) (answer 40) 300020
              sampleWorld eq_refl eq_refl eq_refl eq_refl)
    as (w1 & w2 & Hstep & Hpause & _).
  exists w1, w2. split; [exact Hstep | exact Hpause].
Defined.

(** ** The periodic sweep *)

Lemma sweepDue_unschedule now rej x y w job :
  y <> x ->
  sweepDue now rej (unscheduleJob x w) y job <-> sweepDue now rej w y job.
Proof.
  intros Hne. unfold sweepDue.
  destruct (unscheduleJob_frame x w) as (He & Hj & _).
  rewrite unscheduleJob_scheduledJobs, He, Hj.
  rewrite lookup_delete_ne by congruence.
  reflexivity.
Qed.

Lemma sweepDue_functional now rej w x job1 job2 :
  sweepDue now rej w x job1 -> sweepDue now rej w x job2 -> job1 = job2.
Proof.
  intros (? & _ & _ & _ & _ & H1 & _) (? & _ & _ & _ & _ & H2 & _).
  congruence.
Qed.

Lemma sweepVisit_cases now rej x st :
  (exists job,
     sweepDue now rej (swWorld st) x job
     /\ sweepVisit now rej x st
        = mkSweep (unscheduleJob x (swWorld st)) (jobsToExecute st ++ [job])
                  (fetchErrors st))
  \/ ((forall job, ~ sweepDue now rej (swWorld st) x job)
      /\ swWorld (sweepVisit now rej x st) = swWorld st
      /\ jobsToExecute (sweepVisit now rej x st) = jobsToExecute st).
Proof.
  unfold sweepVisit, sweepDue.
  destruct (scheduledJobs (swWorld st) !! x) as [sj|] eqn:Hs.
  2:{ right. split; [|auto]. intros job (? & H & _). discriminate H. }
  destruct (executingJobs (swWorld st) !! x) as [e|] eqn:He.
  { right. split; [|auto]. intros job (? & _ & H & _). discriminate H. }
  destruct (Z.leb_spec (sjNextRunAt sj) now) as [Hle|Hgt].
  2:{ right. split; [|auto]. intros job (sj' & H & _ & Hd & _).
      injection H as <-. lia. }
  destruct (rej x) as [m|] eqn:Hr.
  { right. split; [|auto]. intros job (? & _ & _ & _ & H & _). discriminate H. }
  destruct (jobRepository (swWorld st) !! x) as [job|] eqn:Hj.
  2:{ right. split; [|auto]. intros job (? & _ & _ & _ & _ & H & _).
      discriminate H. }
  destruct (decide (status job = ACTIVE)) as [Ha|Hna].
  - left. exists job. split; [|reflexivity]. exists sj. auto 10.
  - right. split; [|auto]. intros job' (? & _ & _ & _ & _ & H & Ha).
    injection H as <-. contradiction.
Qed.

Lemma sweep_fold now rej order : forall st0,
  NoDup order -> storeWf (swWorld st0) ->
  let st := foldl (fun st jobId => sweepVisit now rej jobId st) st0 order in
  executingJobs (swWorld st) = executingJobs (swWorld st0)
  /\ jobRepository (swWorld st) = jobRepository (swWorld st0)
  /\ executed (swWorld st) = executed (swWorld st0)
  /\ (indexInv (swWorld st0) -> indexInv (swWorld st))
  /\ (forall x,
        (scheduledJobs (swWorld st) !! x = None
         /\ x ∈ order /\ exists job, sweepDue now rej (swWorld st0) x job)
        \/ (scheduledJobs (swWorld st) !! x = scheduledJobs (swWorld st0) !! x
            /\ (x ∈ order ->
                forall job, ~ sweepDue now rej (swWorld st0) x job)))
  /\ exists sel,
       jobsToExecute st = (jobsToExecute st0 ++ sel)%list
       /\ id <$> sel `sublist_of` order
       /\ forall job, job ∈ sel <->
            exists x, x ∈ order /\ sweepDue now rej (swWorld st0) x job.
Proof.
  induction order as [|x rest IH]; intros st0 Hnd Hwf; cbn [foldl].
  { split; [reflexivity|]. split; [reflexivity|]. split; [reflexivity|].
    split; [auto|]. split.
    - intros y. right. split; [reflexivity|]. intros Hy.
      apply elem_of_nil in Hy. contradiction.
    - exists []. split; [rewrite app_nil_r; reflexivity|].
      split; [apply sublist_nil|]. intros job. split.
      + intros Hj. apply elem_of_nil in Hj. contradiction.
      + intros (y & Hy & _). apply elem_of_nil in Hy. contradiction. }
  apply NoDup_cons in Hnd as (Hx & Hnd).
  destruct (sweepVisit_cases now rej x st0)
    as [(job & Hdue & Heq)|(Hnot & Hw & Hj)].
  - (* the job under [x] is selected *)
    rewrite Heq.
    set (st1 := mkSweep (unscheduleJob x (swWorld st0))
                        (jobsToExecute st0 ++ [job]) (fetchErrors st0)).
    destruct (unscheduleJob_frame x (swWorld st0)) as (Fe & Fj & Fx).
    assert (Hwf1 : storeWf (swWorld st1)).
    { unfold storeWf. cbn [st1 swWorld]. rewrite Fj. exact Hwf. }
    destruct (IH st1 Hnd Hwf1) as (He & Hr & Hex & Hinv & Hkey & sel & Hsel
                                   & Hsub & Hmem).
    cbn [st1 swWorld jobsToExecute] in He, Hr, Hex, Hinv, Hkey, Hsel, Hmem.
    assert (Hid : id job = x).
    { destruct Hdue as (? & _ & _ & _ & _ & Hrow & _). exact (Hwf _ _ Hrow). }
    split; [congruence|]. split; [congruence|]. split; [congruence|].
    split; [intros Hi; apply Hinv, unscheduleJob_indexInv, Hi|].
    split.
    + intros y. destruct (Hkey y) as [(Hn & Hy & job' & Hd)|(Hsame & Hnd')].
      * left. split; [exact Hn|]. split; [apply elem_of_cons; auto|].
        exists job'. apply (sweepDue_unschedule now rej x y); [|exact Hd].
        intros ->. contradiction.
      * destruct (decide (y = x)) as [->|Hne].
        -- left. rewrite Hsame. split; [apply unscheduleJob_lookup|].
           split; [apply elem_of_cons; auto|]. exists job. exact Hdue.
        -- right. rewrite Hsame, unscheduleJob_scheduledJobs.
           rewrite lookup_delete_ne by congruence.
           split; [reflexivity|]. intros Hy job' Hd.
           apply elem_of_cons in Hy as [Hy|Hy]; [contradiction|].
           apply (Hnd' Hy job').
           apply (sweepDue_unschedule now rej x y); assumption.
    + exists (job :: sel). split; [rewrite Hsel, <- app_assoc; reflexivity|].
      split.
      * rewrite fmap_cons, Hid. apply sublist_skip, Hsub.
      * intros job'. rewrite elem_of_cons, Hmem. split.
        -- intros [->|(y & Hy & Hd)].
           ++ exists x. split; [apply elem_of_cons; auto|exact Hdue].
           ++ exists y. split; [apply elem_of_cons; auto|].
              apply (sweepDue_unschedule now rej x y); [|exact Hd].
              intros ->. contradiction.
        -- intros (y & Hy & Hd). apply elem_of_cons in Hy as [->|Hy].
           ++ left. exact (sweepDue_functional _ _ _ _ _ _ Hd Hdue).
           ++ right. exists y. split; [exact Hy|].
              apply (sweepDue_unschedule now rej x y); [|exact Hd].
              intros ->. contradiction.
  - (* nothing is selected under [x] *)
    assert (Hwf1 : storeWf (swWorld (sweepVisit now rej x st0))).
    { rewrite Hw. exact Hwf. }
    destruct (IH _ Hnd Hwf1) as (He & Hr & Hex & Hinv & Hkey & sel & Hsel
                                 & Hsub & Hmem).
    rewrite Hw in He, Hr, Hex, Hinv, Hkey, Hmem. rewrite Hj in Hsel.
    split; [exact He|]. split; [exact Hr|]. split; [exact Hex|].
    split; [exact Hinv|]. split.
    + intros y. destruct (Hkey y) as [(Hn & Hy & Hd)|(Hsame & Hnd')].
      * left. split; [exact Hn|]. split; [apply elem_of_cons; auto|exact Hd].
      * right. split; [exact Hsame|]. intros Hy job' Hd.
        apply elem_of_cons in Hy as [->|Hy];
          [exact (Hnot job' Hd)|exact (Hnd' Hy job' Hd)].
    + exists sel. split; [exact Hsel|]. split; [apply sublist_cons, Hsub|].
      intros job'. rewrite Hmem. split.
      * intros (y & Hy & Hd). exists y. split; [apply elem_of_cons; auto|auto].
      * intros (y & Hy & Hd). apply elem_of_cons in Hy as [->|Hy].
        -- destruct (Hnot job' Hd).
        -- exists y. auto.
Qed.

Lemma storeWf_sampleWorld : storeWf sampleWorld.
Proof.
  intros k job H. unfold sampleWorld, save in H. cbn in H.
  apply lookup_insert_Some in H as [[<- <-]|[_ H]]; [reflexivity|].
  rewrite lookup_empty in H. discriminate.
Qed.

Lemma indexInv_frame w w' :
  scheduledJobs w' = scheduledJobs w -> timers w' = timers w ->
  nextTimeoutId w' = nextTimeoutId w -> indexInv w -> indexInv w'.
Proof. unfold indexInv. intros -> -> ->. auto. Qed.

Lemma indexInv_scheduledWorld : indexInv scheduledWorld.
Proof.
  apply scheduleJob_indexInv.
  apply (indexInv_frame emptyWorld); [reflexivity..|apply indexInv_empty].
Qed.

Lemma storeWf_scheduledWorld : storeWf scheduledWorld.
Proof.
  unfold storeWf, scheduledWorld.
  rewrite (proj1 (proj2 (scheduleJob_frame 0 1000 sampleJob sampleWorld))).
  apply storeWf_sampleWorld.
Qed.

(** X16: the first loop of [checkAndExecuteJobs], over the keys of the index
    (each once) and with nothing else in between, selects exactly the rows
    stored under keys whose entry is due, that the guard does not hold, for
    which the query is answered and whose row is ACTIVE.  No identity is
    selected twice.  A selected job has left the index, no timeout is
    pending for it and the guard does not hold it; the entry of every other
    identity is as before.  The loop writes neither to the guard nor to the
    store, calls no executor, and keeps index and timeouts in
    correspondence. *)
Theorem X16_sweep_selects (now : Z) (rej : string -> option string)
    (order : list string) (w : World) :
  NoDup order -> storeWf w -> indexInv w ->
  let st := sweepSelect now rej order w in
  (forall job, job ∈ jobsToExecute st <->
     exists x, x ∈ order /\ sweepDue now rej w x job)
  /\ NoDup (id <$> jobsToExecute st)
  /\ (forall job, job ∈ jobsToExecute st ->
        scheduledJobs (swWorld st) !! id job = None
        /\ (forall tid t, timers (swWorld st) !! tid = Some t ->
              id (timerJob t) <> id job)
        /\ executingJobs (swWorld st) !! id job = None)
  /\ (forall x, (x ∈ order -> forall job, ~ sweepDue now rej w x job) ->
        scheduledJobs (swWorld st) !! x = scheduledJobs w !! x)
  /\ executingJobs (swWorld st) = executingJobs w
  /\ jobRepository (swWorld st) = jobRepository w
  /\ executed (swWorld st) = executed w
  /\ indexInv (swWorld st).
Proof.
  intros Hnd Hwf Hinv st.
  destruct (sweep_fold now rej order (mkSweep w [] []) Hnd Hwf)
    as (He & Hr & Hex & Hi & Hkey & sel & Hsel & Hsub & Hmem).
  fold (sweepSelect now rej order w) in He, Hr, Hex, Hi, Hkey, Hsel.
  fold st in He, Hr, Hex, Hi, Hkey, Hsel.
  cbn [swWorld jobsToExecute app] in He, Hr, Hex, Hi, Hkey, Hsel, Hmem.
  specialize (Hi Hinv).
  split; [rewrite Hsel; exact Hmem|].
  split.
  { rewrite Hsel. exact (sublist_NoDup _ _ Hnd Hsub). }
  split.
  { intros job Hjob. rewrite Hsel in Hjob.
    apply Hmem in Hjob as (x & Hx & Hd).
    assert (Hid : id job = x).
    { destruct Hd as (? & _ & _ & _ & _ & Hrow & _). exact (Hwf _ _ Hrow). }
    assert (Hgone : scheduledJobs (swWorld st) !! id job = None).
    { rewrite Hid. destruct (Hkey x) as [(Hn & _)|(_ & Hno)]; [exact Hn|].
      destruct (Hno Hx job Hd). }
    split; [exact Hgone|]. split.
    - intros tid t Ht Heq. destruct Hi as (_ & H2 & _).
      destruct (H2 tid t Ht) as (sj & Hsj & _).
      rewrite Heq, Hgone in Hsj. discriminate.
    - rewrite He, Hid. destruct Hd as (? & _ & Hg & _). exact Hg. }
  split.
  { intros x Hx. destruct (Hkey x) as [(_ & Hin & job & Hd)|(Hsame & _)];
      [destruct (Hx Hin job Hd)|exact Hsame]. }
  auto.
Qed.

Lemma X16_sweep_selects_witness :
  NoDup (id <$> jobsToExecute
                  (sweepSelect 400000 (fun _ => None) ["job-1"]
                     scheduledWorld)).
Proof.
  apply (X16_sweep_selects 400000 (fun _ => None) ["job-1"] scheduledWorld).
  - apply NoDup_singleton.
  - exact storeWf_scheduledWorld.
  - exact indexInv_scheduledWorld.
Defined.

(** ** The batches of the sweep *)

Lemma batchesFrom_spec jobs : forall fuel i,
  (length jobs - i <= fuel)%nat ->
  concat (batchesFrom fuel i jobs) = drop i jobs
  /\ Forall (fun b => (1 <= length b <= concurrencyLimit)%nat)
            (batchesFrom fuel i jobs)
  /\ length (batchesFrom fuel i jobs)
     = ((length jobs - i + 9) / 10)%nat.
Proof.
  induction fuel as [|fuel IH]; intros i Hf; cbn [batchesFrom].
  { split; [symmetry; apply drop_ge; lia|]. split; [constructor|].
    replace (length jobs - i)%nat with 0%nat by lia. reflexivity. }
  destruct (Nat.ltb_spec i (length jobs)) as [Hlt|Hge].
  - destruct (IH (i + concurrencyLimit)%nat) as (Hc & Hs & Hl).
    { unfold concurrencyLimit. lia. }
    split; [|split].
    + cbn [concat]. rewrite Hc, <- drop_drop. apply take_drop.
    + constructor; [|exact Hs].
      rewrite length_take, length_drop. unfold concurrencyLimit. lia.
    + cbn [length]. rewrite Hl. unfold concurrencyLimit.
      destruct (Nat.le_gt_cases (i + 10) (length jobs)) as [Hfull|Hlast].
      * replace (length jobs - i + 9)%nat
          with (1 * 10 + (length jobs - (i + 10) + 9))%nat by lia.
        rewrite Nat.div_add_l by lia. lia.
      * replace (length jobs - (i + 10))%nat with 0%nat by lia.
        cbn [Nat.add]. rewrite (Nat.div_small 9 10) by lia.
        apply (Nat.div_unique _ 10 1 (length jobs - i - 1)); lia.
  - split; [symmetry; apply drop_ge; lia|]. split; [constructor|].
    replace (length jobs - i)%nat with 0%nat by lia. reflexivity.
Qed.

Lemma batchesFrom_lookup jobs : forall fuel i k b,
  batchesFrom fuel i jobs !! k = Some b ->
  b = take concurrencyLimit (drop (i + concurrencyLimit * k) jobs).
Proof.
  induction fuel as [|fuel IH]; intros i k b H; cbn [batchesFrom] in H.
  { destruct k; discriminate H. }
  destruct (i <? length jobs)%nat; [|destruct k; discriminate H].
  destruct k as [|k].
  - injection H as <-. f_equal. f_equal. lia.
  - cbn in H. rewrite (IH _ _ _ H). f_equal. f_equal. lia.
Qed.

(** X17: the second loop of [checkAndExecuteJobs] cuts the selected jobs into
    batches that, put end to end, are the selection in its order: no job is
    left out or handed over twice.  A batch holds between one and ten jobs;
    batch [k] is the ten jobs from position [10 k] on (fewer at the end), and
    [n] jobs make [(n + 9) / 10] batches, none for an empty selection. *)
Theorem X17_sweep_batches (jobs : list Job) :
  concat (batches jobs) = jobs
  /\ Forall (fun b => (1 <= length b <= 10)%nat) (batches jobs)
  /\ (forall k b, batches jobs !! k = Some b ->
        b = take 10 (drop (10 * k) jobs))
  /\ length (batches jobs) = ((length jobs + 9) / 10)%nat
  /\ batches [] = [].
Proof.
  destruct (batchesFrom_spec jobs (length jobs) 0) as (Hc & Hs & Hl); [lia|].
  split; [exact Hc|]. split; [exact Hs|]. split.
  - intros k b H. exact (batchesFrom_lookup jobs _ _ _ _ H).
  - split; [|reflexivity]. unfold batches. rewrite Hl. f_equal. lia.
Qed.

Lemma startBatch_cons tz now job rest w :
  startBatch tz now (job :: rest) w
  = (fst (startBatch tz now rest
            (fst (stepTask tz job PStart (mkInput now None) w))),
     mkTask job (snd (stepTask tz job PStart (mkInput now None) w))
     :: snd (startBatch tz now rest
               (fst (stepTask tz job PStart (mkInput now None) w)))).
Proof.
  cbn [startBatch].
  destruct (stepTask tz job PStart (mkInput now None) w) as [w1 pc].
  cbn [fst snd]. destruct (startBatch tz now rest w1). reflexivity.
Qed.

(** X18: [batch.map((job) => this.executeJob(job))] on a batch of jobs with
    distinct identities, none of them held by the guard: every call enters
    the guard and is suspended at its first read of the store before any of
    them is resumed; the guard then holds the identities of the batch, with
    the start time, besides what it held; the index, the timeouts and the
    store are untouched and no executor has been called yet. *)
Theorem X18_batch_enters_guard (tz : TimeZone) (now : Z)
    (batch : list Job) : forall w,
  NoDup (id <$> batch) ->
  (forall job, job ∈ batch -> executingJobs w !! id job = None) ->
  let w' := fst (startBatch tz now batch w) in
  snd (startBatch tz now batch w)
  = (fun job => mkTask job PFindOne) <$> batch
  /\ (forall x, x ∈ id <$> batch ->
        executingJobs w' !! x = Some (mkExecuting x now))
  /\ (forall x, x ∉ id <$> batch ->
        executingJobs w' !! x = executingJobs w !! x)
  /\ scheduledJobs w' = scheduledJobs w
  /\ timers w' = timers w
  /\ jobRepository w' = jobRepository w
  /\ executed w' = executed w.
Proof.
  induction batch as [|job rest IH]; intros w Hnd Hfree.
  { cbn. split; [reflexivity|]. split.
    - intros x Hx. apply elem_of_nil in Hx. contradiction.
    - auto. }
  rewrite fmap_cons in Hnd. apply NoDup_cons in Hnd as (Hjob & Hnd).
  assert (Hstep : stepTask tz job PStart (mkInput now None) w
                  = (logger LOG (MsgExecuting (name job) (id job))
                       (setExecutingJobs
                          (<[id job := mkExecuting (id job) now]>
                             (executingJobs w)) w), PFindOne)).
  { unfold stepTask. rewrite (Hfree job) by (apply elem_of_cons; auto).
    reflexivity. }
  rewrite startBatch_cons, Hstep. cbn [fst snd].
  set (w1 := logger LOG _ _).
  assert (Hfree1 : forall j, j ∈ rest -> executingJobs w1 !! id j = None).
  { intros j Hj. cbn [w1 logger setExecutingJobs executingJobs].
    rewrite lookup_insert_ne.
    - apply Hfree, elem_of_cons. auto.
    - intros Heq. apply Hjob. rewrite Heq.
      apply list_elem_of_fmap. exists j. auto. }
  destruct (IH w1 Hnd Hfree1) as (Hts & Hin & Hout & Hs & Ht & Hr & Hex).
  split; [rewrite Hts; reflexivity|]. split; [|split].
  - intros x Hx. rewrite fmap_cons in Hx. apply elem_of_cons in Hx.
    destruct (decide (x ∈ id <$> rest)) as [Hrest|Hrest].
    + apply Hin, Hrest.
    + destruct Hx as [->|Hx]; [|contradiction].
      rewrite (Hout _ Hrest). cbn [w1 logger setExecutingJobs executingJobs].
      apply lookup_insert_eq.
  - intros x Hx. rewrite fmap_cons in Hx.
    rewrite Hout by (intros H; apply Hx, elem_of_cons; auto).
    cbn [w1 logger setExecutingJobs executingJobs].
    apply lookup_insert_ne. intros Heq. apply Hx, elem_of_cons. auto.
  - rewrite Hs, Ht, Hr, Hex. auto.
Qed.

Lemma X18_batch_enters_guard_witness :
  snd (startBatch 0 1000 [sampleJob] sampleWorld)
  = (fun job => mkTask job PFindOne) <$> [sampleJob].
Proof.
  apply (X18_batch_enters_guard 0 1000 [sampleJob] sampleWorld).
  - apply NoDup_singleton.
  - intros job Hjob. reflexivity.
Defined.

(** ** Index and timeouts stay in correspondence *)

Ltac frame_inv H :=
  (eapply indexInv_frame; [ | | | exact H]; reflexivity).

Lemma stepTask_indexInv tz job pc i w :
  indexInv w -> indexInv (fst (stepTask tz job pc i w)).
Proof.
  intros H.
  assert (Hsched : forall fresh,
            indexInv (fst (scheduleJob tz (now i) fresh (save fresh w)))).
  { intros fresh. apply scheduleJob_indexInv. frame_inv H. }
  destruct pc; unfold stepTask, finish, enterCatch.
  - destruct (executingJobs w !! id job); frame_inv H.
  - destruct (rejected i); [frame_inv H|].
    destruct (jobRepository w !! id job) as [fresh|]; [|frame_inv H].
    destruct (decide (status fresh = ACTIVE)); frame_inv H.
  - destruct (rejected i); [frame_inv H|].
    destruct (calculateNextRun tz (now i) (schedule freshJob));
      frame_inv H.
  - destruct (rejected i); [frame_inv H|].
    specialize (Hsched freshJob).
    destruct (scheduleJob tz (now i) freshJob (save freshJob w))
      as [w2 [|m]]; cbn [fst] in *; [exact Hsched|frame_inv Hsched].
  - frame_inv H.
  - destruct (rejected i); [frame_inv H|].
    destruct (jobRepository w !! id job); frame_inv H.
  - destruct (rejected i); frame_inv H.
  - destruct (rejected i); [frame_inv H|].
    specialize (Hsched freshJob).
    destruct (scheduleJob tz (now i) freshJob (save freshJob w))
      as [w2 [|m]]; cbn [fst] in *; frame_inv Hsched.
  - frame_inv H.
  - exact H.
Qed.

Lemma runTask_indexInv tz job ins : forall pc w,
  indexInv w -> indexInv (fst (runTask tz job pc ins w)).
Proof.
  induction ins as [|i ins IH]; intros pc w H; [exact H|].
  cbn [runTask]. destruct (isDone pc); [exact H|].
  pose proof (stepTask_indexInv tz job pc i w H) as H1.
  destruct (stepTask tz job pc i w) as [w1 pc1]. apply IH, H1.
Qed.

Lemma scheduleAll_indexInv tz clock jobs : forall k w,
  indexInv w -> indexInv (fst (scheduleAll tz clock k jobs w)).
Proof.
  induction jobs as [|job rest IH]; intros k w H; [exact H|].
  cbn [scheduleAll].
  pose proof (scheduleJob_indexInv tz (clock k) job w H) as H1.
  destruct (scheduleJob tz (clock k) job w) as [w1 [|m]]; cbn [fst] in H1.
  - apply IH, H1.
  - exact H1.
Qed.

Lemma loadActiveJobs_indexInv tz inp w :
  indexInv w -> indexInv (loadActiveJobs tz inp w).
Proof.
  intros H. unfold loadActiveJobs.
  destruct (queryRejected inp); [frame_inv H|].
  destruct (assignNextRuns tz (calcNow inp) (getActive w)) as [m|marked];
    [frame_inv H|].
  set (jobsToUpdate := snd <$> filter (fun p => fst p = true) marked).
  assert (Hsave : indexInv (saveAll jobsToUpdate w)).
  { destruct (saveAll_frame jobsToUpdate w) as (Es & Et & En & _).
    exact (indexInv_frame w _ Es Et En H). }
  assert (Hall : forall w1, indexInv w1 ->
            indexInv
              match scheduleAll tz (schedNow inp) 0 (snd <$> marked) w1 with
              | (w2, Returned) =>
                  logger LOG (MsgLoaded (length (snd <$> marked))) w2
              | (w2, Threw m) => logger ERROR (MsgErrorLoading m) w2
              end).
  { intros w1 H1.
    pose proof (scheduleAll_indexInv tz (schedNow inp) (snd <$> marked) 0 w1
                  H1) as H2.
    destruct (scheduleAll tz (schedNow inp) 0 (snd <$> marked) w1)
      as [w2 [|m]]; cbn [fst] in H2; frame_inv H2. }
  destruct (decide (0 < length jobsToUpdate)%nat); [|apply Hall, H].
  destruct (saveRejected inp); [frame_inv H|apply Hall, Hsave].
Qed.

Lemma sweepSelect_indexInv now rej order : forall w,
  indexInv w -> indexInv (swWorld (sweepSelect now rej order w)).
Proof.
  unfold sweepSelect. generalize (@nil Job) (@nil (string * string)).
  induction order as [|x rest IH]; intros js es w H; [exact H|].
  cbn [foldl].
  destruct (sweepVisit_cases now rej x (mkSweep w js es))
    as [(job & _ & ->)|(_ & Hw & _)].
  - apply IH, unscheduleJob_indexInv, H.
  - destruct (sweepVisit now rej x (mkSweep w js es)) as [w1 js1 es1].
    cbn [swWorld] in Hw. subst w1. apply IH, H.
Qed.

Lemma startBatch_indexInv tz now batch : forall w,
  indexInv w -> indexInv (fst (startBatch tz now batch w)).
Proof.
  induction batch as [|job rest IH]; intros w H; [exact H|].
  rewrite startBatch_cons. cbn [fst]. apply IH, stepTask_indexInv, H.
Qed.

Lemma pause_indexInv fr sr x w :
  indexInv w -> indexInv (fst (pause fr sr x w)).
Proof.
  intros H. unfold pause. destruct (findOne fr x w) as [job| | |]; try exact H.
  pose proof (unscheduleJob_indexInv (id (setStatus PAUSED job)) w H) as H1.
  destruct sr; cbn [fst]; [exact H1|frame_inv H1].
Qed.

Lemma resume_indexInv tz fr sr calcNow schedNow x w :
  indexInv w -> indexInv (fst (resume tz fr sr calcNow schedNow x w)).
Proof.
  intros H. unfold resume.
  destruct (findOne fr x w) as [job| | |]; try exact H.
  destruct (decide (status job = PAUSED)) as [Hp|Hp]; [|exact H].
  destruct (calculateNextRun tz calcNow (schedule (setStatus ACTIVE job)))
    as [next|e]; [|exact H].
  destruct sr; [exact H|].
  set (resumed := setNextRunAt (Some next) (setStatus ACTIVE job)).
  assert (Hs : indexInv (save resumed w)) by frame_inv H.
  pose proof (scheduleJob_indexInv tz schedNow resumed _ Hs) as H2.
  destruct (scheduleJob tz schedNow resumed (save resumed w)) as [w2 [|m]];
    exact H2.
Qed.

Lemma remove_indexInv fr rr x w :
  indexInv w -> indexInv (fst (remove fr rr x w)).
Proof.
  intros H. unfold remove. destruct (findOne fr x w) as [job| | |]; try exact H.
  pose proof (unscheduleJob_indexInv (id job) w H) as H1.
  destruct rr; cbn [fst]; [exact H1|frame_inv H1].
Qed.

Lemma create_indexInv tz newId sr1 sr2 calcNow schedNow dto w :
  indexInv w ->
  indexInv (fst (create tz newId sr1 sr2 calcNow schedNow dto w)).
Proof.
  intros H. unfold create. destruct sr1; [exact H|].
  assert (H1 : indexInv (save (newJob newId dto) w)) by frame_inv H.
  destruct (calculateNextRun tz calcNow (schedule (newJob newId dto)))
    as [next|e]; [|exact H1].
  destruct sr2; [exact H1|].
  set (savedJob := setNextRunAt (Some next) (newJob newId dto)).
  assert (H2 : indexInv (save savedJob (save (newJob newId dto) w)))
    by frame_inv H1.
  pose proof (scheduleJob_indexInv tz schedNow savedJob _ H2) as H3.
  destruct (scheduleJob tz schedNow savedJob
              (save savedJob (save (newJob newId dto) w))) as [w2 [|m]];
    exact H3.
Qed.

(** ** Stopping the module *)

Lemma clearAllTimeouts_lookup w tid t :
  clearAllTimeouts w !! tid = Some t <->
  timers w !! tid = Some t
  /\ forall x sj, scheduledJobs w !! x = Some sj -> timeoutId sj <> tid.
Proof.
  unfold clearAllTimeouts. revert tid t.
  apply (map_fold_weak_ind
           (fun r (m : gmap string ScheduledJob) =>
              forall tid t,
                r !! tid = Some t <->
                timers w !! tid = Some t
                /\ forall x sj, m !! x = Some sj -> timeoutId sj <> tid)).
  - intros tid t. split; [|intros [H _]; exact H].
    intros H. split; [exact H|]. intros x sj Hx.
    rewrite lookup_empty in Hx. discriminate.
  - intros k sj m r Hk IH tid t. rewrite lookup_delete_Some, IH. split.
    + intros (Hne & Ht & Hall). split; [exact Ht|]. intros y sj' Hy.
      apply lookup_insert_Some in Hy as [[_ <-]|[_ Hy]];
        [exact Hne|exact (Hall _ _ Hy)].
    + intros (Ht & Hall). split; [apply (Hall k), lookup_insert_eq|].
      split; [exact Ht|]. intros y sj' Hy. apply (Hall y).
      rewrite lookup_insert_ne; [exact Hy|]. intros ->. congruence.
Qed.

Lemma clearAllTimeouts_indexInv w : indexInv w -> clearAllTimeouts w = empty.
Proof.
  intros (_ & H2 & _). apply map_empty. intros tid.
  destruct (clearAllTimeouts w !! tid) as [t|] eqn:Ht; [|reflexivity].
  apply clearAllTimeouts_lookup in Ht as (Ht & Hall).
  destruct (H2 tid t Ht) as (sj & Hsj & Heq).
  destruct (Hall _ _ Hsj Heq).
Qed.

Lemma onModuleDestroy_indexInv s :
  indexInv (svcWorld s) -> indexInv (svcWorld (onModuleDestroy s)).
Proof.
  intros H. pose proof (clearAllTimeouts_indexInv _ H) as Hc.
  destruct H as (_ & _ & H3).
  unfold onModuleDestroy, indexInv.
  cbn [svcWorld setScheduledJobs setTimers scheduledJobs timers nextTimeoutId].
  rewrite Hc. split; [|split].
  - intros x sj Hx. rewrite lookup_empty in Hx. discriminate.
  - intros tid t Ht. rewrite lookup_empty in Ht. discriminate.
  - intros tid [t Ht]. rewrite lookup_empty in Ht. discriminate.
Qed.

(** X19: every operation of the service keeps the due-time index and the
    pending timeouts in one-to-one correspondence (each entry has its
    pending timeout, each pending timeout is that of the entry of its job):
    a call of [executeJob] at whatever point it stands and whatever the
    store and the executor answer, the start-up load, the first loop of the
    sweep, the start of a batch, [pause], [resume], [remove] and [create]
    whether they succeed or fail, and [onModuleDestroy]. *)
Theorem X19_index_invariant (tz : TimeZone) (w : World) :
  indexInv w ->
  (forall job pc ins, indexInv (fst (runTask tz job pc ins w)))
  /\ (forall inp, indexInv (loadActiveJobs tz inp w))
  /\ (forall now rej order, indexInv (swWorld (sweepSelect now rej order w)))
  /\ (forall now batch, indexInv (fst (startBatch tz now batch w)))
  /\ (forall findRejected saveRejected jobId,
        indexInv (fst (pause findRejected saveRejected jobId w)))
  /\ (forall findRejected saveRejected calcNow schedNow jobId,
        indexInv (fst (resume tz findRejected saveRejected calcNow schedNow
                         jobId w)))
  /\ (forall findRejected removeRejected jobId,
        indexInv (fst (remove findRejected removeRejected jobId w)))
  /\ (forall newId saveRejected1 saveRejected2 calcNow schedNow dto,
        indexInv (fst (create tz newId saveRejected1 saveRejected2 calcNow
                         schedNow dto w)))
  /\ (forall s, svcWorld s = w -> indexInv (svcWorld (onModuleDestroy s))).
Proof.
  intros H.
  split; [intros; apply runTask_indexInv, H|].
  split; [intros; apply loadActiveJobs_indexInv, H|].
  split; [intros; apply sweepSelect_indexInv, H|].
  split; [intros; apply startBatch_indexInv, H|].
  split; [intros; apply pause_indexInv, H|].
  split; [intros; apply resume_indexInv, H|].
  split; [intros; apply remove_indexInv, H|].
  split; [intros; apply create_indexInv, H|].
  intros s <-. apply onModuleDestroy_indexInv, H.
Qed.

Lemma X19_index_invariant_witness :
  indexInv (loadActiveJobs 0 calmLoad scheduledWorld).
Proof.
  apply (X19_index_invariant 0 scheduledWorld indexInv_scheduledWorld).
Defined.

(** X20: [onModuleDestroy] empties the index and clears the timeout of every
    entry it held: a timeout is still pending afterwards only if it was
    pending and no entry of the index named it, so none is when index and
    timeouts were in correspondence.  The interval whose handle the service
    holds is cleared.  Nothing is written to the store, no executor is
    called and the guard is left as it is: the calls of [executeJob] that
    are under way are neither stopped nor waited for. *)
Theorem X20_destroy_clears (s : Service) :
  let s' := onModuleDestroy s in
  scheduledJobs (svcWorld s') = empty
  /\ (forall tid t,
        timers (svcWorld s') !! tid = Some t <->
        timers (svcWorld s) !! tid = Some t
        /\ forall x sj, scheduledJobs (svcWorld s) !! x = Some sj ->
                        timeoutId sj <> tid)
  /\ (indexInv (svcWorld s) -> timers (svcWorld s') = empty)
  /\ (forall i, intervalId s = Some i -> i ∉ intervals s')
  /\ (intervalId s = None -> intervals s' = intervals s)
  /\ executingJobs (svcWorld s') = executingJobs (svcWorld s)
  /\ jobRepository (svcWorld s') = jobRepository (svcWorld s)
  /\ executed (svcWorld s') = executed (svcWorld s)
  /\ svcLogged s' = MsgDestroyed :: svcLogged s.
Proof.
  cbv zeta. split; [reflexivity|]. split.
  { intros tid t. apply clearAllTimeouts_lookup. }
  split; [exact (clearAllTimeouts_indexInv (svcWorld s))|].
  split.
  { intros i Hi. unfold onModuleDestroy. rewrite Hi. cbn [intervals].
    intros Hin. apply elem_of_difference in Hin as [_ Hn].
    apply Hn, elem_of_singleton. reflexivity. }
  split.
  { intros Hi. unfold onModuleDestroy. rewrite Hi. reflexivity. }
  auto.
Qed.

(** X21: [onModuleInit] followed by [onModuleDestroy], on a service that has
    no interval yet: the sweep is started whatever the start-up load did
    (also when the store refused the query), under a handle the service
    keeps; after the stop no interval and no timeout is pending and the
    index is empty, while the store is as the load left it. *)
Theorem X21_init_then_destroy (tz : TimeZone) (inp : LoadInput) (w : World) :
  indexInv w ->
  let started := onModuleInit tz inp (serviceOver w) in
  let stopped := onModuleDestroy started in
  svcWorld started = loadActiveJobs tz inp w
  /\ (exists i, intervalId started = Some i /\ intervals started = {[ i ]})
  /\ svcLogged started = [MsgInitialized]
  /\ intervals stopped = empty
  /\ scheduledJobs (svcWorld stopped) = empty
  /\ timers (svcWorld stopped) = empty
  /\ jobRepository (svcWorld stopped)
     = jobRepository (loadActiveJobs tz inp w)
  /\ svcLogged stopped = [MsgDestroyed; MsgInitialized].
Proof.
  intros Hinv. cbv zeta.
  split; [reflexivity|]. split.
  { exists 0%nat. split; [reflexivity|].
    unfold onModuleInit, startScheduler, serviceOver. cbn. set_solver. }
  split; [reflexivity|]. split.
  { unfold onModuleDestroy, onModuleInit, startScheduler, serviceOver. cbn.
    set_solver. }
  split; [reflexivity|]. split; [|split; reflexivity].
  apply (clearAllTimeouts_indexInv (loadActiveJobs tz inp w)).
  apply loadActiveJobs_indexInv, Hinv.
Qed.

Lemma X21_init_then_destroy_witness :
  timers (svcWorld (onModuleDestroy
                      (onModuleInit 0 calmLoad (serviceOver twoJobs))))
  = empty.
Proof.
  apply (X21_init_then_destroy 0 calmLoad twoJobs).
  apply (indexInv_frame emptyWorld); [reflexivity..|apply indexInv_empty].
Defined.

(** X22: stopping the module does not stop an attempt that is under way.  A
    call of [executeJob] that waits for the executor while
    [onModuleDestroy] runs goes on afterwards: when the executor resolves
    and the store accepts the row, the job is back in the index that the
    stop had emptied, with a new timeout pending for it. *)
Theorem X22_attempt_outlives_destroy (tz : TimeZone) (s : Service)
    (job fresh : Job)
    (i2 i3 i4 : Input) (next : Z) :
  indexInv (svcWorld s) ->
  id fresh = id job -> status fresh = ACTIVE ->
  rejected i2 = None -> rejected i3 = None ->
  calculateNextRun tz (now i2) (schedule fresh) = OK next ->
  let stopped := svcWorld (onModuleDestroy s) in
  scheduledJobs stopped = empty
  /\ timers stopped = empty
  /\ exists w',
       runTask tz job (PExecute fresh) [i2; i3; i4] stopped
       = (w', PDone Returned)
       /\ scheduledJobs w' !! id job
          = Some (mkScheduled (id job) next (nextTimeoutId (svcWorld s)))
       /\ exists t, timers w' !! nextTimeoutId (svcWorld s) = Some t
                    /\ id (timerJob t) = id job.
Proof.
  intros Hinv Hid Hact H2 H3 Hnext stopped.
  split; [reflexivity|].
  split; [exact (clearAllTimeouts_indexInv (svcWorld s) Hinv)|].
  destruct (success_from_execute tz job fresh i2 i3 i4 next stopped
              Hid Hact H2 H3 Hnext) as (w' & Hrun & _ & Hsched & _).
  exists w'. split; [exact Hrun|]. split; [exact Hsched|].
  pose proof (runTask_indexInv tz job [i2; i3; i4] (PExecute fresh) stopped
                (onModuleDestroy_indexInv s Hinv)) as Hinv'.
  rewrite Hrun in Hinv'. cbn [fst] in Hinv'.
  destruct Hinv' as (H1 & _ & _).
  destruct (H1 _ _ Hsched) as (_ & t & Ht & Hown).
  exists t. auto.
Qed.

Lemma X22_attempt_outlives_destroy_witness :
  exists w',
    runTask 0 sampleJob (PExecute sampleJob)
            [answer 2000; answer 3000; answer 4000]
            (svcWorld (onModuleDestroy (serviceOver scheduledWorld)))
    = (w', PDone Returned)
    /\ scheduledJobs w' !! id sampleJob
       = Some (mkScheduled (id sampleJob) 302000
                           (nextTimeoutId scheduledWorld))
    /\ exists t, timers w' !! nextTimeoutId scheduledWorld = Some t
                 /\ id (timerJob t) = id sampleJob.
Proof.
  apply (X22_attempt_outlives_destroy 0 (serviceOver scheduledWorld)
           sampleJob sampleJob (answer 2000) (answer 3000) (answer 4000)
           302000);
    first [exact indexInv_scheduledWorld | reflexivity].
Defined.

(** ** A job removed while it runs *)

(** X23: a job removed through the API while its executor runs comes back
    when the attempt succeeds: the attempt saves the row it read before the
    executor was called, and the store inserts a row that it does not hold,
    so the job is stored and scheduled again.  When the attempt fails
    instead, the [catch] block finds no row, and the job stays removed and
    unscheduled. *)
Theorem X23_remove_during_attempt (tz : TimeZone) (job stored : Job)
    (i1 i2 i3 i4 : Input) (next : Z) (w : World) :
  jobRepository w !! id job = Some stored -> id stored = id job ->
  status stored = ACTIVE ->
  rejected i1 = None ->
  let fresh := setRunCount (runCount stored + 1)
                 (setLastRunAt (Some (now i1)) stored) in
  exists w1 w2,
    stepTask tz job PFindOne i1 w = (w1, PExecute fresh)
    /\ remove None None (id job) w1 = (w2, Resolved tt)
    /\ jobRepository w2 !! id job = None
    /\ scheduledJobs w2 !! id job = None
    /\ (rejected i2 = None -> rejected i3 = None ->
        calculateNextRun tz (now i2) (schedule stored) = OK next ->
        exists w3,
          runTask tz job (PExecute fresh) [i2; i3; i4] w2
          = (w3, PDone Returned)
          /\ jobRepository w3 !! id job
             = Some (setLastError None (setNextRunAt (Some next) fresh))
          /\ scheduledJobs w3 !! id job
             = Some (mkScheduled (id job) next (nextTimeoutId w2)))
    /\ (forall msg,
          rejected i2 = Some msg -> rejected i3 = None ->
          exists w3,
            runTask tz job (PExecute fresh) [i2; i3] w2
            = (w3, PDone Returned)
            /\ jobRepository w3 !! id job = None
            /\ scheduledJobs w3 !! id job = None).
Proof.
  intros Hst Hid Hact H1 fresh.
  set (w1 := recordExecute fresh w).
  set (w0 := unscheduleJob (id job) w1).
  set (w2 := setJobRepository (delete (id job) (jobRepository w0)) w0).
  assert (Hrm : remove None None (id job) w1 = (w2, Resolved tt)).
  { unfold remove, findOne.
    change (jobRepository w1) with (jobRepository w). rewrite Hst, Hid.
    reflexivity. }
  assert (Hrow : jobRepository w2 !! id job = None).
  { subst w2. cbn [setJobRepository jobRepository]. apply lookup_delete_eq. }
  assert (Hgone : scheduledJobs w2 !! id job = None).
  { subst w2. cbn [setJobRepository scheduledJobs].
    apply unscheduleJob_lookup. }
  exists w1, w2.
  split; [exact (step_read_active tz job stored i1 w H1 Hst Hact)|].
  split; [exact Hrm|]. split; [exact Hrow|]. split; [exact Hgone|].
  split.
  - intros H2 H3 Hnext.
    destruct (success_from_execute tz job fresh i2 i3 i4 next w2
                Hid Hact H2 H3 Hnext)
      as (w3 & Hrun & Hrepo & Hsched & _).
    exists w3. split; [exact Hrun|].
    split; [rewrite Hrepo; apply lookup_insert_eq|exact Hsched].
  - intros msg H2 H3.
    rewrite runTask_cons by reflexivity.
    rewrite (step_execute_fails tz job fresh i2 msg w2 (or_introl H2)).
    cbn [fst snd].
    set (w2' := logger ERROR (MsgErrorExecuting (id job) msg) w2).
    rewrite runTask_cons by reflexivity.
    assert (Hstep : stepTask tz job (PCatchFindOne msg) i3 w2'
                    = finish job Returned w2').
    { unfold stepTask. rewrite H3.
      change (jobRepository w2') with (jobRepository w2). rewrite Hrow.
      reflexivity. }
    rewrite Hstep. unfold finish. cbn [fst snd runTask].
    eexists. split; [reflexivity|]. split; [exact Hrow|exact Hgone].
Qed.

Lemma X23_remove_during_attempt_witness :
  exists w1 w2,
    stepTask 0 sampleJob PFindOne (answer 10) sampleWorld
    = (w1, PExecute (setRunCount (runCount sampleJob + 1)
                       (setLastRunAt (Some 10) sampleJob)))
    /\ remove None None (id sampleJob) w1 = (w2, Resolved tt)
    /\ jobRepository w2 !! id sampleJob = None.
Proof.
  destruct (X23_remove_during_attempt 0 sampleJob sampleJob
              (answer 10) (answer 20) (answer 30) (answer 40) 300020
              sampleWorld eq_refl eq_refl eq_refl eq_refl)
    as (w1 & w2 & Hs & Hr & Hrow & _).
  exists w1, w2. auto.
Defined.

(** ** The next run of a cron expression over time *)

Lemma setSeconds00_whole (tz : Z) from :
  exists a, setSeconds00 tz from = a * 60000.
Proof.
  destruct (setSeconds00_truncates tz from) as [H _].
  rewrite localTime_fixed in H. unfold msPerMinute in H.
  apply Z.mod_divide in H; [|lia]. destruct H as [c Hc].
  exists (c - tz). lia.
Qed.

(** X24: in a zone at a fixed offset, the next run of a cron expression is
    stable until it is reached: if [r] is the next run seen from [from], it
    is also the next run seen from every time from [from] up to, but not
    including, [r], so that a later reference time never gives an earlier
    next run.  Where clocks are set back this fails: in New York on
    3 November 2024, "* * * * *" asked at 05:45:00 UTC is given
    05:46:00 UTC, and asked later, at 06:30:30 UTC, it is given the earlier
    05:31:00 UTC. *)
Theorem X24_cron_stable :
  (forall (offset : Z) (expr : string) (from from' r : Z),
      calculateNextRunFromCron offset expr from = OK r ->
      from <= from' ->
      (from' < r -> calculateNextRunFromCron offset expr from' = OK r)
      /\ (forall r',
            calculateNextRunFromCron offset expr from' = OK r' -> r <= r'))
  /\ (calculateNextRunFromCron newYork "* * * * *"
        (utcInstant 2024 11 3 5 45 0)
      = OK (utcInstant 2024 11 3 5 46 0)
      /\ calculateNextRunFromCron newYork "* * * * *"
           (utcInstant 2024 11 3 6 30 30)
         = OK (utcInstant 2024 11 3 5 31 0)
      /\ utcInstant 2024 11 3 5 45 0 < utcInstant 2024 11 3 6 30 30
      /\ utcInstant 2024 11 3 5 31 0 < utcInstant 2024 11 3 5 46 0).
Proof.
  split.
  2:{ split; [vm_compute; reflexivity|]. split; [vm_compute; reflexivity|].
      split; reflexivity. }
  intros tz expr from from' r Hr Hle.
  destruct (cronParts expr) as [f|] eqn:Hp.
  2:{ unfold calculateNextRunFromCron in Hr. rewrite Hp in Hr. discriminate. }
  destruct (proj1 (cron_search_OK tz expr f from r Hp) Hr)
    as (k & Hk & Hrk & Hm & Hfirst).
  destruct (setSeconds00_truncates tz from) as [_ Hs].
  destruct (setSeconds00_truncates tz from') as [_ Hs'].
  destruct (setSeconds00_whole tz from) as [a Ha].
  destruct (setSeconds00_whole tz from') as [b Hb].
  unfold msPerMinute in *.
  assert (Hstable : from' < r ->
                    calculateNextRunFromCron tz expr from' = OK r).
  { intros Hlt. apply (cron_search_OK tz expr f from' r Hp).
    exists (k - (b - a)). unfold msPerMinute.
    split; [lia|]. split; [lia|]. split; [exact Hm|].
    intros j Hj.
    replace (setSeconds00 tz from' + j * 60000)
      with (setSeconds00 tz from + (b - a + j) * 60000) by lia.
    apply Hfirst. lia. }
  split; [exact Hstable|].
  intros r' Hr'. destruct (Z.lt_ge_cases from' r) as [Hlt|Hge].
  - rewrite (Hstable Hlt) in Hr'. injection Hr' as <-. lia.
  - destruct (proj1 (cron_search_OK tz expr f from' r' Hp) Hr')
      as (k' & Hk' & Hrk' & _). unfold msPerMinute in Hrk'. lia.
Qed.

Lemma X24_cron_stable_witness :
  calculateNextRunFromCron 0 "*/5 * * * *" 1704067400000 = OK 1704067500000.
Proof.
  apply (proj1 (proj1 X24_cron_stable 0 "*/5 * * * *" 1704067200000
                  1704067400000 1704067500000
                  ltac:(vm_compute; reflexivity) ltac:(lia))).
  lia.
Defined.
